(** * Article content extraction engine: [web_scraper.py]

    A shallow embedding of [WebScraper] (URL validation, fetch loop with
    retries, DOM sanitising, the four extraction strategies, the text
    normaliser and the result cache) together with the properties the design
    document states about them. *)

From Stdlib Require Import String Ascii DecimalString.
From Stdlib Require Import NArith ZArith QArith Qround Qabs Bool Lia Lqa List FinFun.
Import ListNotations.

Set Implicit Arguments.

Close Scope Q_scope.
Open Scope nat_scope.
Open Scope list_scope.

(** * Python strings

    A Python [str] is a sequence of Unicode code points; [len] counts code
    points.  Code points are binary naturals. *)

Definition char := N.
Definition pystr := list char.

Definition LF : char := 10%N.
Definition CR : char := 13%N.
Definition TAB : char := 9%N.
Definition SP : char := 32%N.
Definition BANG : char := 33%N.
Definition QMARK : char := 63%N.
Definition DOT : char := 46%N.

(** [py "abc"] is the Python literal ['abc'] (ASCII literals only). *)
Definition py (s : string) : pystr :=
  map N_of_ascii (list_ascii_of_string s).

(** [str.isspace] for one code point.  The regular expression class [\s] on
    [str] patterns and [str.strip()] without argument use the same set. *)
Definition whitespace_code_points : list char :=
  [9; 10; 11; 12; 13; 28; 29; 30; 31; 32; 133; 160; 5760;
   8192; 8193; 8194; 8195; 8196; 8197; 8198; 8199; 8200; 8201; 8202;
   8232; 8233; 8239; 8287; 12288]%N.

Definition isspace (c : char) : bool :=
  existsb (N.eqb c) whitespace_code_points.

Definition is_char (x c : char) : bool := N.eqb c x.

(** Dropping the leading, or the trailing, elements that satisfy [p]. *)
Fixpoint ldrop (A : Type) (p : A -> bool) (s : list A) : list A :=
  match s with
  | [] => []
  | c :: rest => if p c then ldrop p rest else s
  end.

Definition rdrop (A : Type) (p : A -> bool) (s : list A) : list A :=
  rev (ldrop p (rev s)).

(** [str.lstrip()], [str.rstrip()], [str.strip()]. *)
Abbreviation lstrip := (ldrop isspace).
Abbreviation rstrip := (rdrop isspace).

Definition strip (s : pystr) : pystr := rstrip (lstrip s).

(** [s.split(d)] for a one-character separator: never an empty list. *)
Fixpoint split_on (d : char) (s : pystr) : list pystr :=
  match s with
  | [] => [[]]
  | c :: rest =>
      if N.eqb c d then [] :: split_on d rest
      else match split_on d rest with
           | l :: ls => (c :: l) :: ls
           | [] => [[c]]
           end
  end.

(** [sep.join(parts)]. *)
Fixpoint join (sep : pystr) (parts : list pystr) : pystr :=
  match parts with
  | [] => []
  | [l] => l
  | l :: rest => l ++ sep ++ join sep rest
  end.

(** * Regular expression substitution

    [re.sub(pattern, repl, text)] replaces the leftmost non-overlapping
    matches.  A pattern is given by its anchored matcher: [m s] is the length
    of the match of the pattern at the start of [s] (the one the backtracking
    engine finds), or [None].  None of the patterns of the normaliser matches
    the empty string.  [skip] counts the characters of the current match that
    are still to be consumed. *)

Definition matcher := pystr -> option nat.

Fixpoint re_sub_from (skip : nat) (m : matcher) (repl s : pystr) : pystr :=
  match s with
  | [] => []
  | c :: rest =>
      match skip with
      | S k => re_sub_from k m repl rest
      | O =>
          match m s with
          | Some (S len) => repl ++ re_sub_from len m repl rest
          | _ => c :: re_sub_from 0 m repl rest
          end
      end
  end.

Definition re_sub (m : matcher) (repl s : pystr) : pystr :=
  re_sub_from 0 m repl s.

(** Length of the longest prefix of [s] whose characters satisfy [p]. *)
Fixpoint span_len (p : char -> bool) (s : pystr) : nat :=
  match s with
  | c :: rest => if p c then S (span_len p rest) else 0
  | [] => 0
  end.

(** [\r\n|\r] *)
Definition m_line_ending : matcher := fun s =>
  match s with
  | c :: rest =>
      if N.eqb c CR then
        match rest with
        | d :: _ => if N.eqb d LF then Some 2 else Some 1
        | [] => Some 1
        end
      else None
  | [] => None
  end.

(** [\t] *)
Definition m_tab : matcher := fun s =>
  match s with
  | c :: _ => if N.eqb c TAB then Some 1 else None
  | [] => None
  end.

(** [[x]{n,}]: a greedy run of at least [n] characters [x]. *)
Definition m_run (x : char) (n : nat) : matcher := fun s =>
  let k := span_len (is_char x) s in
  if Nat.leb n k then Some k else None.

(** Number of line feeds in [s], and the length of [s] up to and including
    its last line feed. *)
Definition count_lf (s : pystr) : nat := length (filter (is_char LF) s).

Fixpoint upto_last_lf (s : pystr) : nat :=
  match s with
  | [] => 0
  | c :: rest =>
      match upto_last_lf rest with
      | S k => S (S k)
      | O => if N.eqb c LF then 1 else 0
      end
  end.

(** [\n\s*\n\s*\n+]: from a line feed, the whitespace run that follows must
    hold two more line feeds; both [\s*] are greedy, so the match ends at the
    last line feed of the whitespace run. *)
Definition m_blank_lines : matcher := fun s =>
  match s with
  | c :: rest =>
      if N.eqb c LF then
        let run := firstn (span_len isspace rest) rest in
        if Nat.leb 2 (count_lf run) then Some (S (upto_last_lf run)) else None
      else None
  | [] => None
  end.

(** [ *\n *]: the spaces before a line feed, the line feed, the spaces after. *)
Definition m_spaces_around_lf : matcher := fun s =>
  let before := span_len (is_char SP) s in
  match skipn before s with
  | c :: rest =>
      if N.eqb c LF then Some (before + 1 + span_len (is_char SP) rest) else None
  | [] => None
  end.

(** * The text normaliser: [WebScraper.enhanced_text_cleaning] *)

(** The first loop: strip every line, keep the empty and the substantial. *)
Definition keep_line (line : pystr) : bool :=
  Nat.eqb (length line) 0 || Nat.ltb 5 (length line).

Definition cleaned_lines (lines : list pystr) : list pystr :=
  filter keep_line (map strip lines).

(** The second loop, with its counter [empty_count]. *)
Fixpoint result_lines (empty_count : nat) (lines : list pystr) : list pystr :=
  match lines with
  | [] => []
  | line :: rest =>
      if Nat.eqb (length line) 0 then
        if Nat.leb (S empty_count) 1 then line :: result_lines (S empty_count) rest
        else result_lines (S empty_count) rest
      else line :: result_lines 0 rest
  end.

(** The eight substitutions, in the order of the source. *)
Definition substitutions (text : pystr) : pystr :=
  let text := re_sub m_line_ending [LF] text in
  let text := re_sub m_tab [SP] text in
  let text := re_sub (m_run SP 2) [SP] text in
  let text := re_sub m_blank_lines [LF; LF] text in
  let text := re_sub m_spaces_around_lf [LF] text in
  let text := re_sub (m_run BANG 3) [BANG; BANG; BANG] text in
  let text := re_sub (m_run QMARK 3) [QMARK; QMARK; QMARK] text in
  let text := re_sub (m_run DOT 4) [DOT; DOT; DOT] text in
  text.

Definition enhanced_text_cleaning (text : pystr) : pystr :=
  match text with
  | [] => []
  | _ =>
      let lines := split_on LF (substitutions text) in
      strip (join [LF] (result_lines 0 (cleaned_lines lines)))
  end.

(** * Predicates on texts and lines

    What the steps of the normaliser establish and keep, used to state and
    prove that a normalised text is a fixed point. *)

(** A property of every suffix of a text. *)
Definition on_suffixes (P : pystr -> Prop) (s : pystr) : Prop :=
  forall k, P (skipn k s).

(** A substitution whose every match is replaced by itself changes nothing. *)
Definition fixes_match (m : matcher) (repl : pystr) (s : pystr) : Prop :=
  match m s with
  | Some (S len) => firstn (S len) s = repl
  | _ => True
  end.

(** The text starts with at most [b] characters [x]. *)
Definition span_le (x : char) (b : nat) (s : pystr) : Prop :=
  span_len (is_char x) s <= b.

(** After the substitutions: no carriage return, no tab, no two spaces in a
    row, no more than three [!], [?] or [.] in a row. *)
Definition tidy (s : pystr) : Prop :=
  Forall (fun c => c <> CR) s /\ Forall (fun c => c <> TAB) s /\
  on_suffixes (span_le SP 1) s /\ on_suffixes (span_le BANG 3) s /\
  on_suffixes (span_le QMARK 3) s /\ on_suffixes (span_le DOT 3) s.

(** No whitespace at either end. *)
Definition stripped (l : pystr) : Prop := lstrip l = l /\ rstrip l = l.

Definition is_empty (l : pystr) : bool :=
  match l with [] => true | _ => false end.

(** Dropping the empty lines at the start, or at the end, of a list. *)
Abbreviation ltrim := (ldrop is_empty).
Abbreviation rtrim := (rdrop is_empty).

(** A line as the first loop leaves it. *)
Definition good_line (l : pystr) : Prop :=
  tidy l /\ Forall (fun c => c <> LF) l /\ stripped l /\ keep_line l = true.

Definition head_not_empty (ls : list pystr) : Prop :=
  match ls with l :: _ => l <> [] | [] => True end.

(** No two empty lines in a row. *)
Fixpoint well_spaced (ls : list pystr) : Prop :=
  match ls with
  | l :: rest => (l = [] -> head_not_empty rest) /\ well_spaced rest
  | [] => True
  end.

(** The lines of a normalised text. *)
Definition clean_lines (ls : list pystr) : Prop :=
  Forall good_line ls /\ well_spaced ls /\ ltrim ls = ls /\ rtrim ls = ls.

(** What follows a line in a text: nothing, or a line feed. *)
Definition line_end (tail : pystr) : Prop :=
  tail = [] \/ exists t, tail = LF :: t.

(** The lines of a normalised text, or any suffix of them. *)
Definition spaced_lines (ls : list pystr) : Prop :=
  Forall good_line ls /\ well_spaced ls /\ rtrim ls = ls.

(** * More of Python's [str] *)

Definition pystr_eqb (a b : pystr) : bool :=
  if list_eq_dec N.eq_dec a b then true else false.

(** [str.lower()] on ASCII letters; other code points are left as they are. *)
Definition lower_char (c : char) : char :=
  if (N.leb 65 c && N.leb c 90)%bool then (c + 32)%N else c.

Definition lower (s : pystr) : pystr := map lower_char s.

Fixpoint starts_with (p s : pystr) : bool :=
  match p, s with
  | [], _ => true
  | a :: p', b :: s' => N.eqb a b && starts_with p' s'
  | _ :: _, [] => false
  end.

(** [sub in s]. *)
Fixpoint contains (sub s : pystr) : bool :=
  starts_with sub s ||
  match s with
  | [] => false
  | _ :: rest => contains sub rest
  end.

(** [s.count(c)] for one character. *)
Definition count_char (c : char) (s : pystr) : nat :=
  length (filter (is_char c) s).

(** [s.split()]: the maximal runs of characters that are not whitespace.
    [cur] is the word being read, in reverse. *)
Fixpoint split_ws_from (cur : pystr) (s : pystr) : list pystr :=
  match s with
  | [] => match cur with [] => [] | _ => [rev cur] end
  | c :: rest =>
      if isspace c then
        match cur with
        | [] => split_ws_from [] rest
        | _ => rev cur :: split_ws_from [] rest
        end
      else split_ws_from (c :: cur) rest
  end.

Definition split_ws (s : pystr) : list pystr := split_ws_from [] s.

(** [str(n)] for an integer. *)
Definition str_of_Z (z : Z) : pystr :=
  py (NilZero.string_of_int (Z.to_int z)).

Definition str_of_nat (n : nat) : pystr := str_of_Z (Z.of_nat n).

(** [str(l)] for a list of strings whose elements hold no quote, backslash
    or non-printable character: [['a', 'b']]. *)
Definition str_of_list (l : list pystr) : pystr :=
  py "[" ++ join (py ", ") (map (fun s => py "'" ++ s ++ py "'") l) ++ py "]".

(** * Numbers

    Python's [int] and [float] values are rationals here; comparisons of
    numbers are comparisons of their values. *)

Definition Qnat (n : nat) : Q := inject_Z (Z.of_nat n).

Definition Qlt_bool (a b : Q) : bool := negb (Qle_bool b a).

(** [min(a, b)] and [max(a, b)]: the first argument unless the second is
    strictly smaller (greater). *)
Definition py_min (a b : Q) : Q := if Qlt_bool b a then b else a.
Definition py_max (a b : Q) : Q := if Qlt_bool a b then b else a.

(** [int(x)]: truncation towards zero. *)
Definition py_int (x : Q) : Z :=
  if Qle_bool 0 x then Qfloor x else Qceiling x.

(** * Exceptions

    The exception classes the handlers of [scrape_article] tell apart.
    [HTTPError] carries the status code of its response, as
    [raise_for_status] raises it.  [RequestException] stands for the
    [requests] exceptions that are neither a timeout, a connection error nor
    an HTTP error; [OtherException] for any other [Exception]; both carry
    [str(e)]. *)

Inductive exn : Type :=
| Timeout
| ConnectionError
| HTTPError (status_code : Z)
| RequestException (msg : pystr)
| OtherException (msg : pystr).

Inductive result (A : Type) : Type :=
| Ok (a : A)
| Raise (e : exn).

Arguments Ok {A} a.
Arguments Raise {A} e.

Definition bind (A B : Type) (r : result A) (k : A -> result B) : result B :=
  match r with
  | Ok a => k a
  | Raise e => Raise e
  end.

Notation "x <- r ;; k" := (bind r (fun x => k))
  (at level 61, r at next level, right associativity).

(** * The document tree

    A parsed document as [BeautifulSoup] holds it: text nodes and tags.  Every
    tag carries its object identity [uid], distinct from tag to tag: the
    loops of the source keep references to elements while they remove other
    elements from the tree.  The root stands for the [BeautifulSoup] object
    itself. *)

Unset Elimination Schemes.

Inductive node : Type :=
| Text (s : pystr)
| Tag (uid : nat) (name : pystr) (attrs : list (pystr * pystr)) (children : list node).

Set Elimination Schemes.

Definition is_tag (n : node) : bool :=
  match n with Tag _ _ _ _ => true | Text _ => false end.

Definition tag_uid (n : node) : nat :=
  match n with Tag u _ _ _ => u | Text _ => 0 end.

Definition tag_name (n : node) : pystr :=
  match n with Tag _ name _ _ => name | Text _ => [] end.

Definition tag_children (n : node) : list node :=
  match n with Tag _ _ _ cs => cs | Text _ => [] end.

(** [element.get(key)]. *)
Definition get_attr (key : pystr) (n : node) : option pystr :=
  match n with
  | Tag _ _ attrs _ =>
      match find (fun kv => pystr_eqb (fst kv) key) attrs with
      | Some kv => Some (snd kv)
      | None => None
      end
  | Text _ => None
  end.

(** [element.get('class', [])]: the class attribute is a list of names. *)
Definition get_class (n : node) : list pystr :=
  match get_attr (py "class") n with
  | Some v => split_ws v
  | None => []
  end.

(** [element.get('id', '')]. *)
Definition get_id (n : node) : pystr :=
  match get_attr (py "id") n with
  | Some v => v
  | None => []
  end.

(** [element.get_text()]: the strings below the element, concatenated. *)
Fixpoint get_text (n : node) : pystr :=
  match n with
  | Text s => s
  | Tag _ _ _ cs => concat (map get_text cs)
  end.

(** The tags below an element, in document order. *)
Fixpoint descendants (n : node) : list node :=
  match n with
  | Text _ => []
  | Tag _ _ _ cs =>
      flat_map (fun c => if is_tag c then c :: descendants c else []) cs
  end.

Definition name_in (names : list pystr) (n : node) : bool :=
  existsb (pystr_eqb (tag_name n)) names.

(** [element.find_all(names)]. *)
Definition find_all (names : list pystr) (n : node) : list node :=
  filter (name_in names) (descendants n).

(** The element a reference denotes in the current tree.  An element that
    was decomposed, alone or with an ancestor, has lost its contents. *)
Definition resolve (u : nat) (soup : node) : node :=
  match find (fun d => Nat.eqb (tag_uid d) u) (descendants soup) with
  | Some el => el
  | None => Tag u [] [] []
  end.

(** [element.decompose()] for the element of identity [u]. *)
Fixpoint decompose (u : nat) (n : node) : node :=
  match n with
  | Text s => Text s
  | Tag v name attrs cs =>
      Tag v name attrs
        (flat_map (fun c =>
                     if is_tag c && Nat.eqb (tag_uid c) u then []
                     else [decompose u c]) cs)
  end.

Definition decompose_all (elements : list node) (soup : node) : node :=
  fold_left (fun t el => decompose (tag_uid el) t) elements soup.

(** ** CSS selectors

    A compound selector constrains the tag name, a class, the id and one
    attribute value; a selector is a chain of compounds under the descendant
    combinator, the last one for the element selected. *)

Record compound : Type := {
  sel_tag : option pystr;
  sel_class : option pystr;
  sel_id : option pystr;
  sel_attr : option (pystr * pystr)
}.

Definition selector := list compound.

Definition by_tag (t : string) : compound :=
  {| sel_tag := Some (py t); sel_class := None; sel_id := None; sel_attr := None |}.
Definition by_class (c : string) : compound :=
  {| sel_tag := None; sel_class := Some (py c); sel_id := None; sel_attr := None |}.
Definition by_id (i : string) : compound :=
  {| sel_tag := None; sel_class := None; sel_id := Some (py i); sel_attr := None |}.
Definition by_attr (k v : string) : compound :=
  {| sel_tag := None; sel_class := None; sel_id := None; sel_attr := Some (py k, py v) |}.
Definition by_tag_class (t c : string) : compound :=
  {| sel_tag := Some (py t); sel_class := Some (py c); sel_id := None; sel_attr := None |}.

Definition holds (A : Type) (o : option A) (p : A -> bool) : bool :=
  match o with Some a => p a | None => true end.

Definition matches_compound (c : compound) (n : node) : bool :=
  is_tag n &&
  holds (sel_tag c) (fun t => pystr_eqb (tag_name n) t) &&
  holds (sel_class c) (fun k => existsb (pystr_eqb k) (get_class n)) &&
  holds (sel_id c) (fun i =>
    match get_attr (py "id") n with Some v => pystr_eqb v i | None => false end) &&
  holds (sel_attr c) (fun kv =>
    match get_attr (fst kv) n with Some v => pystr_eqb v (snd kv) | None => false end).

(** The outer compounds, innermost first, against the ancestors, nearest
    first. *)
Fixpoint matches_ancestors (outer : list compound) (ancestors : list node) : bool :=
  match outer with
  | [] => true
  | c :: outer' =>
      (fix search (ancestors : list node) : bool :=
         match ancestors with
         | [] => false
         | a :: above =>
             if matches_compound c a then matches_ancestors outer' above
             else search above
         end) ancestors
  end.

Definition matches (sel : selector) (ancestors : list node) (n : node) : bool :=
  match rev sel with
  | [] => false
  | subject :: outer => matches_compound subject n && matches_ancestors outer ancestors
  end.

Fixpoint select_under (sel : selector) (ancestors : list node) (n : node) : list node :=
  match n with
  | Text _ => []
  | Tag _ _ _ cs =>
      flat_map (fun c =>
                  (if matches sel (n :: ancestors) c then [c] else [])
                  ++ select_under sel (n :: ancestors) c) cs
  end.

(** [soup.select(selector)]: the matching elements, in document order. *)
Definition select (sel : selector) (soup : node) : list node :=
  select_under sel [] soup.

(** * Library functions taken as given

    [urlparse url] is [(scheme, netloc)] of [urllib.parse.urlparse(url)], or
    [None] when it raises; [md5 url] is
    [hashlib.md5(url.encode()).hexdigest()]; [markup_length el] is
    [len(str(el))]; [extract_comprehensive_metadata soup] stands for the
    method of that name, which reads the tree and changes nothing. *)

Record page_metadata : Type := {
  meta_title : option pystr;
  meta_author : option pystr;
  meta_publish_date : option pystr;
  meta_description : option pystr
}.

Record library : Type := {
  urlparse : pystr -> option (pystr * pystr);
  md5 : pystr -> pystr;
  markup_length : node -> nat;
  extract_comprehensive_metadata : node -> result page_metadata
}.

(** * The extraction strategies *)

(** The dictionary of [extract_element_metadata]. *)
Record element_metadata : Type := {
  element_type : pystr;
  element_id : pystr;
  element_classes : pystr;
  text_length : nat;
  word_count : nat;
  paragraph_count : nat;
  header_count : nat;
  link_count : nat
}.

Definition header_tags : list pystr :=
  [py "h1"; py "h2"; py "h3"; py "h4"; py "h5"; py "h6"].

Definition extract_element_metadata (element : node) : element_metadata :=
  let text := get_text element in
  {| element_type := tag_name element;
     element_id := get_id element;
     element_classes := join (py " ") (get_class element);
     text_length := length text;
     word_count := length (split_ws text);
     paragraph_count := length (find_all [py "p"] element);
     header_count := length (find_all header_tags element);
     link_count := length (find_all [py "a"] element) |}.

(** What a strategy returns: [(content, metadata, score)], the metadata
    [None] for the empty dictionary. *)
Definition candidate : Type := (pystr * option element_metadata * Q)%type.

Definition no_candidate : candidate := ([], None, 0%Q).

(** A strategy receives the tree, may raise, and leaves a tree behind. *)
Definition strategy : Type := node -> result candidate * node.

(** What every strategy does with the element it retained. *)
Definition candidate_of (best_element : node) (score : Q) : candidate :=
  (enhanced_text_cleaning (get_text best_element),
   Some (extract_element_metadata best_element),
   score).

(** ** [_score_content_quality] *)

Definition positive_indicators : list pystr :=
  [py "content"; py "article"; py "post"; py "story"; py "main"; py "body"].

Definition negative_indicators : list pystr :=
  [py "nav"; py "menu"; py "sidebar"; py "footer"; py "header"; py "ad"; py "comment"].

Definition score_content_quality (element : node) : Z :=
  let score := 0%Z in
  let text_length := length (get_text element) in
  let score :=
    if Nat.ltb 2000 text_length then (score + 30)%Z
    else if Nat.ltb 1000 text_length then (score + 20)%Z
    else if Nat.ltb 500 text_length then (score + 10)%Z
    else score in
  let paragraphs := find_all [py "p"] element in
  let score := (score + Z.min (Z.of_nat (length paragraphs) * 2) 20)%Z in
  let headers := find_all header_tags element in
  let score := (score + Z.min (Z.of_nat (length headers)) 10)%Z in
  let element_attrs :=
    lower (str_of_list (get_class element) ++ py " " ++ get_id element) in
  let score :=
    fold_left (fun score indicator =>
                 if contains indicator element_attrs then (score + 5)%Z else score)
              positive_indicators score in
  let score :=
    fold_left (fun score indicator =>
                 if contains indicator element_attrs then (score - 10)%Z else score)
              negative_indicators score in
  Z.max score 0.

(** ** [_extract_semantic_content] *)

Definition semantic_selectors : list (selector * Z) :=
  [ ([by_tag "article"], 100);
    ([by_tag "main"; by_tag "article"], 95);
    ([by_attr "role" "main"; by_tag "article"], 90);
    ([by_tag_class "div" "article-content"], 85);
    ([by_tag_class "div" "post-content"], 85);
    ([by_tag_class "div" "entry-content"], 80);
    ([by_attr "itemprop" "articleBody"], 95);
    ([by_tag "main"], 70);
    ([by_attr "role" "main"], 65) ]%Z.

Definition semantic_best (soup : node) : option node * Z :=
  fold_left
    (fun state entry =>
       let '(sel, base_score) := entry in
       fold_left
         (fun state element =>
            let '(best_element, best_score) := state in
            let content_score := score_content_quality element in
            let total_score := (base_score + content_score)%Z in
            if Z.ltb best_score total_score then (Some element, total_score)
            else state)
         (select sel soup) state)
    semantic_selectors (None, 0%Z).

Definition extract_semantic_content : strategy := fun soup =>
  match semantic_best soup with
  | (Some best_element, best_score) =>
      (Ok (candidate_of best_element (inject_Z best_score)), soup)
  | (None, _) => (Ok no_candidate, soup)
  end.

(** ** [_extract_by_length_heuristics] *)

Definition unwanted_children : list pystr :=
  [py "nav"; py "aside"; py "footer"; py "header"].

Definition length_candidates : list pystr :=
  [py "div"; py "section"; py "article"; py "main"].

Definition length_score_of (element : node) : Q :=
  let text := get_text element in
  let length_score := py_min (Qnat (length text) / 100) 50 in
  let paragraphs := find_all [py "p"] element in
  let para_score := py_min (Qnat (length paragraphs * 2)) 30 in
  let links := find_all [py "a"] element in
  let link_text := list_sum (map (fun link => length (get_text link)) links) in
  let link_ratio :=
    if Nat.ltb 0 (length text) then (Qnat link_text / Qnat (length text))%Q
    else 1%Q in
  let link_penalty := (link_ratio * 20)%Q in
  (length_score + para_score - link_penalty)%Q.

(** The loop over the candidates.  The state is the tree, the reference
    [best_element] and [best_score]. *)
Definition length_step (state : node * option nat * Q) (candidate : nat)
  : node * option nat * Q :=
  let '(soup, best_element, best_score) := state in
  let unwanted := find_all unwanted_children (resolve candidate soup) in
  let soup := decompose_all unwanted soup in
  let total_score := length_score_of (resolve candidate soup) in
  if Qlt_bool best_score total_score then (soup, Some candidate, total_score)
  else (soup, best_element, best_score).

Definition extract_by_length_heuristics : strategy := fun soup =>
  let candidates := map tag_uid (find_all length_candidates soup) in
  let '(soup, best_element, best_score) :=
    fold_left length_step candidates (soup, None, 0%Q) in
  match best_element with
  | Some best => (Ok (candidate_of (resolve best soup) best_score), soup)
  | None => (Ok no_candidate, soup)
  end.

(** ** [_extract_by_text_density] *)

Definition density_candidates : list pystr :=
  [py "div"; py "section"; py "article"].

Definition content_terms : list pystr :=
  [py "content"; py "article"; py "post"; py "story"].

Definition density_step (lib : library) (state : option node * Q) (element : node)
  : option node * Q :=
  let '(best_element, best_density) := state in
  let text_length := length (get_text element) in
  let html_length := markup_length lib element in
  if Nat.eqb html_length 0 then state
  else
    let density := (Qnat text_length / Qnat html_length)%Q in
    let density :=
      if name_in [py "article"; py "section"] element then (density * (12 # 10))%Q
      else density in
    let element_classes := join (py " ") (get_class element) in
    let density :=
      if existsb (fun term => contains term (lower element_classes)) content_terms
      then (density * (11 # 10))%Q
      else density in
    if Qlt_bool best_density density && Nat.ltb 200 text_length
    then (Some element, density)
    else state.

Definition extract_by_text_density (lib : library) : strategy := fun soup =>
  let candidates := find_all density_candidates soup in
  match fold_left (density_step lib) candidates (None, 0%Q) with
  | (Some best_element, best_density) =>
      let score := py_int (best_density * 100) in
      (Ok (candidate_of best_element (inject_Z score)), soup)
  | (None, _) => (Ok no_candidate, soup)
  end.

(** ** [_extract_readability_content] *)

Definition readability_step (state : option node * Q) (element : node)
  : option node * Q :=
  let '(best_element, best_readability) := state in
  let text := get_text element in
  if Nat.ltb (length text) 100 then state
  else
    let sentences :=
      count_char DOT text + count_char BANG text + count_char QMARK text in
    let words := length (split_ws text) in
    if Nat.eqb sentences 0 || Nat.eqb words 0 then state
    else
      let avg_sentence_length := (Qnat words / Qnat sentences)%Q in
      let sentence_score :=
        py_max 0 (20 - Qabs (avg_sentence_length - (35 # 2)))%Q in
      let paragraphs := find_all [py "p"] element in
      let para_score := py_min (Qnat (length paragraphs)) 20 in
      let headers := find_all header_tags element in
      let header_score := py_min (Qnat (length headers * 3)) 15 in
      let total_readability := (sentence_score + para_score + header_score)%Q in
      if Qlt_bool best_readability total_readability
      then (Some element, total_readability)
      else state.

Definition extract_readability_content : strategy := fun soup =>
  let candidates := find_all length_candidates soup in
  match fold_left readability_step candidates (None, 0%Q) with
  | (Some best_element, best_readability) =>
      (Ok (candidate_of best_element (inject_Z (py_int best_readability))), soup)
  | (None, _) => (Ok no_candidate, soup)
  end.

(** ** [advanced_content_extraction]

    The strategies run in turn on the one tree; a strategy that raises is
    skipped.  The state is [(best_content, best_score, best_metadata)]. *)

Definition selection : Type := (pystr * Q * option element_metadata)%type.

Definition select_step (state : selection) (outcome : result candidate) : selection :=
  match outcome with
  | Ok (content, metadata, score) =>
      let '(best_content, best_score, best_metadata) := state in
      if Qlt_bool best_score score && Nat.ltb 200 (length content)
      then (content, score, metadata)
      else state
  | Raise _ => state
  end.

Fixpoint run_strategies (strategies : list strategy) (state : selection) (soup : node)
  : selection * node :=
  match strategies with
  | [] => (state, soup)
  | strategy :: rest =>
      let '(outcome, soup) := strategy soup in
      run_strategies rest (select_step state outcome) soup
  end.

Definition extraction_strategies (lib : library) : list strategy :=
  [ extract_semantic_content;
    extract_by_length_heuristics;
    extract_by_text_density lib;
    extract_readability_content ].

Definition advanced_content_extraction_with (strategies : list strategy) (soup : node)
  : pystr * option element_metadata * node :=
  let '((best_content, _, best_metadata), soup) :=
    run_strategies strategies ([], 0%Q, None) soup in
  (best_content, best_metadata, soup).

Definition advanced_content_extraction (lib : library) (soup : node)
  : pystr * option element_metadata * node :=
  advanced_content_extraction_with (extraction_strategies lib) soup.

(** * URL validation: [is_valid_url] *)

(** Case folding of [re.IGNORECASE] on [str] patterns, as far as it reaches
    ASCII: besides the upper-case letters, four other letters are matched
    with an ASCII letter: U+0130 and U+0131 with [i], U+017F with [s] and
    U+212A (the Kelvin sign) with [k]. *)
Definition sre_fold (c : char) : char :=
  if (N.leb 65 c && N.leb c 90)%bool then (c + 32)%N
  else if N.eqb c 304 then 105%N
  else if N.eqb c 305 then 105%N
  else if N.eqb c 383 then 115%N
  else if N.eqb c 8490 then 107%N
  else c.

(** The patterns of [suspicious_patterns]: the class [[^\x00-\x7F]] and
    lower-case literals. *)
Inductive pattern : Type :=
| NonAscii
| Literal (s : pystr).

(** [re.search(pattern, s, re.IGNORECASE)] as a truth value.  Under
    [re.IGNORECASE] the class [[\x00-\x7F]] holds every character that folds
    to an ASCII one, so its complement misses them. *)
Definition re_search_ignorecase (p : pattern) (s : pystr) : bool :=
  match p with
  | NonAscii => existsb (fun c => N.ltb 127 (sre_fold c)) s
  | Literal l => contains l (map sre_fold s)
  end.

Definition suspicious_patterns : list pattern :=
  [NonAscii; Literal (py "javascript:"); Literal (py "data:"); Literal (py "file:")].

Definition is_valid_url (lib : library) (url : pystr) : bool :=
  match urlparse lib url with
  | None => false
  | Some (scheme, netloc) =>
      if negb (existsb (pystr_eqb scheme) [py "http"; py "https"]
               && negb (is_empty netloc))
      then false
      else if existsb (fun p => re_search_ignorecase p url) suspicious_patterns
      then false
      else true
  end.

(** [url.encode()]: UTF-8 has no encoding for the surrogates. *)
Definition is_surrogate (c : char) : bool := (N.leb 55296 c && N.leb c 57343)%bool.

Definition encode (s : pystr) : result pystr :=
  if existsb is_surrogate s
  then Raise (OtherException (py "'utf-8' codec can't encode character: surrogates not allowed"))
  else Ok s.

(** * The result cache: [extraction_cache]

    A [dict] from the hash of the URL to [(timestamp, content)], in insertion
    order; timestamps are values of [time.time()]. *)

Definition cache_entry : Type := (Q * pystr)%type.
Definition cache : Type := list (pystr * cache_entry).

(** [cache[key]], if [key in cache]. *)
Fixpoint cache_get (key : pystr) (c : cache) : option cache_entry :=
  match c with
  | [] => None
  | (k, v) :: rest => if pystr_eqb k key then Some v else cache_get key rest
  end.

(** [cache[key] = value]: a present key keeps its place. *)
Fixpoint cache_set (key : pystr) (value : cache_entry) (c : cache) : cache :=
  match c with
  | [] => [(key, value)]
  | (k, v) :: rest =>
      if pystr_eqb k key then (k, value) :: rest
      else (k, v) :: cache_set key value rest
  end.

(** [del cache[key]]. *)
Fixpoint cache_del (key : pystr) (c : cache) : cache :=
  match c with
  | [] => []
  | (k, v) :: rest => if pystr_eqb k key then rest else (k, v) :: cache_del key rest
  end.

(** [min(cache.keys(), key=lambda k: cache[k][0])]: the first key of the
    smallest timestamp. *)
Fixpoint oldest_from (best : pystr * cache_entry) (c : cache) : pystr * cache_entry :=
  match c with
  | [] => best
  | kv :: rest =>
      if Qlt_bool (fst (snd kv)) (fst (snd best)) then oldest_from kv rest
      else oldest_from best rest
  end.

Definition oldest_key (c : cache) : option pystr :=
  match c with
  | [] => None
  | kv :: rest => Some (fst (oldest_from kv rest))
  end.

Definition cache_capacity : nat := 50.
Definition cache_ttl : Q := 3600%Q.

(** Lines 545 to 552: write the entry, then evict if the cache grew too big. *)
Definition cache_store (key : pystr) (value : cache_entry) (c : cache) : cache :=
  let c := cache_set key value c in
  if Nat.ltb cache_capacity (length c) then
    match oldest_key c with
    | Some oldest => cache_del oldest c
    | None => c
    end
  else c.

(** * The outside world of one call

    What one call of [scrape_article] reads from outside the program: the
    clock at the cache lookup and at the cache write, the outcome of
    [get_random_headers], and the outcome of each [session.get], by attempt.
    A response is its status code, its [content-type] header if any, and the
    tree [BeautifulSoup(response.content, 'html.parser')] builds from its
    body, or the exception that raises. *)

Record response : Type := {
  status_code : Z;
  content_type_header : option pystr;
  content : result node
}.

Record world : Type := {
  time_at_lookup : Q;
  get_random_headers : result unit;
  session_get : nat -> result response;
  time_at_store : Q
}.

(** What the call does to the outside: requests and pauses. *)
Inductive event : Type :=
| EvGet (url : pystr)
| EvSleep (seconds : Z).

(** * Messages *)

Definition invalid_url_message : pystr :=
  [8218; 249; 229]%N ++
  py " Invalid URL format. Please enter a valid URL starting with http:// or https://".

Definition cached_marker : pystr := [63743; 252; 236; 227]%N ++ py " [Cached] ".

Definition invalid_content_type_message (content_type : pystr) : pystr :=
  [8218; 249; 229]%N ++ py " Invalid content type: " ++ content_type
  ++ py ". This appears to be a " ++ hd [] (split_on 47%N content_type)
  ++ py " file, not a webpage.".

Definition insufficient_content_message : pystr :=
  [8218; 249; 229]%N ++
  py " Could not extract significant content. This page might use dynamic loading, be behind a paywall, or contain primarily multimedia content.".

Definition timeout_message : pystr :=
  [8218; 232; 8734]%N ++
  py " Request timed out. The website is taking too long to respond.".

Definition connection_message : pystr :=
  [63743; 252; 229; 234]%N ++
  py " Connection failed. Please check your internet connection or try again later.".

Definition forbidden_message : pystr :=
  [63743; 252; 246; 180]%N ++
  py " Access denied. The website is blocking automated requests.".

Definition not_found_message : pystr :=
  [63743; 252; 238; 231]%N ++
  py " Page not found. Please verify the URL is correct.".

Definition rate_limited_message : pystr :=
  [8218; 232; 177; 212; 8719; 232]%N ++
  py " Rate limited. The website is temporarily blocking requests. Try again later.".

Definition server_error_message (status : Z) : pystr :=
  [63743; 252; 238; 223]%N ++ py " Server error (" ++ str_of_Z status
  ++ py "). The website is experiencing technical difficulties.".

Definition http_error_message (status : Z) : pystr :=
  [63743; 252; 236; 209]%N ++ py " HTTP error " ++ str_of_Z status
  ++ py ". The website returned an error response.".

Definition unexpected_error_message (msg : pystr) : pystr :=
  [8218; 246; 8224; 212; 8719; 232]%N ++ py " Unexpected error: " ++ msg.

(** The [except] clauses of [scrape_article], in their order. *)
Definition handle_exception (e : exn) : pystr :=
  match e with
  | Timeout => timeout_message
  | ConnectionError => connection_message
  | HTTPError status =>
      if Z.eqb status 403 then forbidden_message
      else if Z.eqb status 404 then not_found_message
      else if Z.eqb status 429 then rate_limited_message
      else if Z.leb 500 status then server_error_message status
      else http_error_message status
  | RequestException msg => unexpected_error_message msg
  | OtherException msg => unexpected_error_message msg
  end.

(** * Fetching: the retry loop of [scrape_article] *)

Definition max_retries : nat := 3.

(** [response.raise_for_status()]. *)
Definition raise_for_status (r : response) : result unit :=
  if (Z.leb 400 (status_code r) && Z.ltb (status_code r) 600)%bool
  then Raise (HTTPError (status_code r))
  else Ok tt.

(** [except requests.exceptions.RequestException]. *)
Definition is_request_exception (e : exn) : bool :=
  match e with
  | OtherException _ => false
  | _ => true
  end.

(** The body of the inner [try]. *)
Definition attempt_once (w : world) (attempt : nat) : result response :=
  response <- session_get w attempt ;;
  _ <- raise_for_status response ;;
  Ok response.

(** The [for attempt in range(max_retries)] loop: the value of [response]
    after it ([None] if the loop ran out), or the exception that left it,
    with the requests and pauses made. *)
Fixpoint fetch_loop (w : world) (url : pystr) (attempts : list nat)
  : result (option response) * list event :=
  match attempts with
  | [] => (Ok None, [])
  | attempt :: rest =>
      match attempt_once w attempt with
      | Ok response => (Ok (Some response), [EvGet url])
      | Raise e =>
          if is_request_exception e then
            if Nat.eqb attempt (max_retries - 1) then (Raise e, [EvGet url])
            else
              let '(outcome, events) := fetch_loop w url rest in
              (outcome, EvGet url :: EvSleep (2 ^ Z.of_nat attempt) :: events)
          else (Raise e, [EvGet url])
      end
  end.

Definition fetch (w : world) (url : pystr) : result (option response) * list event :=
  fetch_loop w url (seq 0 max_retries).

(** * Sanitising *)

Definition unwanted_selectors : list selector :=
  [ [by_tag "script"]; [by_tag "style"]; [by_tag "nav"]; [by_tag "header"];
    [by_tag "footer"]; [by_tag "aside"];
    [by_class "advertisement"]; [by_class "ad"]; [by_class "sidebar"];
    [by_class "comments"]; [by_class "social-share"];
    [by_class "related-articles"]; [by_id "comments"] ].

Definition sanitize (soup : node) : node :=
  fold_left (fun soup sel => decompose_all (select sel soup) soup)
            unwanted_selectors soup.

(** * Formatting the result *)

(** [if metadata.get(key)]. *)
Definition truthy (o : option pystr) : bool :=
  match o with Some (_ :: _) => true | _ => false end.

Definition value_of (o : option pystr) : pystr :=
  match o with Some v => v | None => [] end.

Definition separator_rule : pystr :=
  concat (repeat [8218; 238; 196]%N 60).

Definition format_result (metadata : page_metadata) (content : pystr)
    (content_metadata : option element_metadata) : pystr :=
  let result_parts := [] in
  let result_parts :=
    if truthy (meta_title metadata)
    then result_parts ++ [[63743; 252; 236; 8734]%N ++ py " **"
                          ++ value_of (meta_title metadata) ++ py "**" ++ [LF]]
    else result_parts in
  let result_parts :=
    if truthy (meta_author metadata)
    then result_parts ++ [[8218; 250; 231; 212; 8719; 232]%N ++ py " Author: "
                          ++ value_of (meta_author metadata)]
    else result_parts in
  let result_parts :=
    if truthy (meta_publish_date metadata)
    then result_parts ++ [[63743; 252; 236; 214]%N ++ py " Published: "
                          ++ firstn 10 (value_of (meta_publish_date metadata))]
    else result_parts in
  let result_parts :=
    if truthy (meta_description metadata)
    then result_parts ++ [[63743; 252; 236; 249]%N ++ py " Description: "
                          ++ value_of (meta_description metadata)]
    else result_parts in
  let result_parts :=
    match result_parts with
    | [] => result_parts
    | _ => result_parts ++ [separator_rule]
    end in
  let result_parts := result_parts ++ [content] in
  let result_parts :=
    match content_metadata with
    | Some m =>
        result_parts
        ++ [[LF] ++ [63743; 252; 236; 228]%N ++ py " Extracted from "
            ++ element_type m ++ py " element"]
        ++ [[63743; 252; 236; 232]%N ++ py " Content: "
            ++ str_of_nat (word_count m) ++ py " words, "
            ++ str_of_nat (paragraph_count m) ++ py " paragraphs"]
    | None => result_parts
    end in
  join [LF] result_parts.

(** * [scrape_article] *)

(** From the parsed page to the formatted result and the cache write: lines
    493 to 554. *)
Definition extract_page (lib : library) (w : world) (url_hash : pystr) (c : cache)
    (response : response) : result (pystr * cache) :=
  soup <- content response ;;
  let soup := sanitize soup in
  metadata <- extract_comprehensive_metadata lib soup ;;
  let '(content, content_metadata, _) := advanced_content_extraction lib soup in
  if Nat.ltb (length content) 150
  then Ok (insufficient_content_message, c)
  else
    let final_content := format_result metadata content content_metadata in
    Ok (final_content, cache_store url_hash (time_at_store w, final_content) c).

(** The content type check of lines 488 to 491, then the extraction. *)
Definition check_content_type (lib : library) (w : world) (url_hash : pystr)
    (c : cache) (response : response) : result (pystr * cache) :=
  let content_type := lower (value_of (content_type_header response)) in
  if negb (contains (py "text/html") content_type)
  then Ok (invalid_content_type_message content_type, c)
  else extract_page lib w url_hash c response.

(** The body of the outer [try], after the cache lookup missed.  It returns
    the string and the cache it leaves, or raises. *)
Definition scrape_fresh (lib : library) (w : world) (url url_hash : pystr) (c : cache)
  : result (pystr * cache) * list event :=
  match get_random_headers w with
  | Raise e => (Raise e, [])
  | Ok _ =>
      let '(fetched, events) := fetch w url in
      (response <- fetched ;;
       response <- match response with
                   | Some response => Ok response
                   | None => Raise (OtherException
                               (py "'NoneType' object has no attribute 'headers'"))
                   end ;;
       check_content_type lib w url_hash c response,
       events)
  end.

(** The cache lookup of lines 466 to 469. *)
Definition cache_hit (w : world) (url_hash : pystr) (c : cache) : option pystr :=
  match cache_get url_hash c with
  | Some (cached_time, cached_content) =>
      if Qlt_bool (time_at_lookup w - cached_time) cache_ttl
      then Some cached_content
      else None
  | None => None
  end.

(** The whole method: what the caller gets (a string, or an exception that
    escaped), the cache afterwards, and the requests and pauses made. *)
Definition scrape_article (lib : library) (w : world) (url : pystr) (c : cache)
  : result pystr * cache * list event :=
  if negb (is_valid_url lib url) then (Ok invalid_url_message, c, [])
  else
    match encode url with
    | Raise e => (Raise e, c, [])
    | Ok encoded =>
        let url_hash := md5 lib encoded in
        match cache_hit w url_hash c with
        | Some cached_content => (Ok (cached_marker ++ cached_content), c, [])
        | None =>
            match scrape_fresh lib w url url_hash c with
            | (Ok (text, c'), events) => (Ok text, c', events)
            | (Raise e, events) => (Ok (handle_exception e), c, events)
            end
        end
    end.

(** * What the design document calls the MIME type

    The media type of a [Content-Type] value: what stands before the first
    [;], without surrounding whitespace, in lower case. *)
Definition spec_mime_type (header : pystr) : pystr :=
  strip (hd [] (split_on 59%N (lower header))).

(** * The events of a retried fetch

    [k] failed attempts, each followed by its pause, then one more request. *)
Definition retry_events (url : pystr) (k : nat) : list event :=
  flat_map (fun attempt => [EvGet url; EvSleep (2 ^ Z.of_nat attempt)]) (seq 0 k)
  ++ [EvGet url].

Definition requests_made (events : list event) : nat :=
  length (filter (fun e => match e with EvGet _ => true | EvSleep _ => false end) events).

(** * The outcomes the strategies hand to the selection

    Each strategy runs on the tree its predecessors left. *)
Fixpoint strategy_outcomes (strategies : list strategy) (soup : node)
  : list (result candidate) :=
  match strategies with
  | [] => []
  | strategy :: rest =>
      let '(outcome, soup) := strategy soup in
      outcome :: strategy_outcomes rest soup
  end.

Definition content_of (c : candidate) : pystr := fst (fst c).
Definition metadata_of (c : candidate) : option element_metadata := snd (fst c).
Definition score_of (c : candidate) : Q := snd c.

(** Inserting entries one after the other. *)
Definition cache_store_all (entries : list (pystr * cache_entry)) (c : cache) : cache :=
  fold_left (fun c kv => cache_store (fst kv) (snd kv) c) entries c.

(** * A reference instance of the library, for concrete runs

    [plain_urlparse] follows [urllib.parse.urlsplit] on URLs without
    brackets and control characters; [plain_markup_length] is the length of
    the markup of a tree whose tags have children or are not void and whose
    strings need no entity; [plain_metadata] reads the four fields that
    [scrape_article] uses; [example_md5] knows the digests of the URLs used
    below. *)

Definition is_ascii_letter (c : char) : bool :=
  (N.leb 65 c && N.leb c 90) || (N.leb 97 c && N.leb c 122).

Definition is_scheme_char (c : char) : bool :=
  is_ascii_letter c || (N.leb 48 c && N.leb c 57)
  || N.eqb c 43 || N.eqb c 45 || N.eqb c 46.

Definition plain_urlparse (url : pystr) : option (pystr * pystr) :=
  let i := span_len (fun c => negb (N.eqb c 58)) url in
  let '(scheme, rest) :=
    match url with
    | first :: _ =>
        if Nat.ltb i (length url) && is_ascii_letter first
           && forallb is_scheme_char (firstn i url)
        then (lower (firstn i url), skipn (S i) url)
        else ([], url)
    | [] => ([], url)
    end in
  let netloc :=
    if starts_with (py "//") rest
    then
      let after := skipn 2 rest in
      firstn (span_len (fun c => negb (N.eqb c 47 || N.eqb c 63 || N.eqb c 35)) after)
             after
    else [] in
  Some (scheme, netloc).

Fixpoint plain_markup_length (n : node) : nat :=
  match n with
  | Text s => length s
  | Tag _ name attrs cs =>
      1 + length name
      + list_sum (map (fun kv => 1 + length (fst kv) + 2 + length (snd kv) + 1) attrs)
      + 1
      + list_sum (map plain_markup_length cs)
      + 2 + length name + 1
  end.

Definition meta_content (attr_name attr_value : string) (soup : node) : option pystr :=
  match find (fun el => match get_attr (py attr_name) el with
                        | Some v => pystr_eqb v (py attr_value)
                        | None => false
                        end)
             (find_all [py "meta"] soup) with
  | Some tag =>
      match get_attr (py "content") tag with
      | Some (c :: v) => Some (strip (c :: v))
      | _ => None
      end
  | None => None
  end.

Definition plain_metadata (soup : node) : result page_metadata :=
  Ok {| meta_title :=
          match find_all [py "title"] soup with
          | title_tag :: _ => Some (strip (get_text title_tag))
          | [] => None
          end;
        meta_author := meta_content "name" "author" soup;
        meta_publish_date := meta_content "property" "article:published_time" soup;
        meta_description := meta_content "name" "description" soup |}.

Definition article_url : pystr := py "http://example.com/article".

(** The same host, the path one Kelvin sign (U+212A). *)
Definition kelvin_url : pystr := py "http://example.com/" ++ [8490%N].

Definition example_md5 (encoded : pystr) : pystr :=
  if pystr_eqb encoded article_url then py "333afc7b9fbff37554f9afc15d43ae42"
  else if pystr_eqb encoded kelvin_url then py "f950c588e8c04fd3e4658e03db2f560d"
  else encoded.

Definition reference_library : library :=
  {| urlparse := plain_urlparse;
     md5 := example_md5;
     markup_length := plain_markup_length;
     extract_comprehensive_metadata := plain_metadata |}.

(** ** Pages and worlds for the concrete runs *)

Definition document (children : list node) : node :=
  Tag 0 (py "[document]") [] children.

(** A block with its navigation bar inside. *)
Definition nav_page : node :=
  document
    [Tag 1 (py "div") []
       [Tag 2 (py "nav") [] [Text (py "Home page navigation menu. ")];
        Tag 3 (py "p") []
          [Text (py "The committee met on Tuesday and agreed on the new budget for the coming year, after a long and careful debate.")]]].

(** One block whose only text, 250 characters without punctuation, is a
    link of 30000 characters of address. *)
Definition link_page : node :=
  document
    [Tag 1 (py "div") []
       [Tag 2 (py "a") [(py "href", repeat 97%N (N.to_nat 30000))]
          [Text (repeat 120%N 250)]]].

Definition page_response (status : Z) (content_type : string) (page : node) : response :=
  {| status_code := status;
     content_type_header := Some (py content_type);
     content := Ok page |}.

(** A world whose every request is answered by [r], at time 0. *)
Definition world_of (r : result response) : world :=
  {| time_at_lookup := 0%Q;
     get_random_headers := Ok tt;
     session_get := fun _ => r;
     time_at_store := 0%Q |}.

Definition not_found_world : world :=
  world_of (Ok (page_response 404 "text/html" (document []))).

Definition link_page_world : world :=
  world_of (Ok (page_response 200 "text/html; charset=utf-8" link_page)).

Definition empty_page_world : world :=
  world_of (Ok (page_response 200 "text/html; charset=utf-8" (document []))).

Definition multipart_world : world :=
  world_of (Ok (page_response 200 "multipart/related; type=text/html" (document []))).

(** A server that refuses twice and then answers. *)
Definition flaky_world : world :=
  {| time_at_lookup := 0%Q;
     get_random_headers := Ok tt;
     session_get := fun attempt =>
       if Nat.ltb attempt 2
       then Ok (page_response 503 "text/html" (document []))
       else Ok (page_response 200 "text/html" (document []));
     time_at_store := 0%Q |}.

(** Fifty-one entries of distinct keys, written one per second. *)
Definition example_entries : list (pystr * cache_entry) :=
  map (fun i => ([N.of_nat i], (Qnat i, []))) (seq 0 51).

(** A cache that holds the article since time 0. *)
Definition article_cache : cache :=
  [(md5 reference_library article_url, (0%Q, py "The body of the article."))].

(** A world whose clock shows [now] and whose server answers [r]. *)
Definition world_at (now : Q) (r : result response) : world :=
  {| time_at_lookup := now;
     get_random_headers := Ok tt;
     session_get := fun _ => r;
     time_at_store := now |}.

(** A sequence of calls for one URL, each in its own world: the cache at
    the end. *)
Fixpoint scrape_all (lib : library) (ws : list world) (url : pystr) (c : cache)
  : cache :=
  match ws with
  | [] => c
  | w :: rest => scrape_all lib rest url (snd (fst (scrape_article lib w url c)))
  end.

(** * The selection rule, as a predicate

    [is_winner outcomes i c]: the [i]-th strategy returned [c], whose text is
    longer than 200 characters and whose score is positive; no returned
    candidate with a text longer than 200 scores higher, and those of earlier
    strategies score strictly lower. *)
Definition is_winner (outcomes : list (result candidate)) (i : nat) (c : candidate)
  : Prop :=
  nth_error outcomes i = Some (Ok c) /\
  200 < length (content_of c) /\
  (0 < score_of c)%Q /\
  forall j c',
    nth_error outcomes j = Some (Ok c') ->
    200 < length (content_of c') ->
    (score_of c' <= score_of c)%Q /\ (j < i -> (score_of c' < score_of c)%Q).

(** No candidate with a text longer than 200 has a positive score. *)
Definition no_winner (outcomes : list (result candidate)) : Prop :=
  forall c', In (Ok c') outcomes -> 200 < length (content_of c') ->
             (score_of c' <= 0)%Q.

(** The state of the loop after some outcomes. *)
Definition selected (outcomes : list (result candidate)) (state : selection) : Prop :=
  let '(content, score, metadata) := state in
  (exists i c, is_winner outcomes i c /\ content = content_of c
               /\ score = score_of c /\ metadata = metadata_of c)
  \/ (content = [] /\ score = 0%Q /\ metadata = None /\ no_winner outcomes).

(** * Predicates on trees *)

(** Induction on trees, with the hypothesis for every child. *)
Fixpoint node_ind (P : node -> Prop)
    (HText : forall s, P (Text s))
    (HTag : forall u name attrs cs, Forall P cs -> P (Tag u name attrs cs))
    (n : node) {struct n} : P n :=
  match n with
  | Text s => HText s
  | Tag u name attrs cs =>
      HTag u name attrs cs
        ((fix children (cs : list node) : Forall P cs :=
            match cs with
            | [] => Forall_nil P
            | c :: rest => Forall_cons c (node_ind HText HTag c) (children rest)
            end) cs)
  end.

(** No tag of that name below the root. *)
Definition no_tag_named (name : pystr) (soup : node) : Prop :=
  forall d, In d (descendants soup) -> tag_name d <> name.

(** * Further predicates on texts *)

(** The characters a normalised text may hold: those of the text, a line
    feed where the text holds a carriage return, a space where it holds a
    tab. *)
Definition known (text : pystr) (c : char) : Prop :=
  In c text \/ (c = LF /\ In CR text) \/ (c = SP /\ In TAB text).

(** * Dictionaries

    A [dict] as the list of its items in insertion order; [eqb] is the
    equality of keys. *)

Fixpoint dict_get (K V : Type) (eqb : K -> K -> bool) (key : K) (d : list (K * V))
  : option V :=
  match d with
  | [] => None
  | (k, v) :: rest => if eqb k key then Some v else dict_get eqb key rest
  end.

(** [d[key] = value]: a present key keeps its place, and its key object. *)
Fixpoint dict_set (K V : Type) (eqb : K -> K -> bool) (key : K) (value : V)
    (d : list (K * V)) : list (K * V) :=
  match d with
  | [] => [(key, value)]
  | (k, v) :: rest =>
      if eqb k key then (k, value) :: rest
      else (k, v) :: dict_set eqb key value rest
  end.

(** * Searching the tree *)

(** [soup.find(name)]: the first tag of that name, in document order. *)
Definition soup_find (name : pystr) (soup : node) : option node :=
  hd_error (find_all [name] soup).

(** The attribute [key] of [el] is the string [value]. *)
Definition attr_is (key value : pystr) (el : node) : bool :=
  match get_attr key el with
  | Some v => pystr_eqb v value
  | None => false
  end.

(** [soup.find(name, attrs={key: value})]. *)
Definition soup_find_attr (name key value : pystr) (soup : node) : option node :=
  find (attr_is key value) (find_all [name] soup).

(** [tag and tag.get(key)], when that is true: the value of the attribute. *)
Definition truthy_attr (tag : option node) (key : pystr) : option pystr :=
  match tag with
  | Some el =>
      match get_attr key el with
      | Some (c :: v) => Some (c :: v)
      | _ => None
      end
  | None => None
  end.

(** [tag.get(key, '')]. *)
Definition attr_or_empty (key : pystr) (el : node) : pystr :=
  value_of (get_attr key el).

(** [attrs={key: True}]: the attribute is present. *)
Definition has_attr (key : pystr) (el : node) : bool :=
  match get_attr key el with Some _ => true | None => false end.

(** [attrs={key: lambda x: x and x.startswith(prefix)}]. *)
Definition attr_starts_with (key prefix : pystr) (el : node) : bool :=
  match get_attr key el with
  | Some (c :: v) => starts_with prefix (c :: v)
  | _ => false
  end.

(** [s.replace(old, new)] for a non-empty [old]. *)
Definition m_literal (old : pystr) : matcher := fun s =>
  if starts_with old s then Some (length old) else None.

Definition str_replace (old new s : pystr) : pystr := re_sub (m_literal old) new s.

(** * [detect_content_language] *)

Definition detect_content_language (soup : node) : pystr :=
  match truthy_attr (soup_find (py "html") soup) (py "lang") with
  | Some lang => firstn 2 lang
  | None =>
      match truthy_attr
              (soup_find_attr (py "meta") (py "http-equiv") (py "content-language") soup)
              (py "content") with
      | Some content => firstn 2 content
      | None =>
          match truthy_attr
                  (soup_find_attr (py "meta") (py "property") (py "og:locale") soup)
                  (py "content") with
          | Some content => firstn 2 content
          | None => py "en"
          end
      end
  end.

(** * [extract_structured_data]

    What [json.loads] returns: [None], booleans, numbers, strings, lists and
    dictionaries whose keys are strings (the members of an object, in order,
    each key once).  The parser itself is taken as given. *)

Inductive number : Type :=
| Finite (q : Q)
| Infinity (negative : bool)
| NaN.

Unset Elimination Schemes.

Inductive json : Type :=
| JNull
| JBool (b : bool)
| JNumber (n : number)
| JString (s : pystr)
| JArray (items : list json)
| JObject (members : list (pystr * json)).

Set Elimination Schemes.

(** The dictionary [structured_data]: its keys are the values that can be
    hashed. *)
Definition pydict : Type := list (json * json).

Definition hashable (k : json) : bool :=
  match k with
  | JArray _ | JObject _ => false
  | _ => true
  end.

Definition number_eqb (a b : number) : bool :=
  match a, b with
  | Finite p, Finite q => Qeq_bool p q
  | Infinity s, Infinity t => Bool.eqb s t
  | NaN, NaN => true
  | _, _ => false
  end.

(** A boolean is the number 1 or 0. *)
Definition as_number (k : json) : option number :=
  match k with
  | JBool b => Some (Finite (if b then 1 else 0))
  | JNumber n => Some n
  | _ => None
  end.

(** Equality of keys in a [dict].  The one not-a-number that [json.loads]
    returns is found again by its identity. *)
Definition key_eqb (a b : json) : bool :=
  match a, b with
  | JNull, JNull => true
  | JString s, JString t => pystr_eqb s t
  | _, _ =>
      match as_number a, as_number b with
      | Some m, Some n => number_eqb m n
      | _, _ => false
      end
  end.

(** [d.update(mapping)]. *)
Definition update_mapping (members : list (pystr * json)) (d : pydict) : pydict :=
  fold_left (fun d kv => dict_set key_eqb (JString (fst kv)) (snd kv) d) members d.

(** An element of the sequence given to [d.update], read as a pair: a list
    of two, a string of two characters, or a dictionary of two keys. *)
Definition pair_of (item : json) : option (json * json) :=
  match item with
  | JArray [k; v] => Some (k, v)
  | JString [a; b] => Some (JString [a], JString [b])
  | JObject [(k1, _); (k2, _)] => Some (JString k1, JString k2)
  | _ => None
  end.

(** [d.update(sequence)]: the pairs are written one by one; the first element
    that is no pair, or whose key cannot be hashed, raises, and what was
    written before it stays. *)
Fixpoint update_pairs (items : list json) (d : pydict) : pydict :=
  match items with
  | [] => d
  | item :: rest =>
      match pair_of item with
      | Some (k, v) =>
          if hashable k then update_pairs rest (dict_set key_eqb k v d) else d
      | None => d
      end
  end.

(** [d.update(arg)] inside [try: ... except: continue]: the dictionary
    afterwards, whether the call raised or not. *)
Definition dict_update (arg : json) (d : pydict) : pydict :=
  match arg with
  | JObject members => update_mapping members d
  | JArray items => update_pairs items d
  | _ => d
  end.

(** [tag.string]: the string of the only child. *)
Fixpoint tag_string (n : node) : option pystr :=
  match n with
  | Text s => Some s
  | Tag _ _ _ cs =>
      match cs with
      | [c] => tag_string c
      | _ => None
      end
  end.

(** The body of the loop over the JSON-LD scripts.  [json.loads(None)]
    raises. *)
Definition json_ld_step (json_loads : pystr -> option json) (structured_data : pydict)
    (script : node) : pydict :=
  match tag_string script with
  | None => structured_data
  | Some text =>
      match json_loads text with
      | Some (JObject members) => dict_update (JObject members) structured_data
      | Some (JArray (first :: _)) => dict_update first structured_data
      | _ => structured_data
      end
  end.

(** The body of the loop over the microdata items. *)
Definition microdata_step (structured_data : pydict) (item : node) : pydict :=
  let item_type := attr_or_empty (py "itemtype") item in
  if contains (py "Article") item_type then
    let properties := filter (has_attr (py "itemprop")) (descendants item) in
    fold_left
      (fun structured_data prop =>
         let prop_name := get_attr (py "itemprop") prop in
         let prop_value := strip (get_text prop) in
         if truthy prop_name && negb (is_empty prop_value)
         then dict_set key_eqb (JString (value_of prop_name)) (JString prop_value)
                       structured_data
         else structured_data)
      properties structured_data
  else structured_data.

Definition extract_structured_data (json_loads : pystr -> option json) (soup : node)
  : pydict :=
  let structured_data := [] in
  let json_scripts :=
    filter (attr_is (py "type") (py "application/ld+json"))
           (find_all [py "script"] soup) in
  let structured_data := fold_left (json_ld_step json_loads) json_scripts structured_data in
  let microdata_items := filter (has_attr (py "itemtype")) (descendants soup) in
  fold_left microdata_step microdata_items structured_data.

(** * [extract_comprehensive_metadata]

    The dictionary [metadata]: strings, and the dictionary of structured
    data. *)

Inductive meta_value : Type :=
| MetaStr (s : pystr)
| MetaDict (d : pydict).

Definition metadata_dict : Type := list (pystr * meta_value).

(** The dictionary [meta_tags]: the key, and the attribute of the [meta] tag
    searched for. *)
Definition meta_tags : list (pystr * (pystr * pystr)) :=
  [ (py "description", (py "name", py "description"));
    (py "keywords", (py "name", py "keywords"));
    (py "author", (py "name", py "author"));
    (py "publish_date", (py "property", py "article:published_time"));
    (py "modified_date", (py "property", py "article:modified_time")) ].

(** The loops over the Open Graph and the Twitter Card tags: [key] is
    [property] or [name], [prefix] is [og:] or [twitter:], [label] is [og_] or
    [twitter_]. *)
Definition prefixed_tags_step (key prefix label : pystr) (metadata : metadata_dict)
    (tag : node) : metadata_dict :=
  let prop := str_replace prefix [] (attr_or_empty key tag) in
  let content := strip (attr_or_empty (py "content") tag) in
  if negb (is_empty prop) && negb (is_empty content)
  then dict_set pystr_eqb (label ++ prop) (MetaStr content) metadata
  else metadata.

Module PageMetadata.

Definition extract_comprehensive_metadata (json_loads : pystr -> option json)
    (soup : node) : metadata_dict :=
  let metadata := [] in
  let metadata :=
    match soup_find (py "title") soup with
    | Some title_tag =>
        dict_set pystr_eqb (py "title") (MetaStr (strip (get_text title_tag))) metadata
    | None => metadata
    end in
  let metadata :=
    fold_left
      (fun metadata entry =>
         let '(key, (attr, value)) := entry in
         match truthy_attr (soup_find_attr (py "meta") attr value soup) (py "content") with
         | Some content => dict_set pystr_eqb key (MetaStr (strip content)) metadata
         | None => metadata
         end)
      meta_tags metadata in
  let og_tags :=
    filter (attr_starts_with (py "property") (py "og:")) (find_all [py "meta"] soup) in
  let metadata :=
    fold_left (prefixed_tags_step (py "property") (py "og:") (py "og_")) og_tags metadata in
  let twitter_tags :=
    filter (attr_starts_with (py "name") (py "twitter:")) (find_all [py "meta"] soup) in
  let metadata :=
    fold_left (prefixed_tags_step (py "name") (py "twitter:") (py "twitter_"))
              twitter_tags metadata in
  let metadata :=
    dict_set pystr_eqb (py "language") (MetaStr (detect_content_language soup)) metadata in
  let structured_data := extract_structured_data json_loads soup in
  match structured_data with
  | [] => metadata
  | _ => dict_set pystr_eqb (py "structured_data") (MetaDict structured_data) metadata
  end.

End PageMetadata.

(** [metadata.get(key)] for a key that holds a string. *)
Definition meta_str (key : pystr) (metadata : metadata_dict) : option pystr :=
  match dict_get pystr_eqb key metadata with
  | Some (MetaStr s) => Some s
  | _ => None
  end.

(** What [scrape_article] reads of the dictionary. *)
Definition page_metadata_of (metadata : metadata_dict) : page_metadata :=
  {| meta_title := meta_str (py "title") metadata;
     meta_author := meta_str (py "author") metadata;
     meta_publish_date := meta_str (py "publish_date") metadata;
     meta_description := meta_str (py "description") metadata |}.

(** The library whose metadata extractor is the method of the class. *)
Definition with_source_metadata (json_loads : pystr -> option json) (lib : library)
  : library :=
  {| urlparse := urlparse lib;
     md5 := md5 lib;
     markup_length := markup_length lib;
     extract_comprehensive_metadata := fun soup =>
       Ok (page_metadata_of (PageMetadata.extract_comprehensive_metadata json_loads soup)) |}.

(** * Further predicates on trees *)

Definition tag_attrs (n : node) : list (pystr * pystr) :=
  match n with Tag _ _ attrs _ => attrs | Text _ => [] end.

(** [d'] is the element [d], perhaps with other contents: the same object,
    name and attributes. *)
Definition same_element (d' d : node) : Prop :=
  tag_uid d' = tag_uid d /\ tag_name d' = tag_name d /\ tag_attrs d' = tag_attrs d.

(** No element below the root matches the compound selector. *)
Definition none_matches (c : compound) (soup : node) : Prop :=
  forall d, In d (descendants soup) -> matches_compound c d = false.

(** An item of the structured data that came from microdata: a property
    name and a text, both strings and not empty, the text stripped. *)
Definition microdata_item (kv : json * json) : Prop :=
  (exists name, fst kv = JString name /\ name <> []) /\
  (exists text, snd kv = JString text /\ text <> [] /\ strip text = text).

(** An item of the page metadata: a basic field with a stripped string, the
    language code, the dictionary of structured data, which is not empty,
    or an Open Graph or Twitter Card field, whose name and string are not
    empty and whose string is stripped. *)
Definition metadata_entry (kv : pystr * meta_value) : Prop :=
  ((fst kv = py "title" \/ In (fst kv) (map fst meta_tags))
   /\ exists s, snd kv = MetaStr s /\ strip s = s)
  \/ (fst kv = py "language"
      /\ exists s, snd kv = MetaStr s /\ 1 <= length s <= 2)
  \/ (fst kv = py "structured_data"
      /\ exists d, snd kv = MetaDict d /\ d <> [])
  \/ ((exists p, p <> [] /\ (fst kv = py "og_" ++ p \/ fst kv = py "twitter_" ++ p))
      /\ exists s, snd kv = MetaStr s /\ s <> [] /\ strip s = s).

(** A dictionary of such items, each key once. *)
Definition well_formed_metadata (metadata : metadata_dict) : Prop :=
  Forall metadata_entry metadata /\ NoDup (map fst metadata).

(** * The choice of the semantic strategy *)

(** The elements the loops of [_extract_semantic_content] score, in the
    order in which they score them, each with its total score. *)
Definition semantic_matches (soup : node) : list (node * Z) :=
  flat_map
    (fun entry =>
       map (fun element =>
              (element, (snd entry + score_content_quality element)%Z))
           (select (fst entry) soup))
    semantic_selectors.

(** [first_best scored i x s]: the [i]-th scored element is [x], with score
    [s]; no element scores higher and the earlier ones score lower. *)
Definition first_best (A : Type) (scored : list (A * Z)) (i : nat) (x : A) (s : Z)
  : Prop :=
  nth_error scored i = Some (x, s) /\
  forall j y t, nth_error scored j = Some (y, t) ->
                (t <= s)%Z /\ (j < i -> (t < s)%Z).

(** A sentence mark: [.], [!] or [?]. *)
Definition is_sentence_mark (c : char) : bool :=
  N.eqb c DOT || N.eqb c BANG || N.eqb c QMARK.

(** * [get_site_info]

    What [session.head] returns: the status code, the final URL, the
    headers ([response.headers.get(key)]) and the number of redirections
    ([len(response.history)]). *)

Record head_response : Type := {
  head_status_code : Z;
  head_url : pystr;
  head_header : pystr -> option pystr;
  head_history : nat
}.

(** What one call of [get_site_info] reads from outside: the outcome of
    [get_random_headers], the outcome of [session.head], and [str(e)] for
    the exceptions that carry no message of their own here. *)
Record head_world : Type := {
  head_random_headers : result unit;
  session_head : result head_response;
  describe : exn -> pystr
}.

(** [str(e)]. *)
Definition str_of_exn (describe : exn -> pystr) (e : exn) : pystr :=
  match e with
  | RequestException msg => msg
  | OtherException msg => msg
  | _ => describe e
  end.

Inductive info_value : Type :=
| InfoInt (n : Z)
| InfoStr (s : pystr)
| InfoBool (b : bool).

Definition site_info : Type := list (pystr * info_value).

(** [response.headers.get(key, 'unknown')]. *)
Definition header_or_unknown (response : head_response) (key : string) : info_value :=
  match head_header response (py key) with
  | Some v => InfoStr v
  | None => InfoStr (py "unknown")
  end.

(** The dictionary returned, and the URLs of the [HEAD] requests made. *)
Definition get_site_info (lib : library) (w : head_world) (url : pystr)
  : site_info * list pystr :=
  if negb (is_valid_url lib url)
  then ([(py "error", InfoStr (py "Invalid URL format"))], [])
  else
    match head_random_headers w with
    | Raise e => ([(py "error", InfoStr (str_of_exn (describe w) e))], [])
    | Ok _ =>
        match session_head w with
        | Raise e => ([(py "error", InfoStr (str_of_exn (describe w) e))], [url])
        | Ok response =>
            let info :=
              [ (py "status_code", InfoInt (head_status_code response));
                (py "final_url", InfoStr (head_url response));
                (py "content_type", header_or_unknown response "content-type");
                (py "content_length", header_or_unknown response "content-length");
                (py "server", header_or_unknown response "server");
                (py "last_modified", header_or_unknown response "last-modified");
                (py "cache_control", header_or_unknown response "cache-control") ] in
            let info :=
              if negb (pystr_eqb (head_url response) url)
              then
                let info := dict_set pystr_eqb (py "redirected") (InfoBool true) info in
                dict_set pystr_eqb (py "redirect_count")
                         (InfoInt (Z.of_nat (head_history response))) info
              else info in
            (info, [url])
        end
    end.

Definition site_info_keys : list pystr :=
  [py "status_code"; py "final_url"; py "content_type"; py "content_length";
   py "server"; py "last_modified"; py "cache_control"].

(** * [clear_cache] *)

Definition clear_cache (c : cache) : cache := [].

(** * The scraper dialog: [WebScraperDialog] of [ui.py] *)

Module WebScraperDialog.

(** What [perform_scraping] shows: the text set in the article field, or
    the box for an exception. *)
Inductive shown : Type :=
| ArticleText (text : pystr)
| CriticalBox (message : pystr).

(** [perform_scraping]: a new [WebScraper], whose cache is empty, scrapes
    the URL.  [new_scraper] is the outcome of the constructor. *)
Definition perform_scraping (lib : library) (new_scraper : result unit)
    (describe : exn -> pystr) (w : world) (url : pystr) : shown * list event :=
  match new_scraper with
  | Raise e => (CriticalBox (py "Scraping failed: " ++ str_of_exn describe e), [])
  | Ok _ =>
      match scrape_article lib w url [] with
      | (Ok article_text, _, events) => (ArticleText article_text, events)
      | (Raise e, _, events) =>
          (CriticalBox (py "Scraping failed: " ++ str_of_exn describe e), events)
      end
  end.

(** What a click on the scrape button leads to: a warning box, or a call of
    [perform_scraping] with the URL. *)
Inductive click : Type :=
| Warning (message : pystr)
| Scraping (url : pystr).

(** The method [scrape_article] of the dialog, given the text of the URL
    field. *)
Definition scrape_article (typed : pystr) : click :=
  let url := strip typed in
  if is_empty url then Warning (py "Please enter a URL.") else Scraping url.

(** The test of [analyze_sentiment] and [analyze_spam] on the text of the
    article field. *)
Definition may_analyze (article_text : pystr) : bool :=
  negb (is_empty article_text)
  && negb (starts_with (py "Error") article_text)
  && negb (starts_with (py "Invalid") article_text).

End WebScraperDialog.

(** ** A page for the concrete runs of the dialog

    An article whose text starts with the word [Error]. *)
Definition error_page : node :=
  document
    [Tag 1 (py "article") []
       [Text (py "Error codes of the protocol and what they mean for the reader: " ++ repeat 120%N 200)]].

Definition error_page_world : world :=
  world_of (Ok (page_response 200 "text/html" error_page)).

(** * Part II: properties *)

(** * Properties of the text normaliser *)

(** ** Substitution: unfolding and induction *)

Lemma re_sub_from_skip (m : matcher) (repl : pystr) :
  forall s k, re_sub_from k m repl s = re_sub m repl (skipn k s).
Proof.
  induction s as [|c rest IH]; intros k.
  - now destruct k.
  - destruct k as [|k]; [reflexivity|]. simpl. apply IH.
Qed.

Lemma re_sub_cons (m : matcher) (repl : pystr) (c : char) (rest : pystr) :
  re_sub m repl (c :: rest) =
  match m (c :: rest) with
  | Some (S len) => repl ++ re_sub m repl (skipn len rest)
  | _ => c :: re_sub m repl rest
  end.
Proof.
  unfold re_sub at 1. simpl.
  destruct (m (c :: rest)) as [[|len]|]; try reflexivity.
  now rewrite re_sub_from_skip.
Qed.

Lemma length_skipn_le (A : Type) (k : nat) (l : list A) :
  length (skipn k l) <= length l.
Proof. rewrite length_skipn. lia. Qed.

(** Induction following the matches of [re_sub]. *)
Lemma re_sub_ind (m : matcher) (repl : pystr) (R : pystr -> pystr -> Prop) :
  R [] [] ->
  (forall c rest len,
      m (c :: rest) = Some (S len) ->
      R (skipn len rest) (re_sub m repl (skipn len rest)) ->
      R (c :: rest) (repl ++ re_sub m repl (skipn len rest))) ->
  (forall c rest,
      m (c :: rest) = None \/ m (c :: rest) = Some 0 ->
      R rest (re_sub m repl rest) ->
      R (c :: rest) (c :: re_sub m repl rest)) ->
  forall s, R s (re_sub m repl s).
Proof.
  intros Hnil Hmatch Hcopy s.
  remember (length s) as n eqn:Hn.
  assert (Hle : length s <= n) by lia. clear Hn.
  revert s Hle. induction n as [|n IH]; intros s Hle.
  - destruct s; [exact Hnil | simpl in Hle; lia].
  - destruct s as [|c rest]; [exact Hnil|].
    simpl in Hle. rewrite re_sub_cons.
    destruct (m (c :: rest)) as [[|len]|] eqn:Hm.
    + apply Hcopy; [now right | apply IH; lia].
    + apply Hmatch; [exact Hm|]. apply IH.
      pose proof (length_skipn_le len rest). lia.
    + apply Hcopy; [now left | apply IH; lia].
Qed.

Lemma on_suffixes_cons (P : pystr -> Prop) (c : char) (s : pystr) :
  on_suffixes P (c :: s) <-> P (c :: s) /\ on_suffixes P s.
Proof.
  split.
  - intros H. split; [exact (H 0) | intros k; exact (H (S k))].
  - intros [H0 H] [|k]; [exact H0 | exact (H k)].
Qed.

Lemma on_suffixes_nil (P : pystr -> Prop) : on_suffixes P [] <-> P [].
Proof.
  split; [intros H; exact (H 0) | intros H k; now rewrite skipn_nil].
Qed.

Lemma on_suffixes_skipn (P : pystr -> Prop) (k : nat) (s : pystr) :
  on_suffixes P s -> on_suffixes P (skipn k s).
Proof. intros H j. rewrite skipn_skipn. apply H. Qed.

Lemma on_suffixes_app (P : pystr -> Prop) (a b : pystr) :
  (forall k, k < length a -> P (skipn k a ++ b)) ->
  on_suffixes P b -> on_suffixes P (a ++ b).
Proof.
  intros Ha Hb k. rewrite skipn_app.
  destruct (Nat.lt_ge_cases k (length a)) as [Hlt|Hge].
  - replace (k - length a) with 0 by lia. simpl. now apply Ha.
  - rewrite (skipn_all2 a) by lia. simpl. apply Hb.
Qed.

Lemma re_sub_id (m : matcher) (repl : pystr) (s : pystr) :
  on_suffixes (fixes_match m repl) s -> re_sub m repl s = s.
Proof.
  pattern s, (re_sub m repl s). apply re_sub_ind; clear s.
  - reflexivity.
  - intros c rest len Hm IH H.
    rewrite IH by (apply (on_suffixes_skipn (S len)) in H; exact H).
    specialize (H 0). unfold fixes_match in H. simpl skipn in H.
    rewrite Hm in H. rewrite <- H.
    change (skipn len rest) with (skipn (S len) (c :: rest)).
    apply firstn_skipn.
  - intros c rest _ IH H. apply on_suffixes_cons in H. f_equal. now apply IH.
Qed.

(** Characters of the result come from the text or from the replacement. *)
Lemma re_sub_Forall (P : char -> Prop) (m : matcher) (repl : pystr) (s : pystr) :
  Forall P repl -> Forall P s -> Forall P (re_sub m repl s).
Proof.
  intros Hrepl. pattern s, (re_sub m repl s). apply re_sub_ind; clear s.
  - intros _. constructor.
  - intros c rest len _ IH H. apply Forall_app. split; [exact Hrepl|].
    apply IH. apply Forall_forall. intros x Hx.
    rewrite Forall_forall in H. apply H. right.
    rewrite <- (firstn_skipn len rest). apply in_or_app. now right.
  - intros c rest _ IH H. inversion H; subst. constructor; auto.
Qed.

(** A pattern that matches at every character [x] leaves no [x] behind. *)
Lemma re_sub_removes (x : char) (m : matcher) (repl : pystr) (s : pystr) :
  (forall rest, exists len, m (x :: rest) = Some (S len)) ->
  Forall (fun c => c <> x) repl ->
  Forall (fun c => c <> x) (re_sub m repl s).
Proof.
  intros Hm Hrepl. pattern s, (re_sub m repl s). apply re_sub_ind; clear s.
  - constructor.
  - intros c rest len _ IH. apply Forall_app. now split.
  - intros c rest Hno IH. constructor; [|exact IH].
    intros ->. destruct (Hm rest) as [len Hlen].
    destruct Hno as [Hno|Hno]; rewrite Hlen in Hno; discriminate.
Qed.

(** ** Runs of one character *)

Lemma is_char_refl (x : char) : is_char x x = true.
Proof. apply N.eqb_refl. Qed.

Lemma is_char_neq (x c : char) : c <> x -> is_char x c = false.
Proof. intros H. now apply N.eqb_neq. Qed.

Lemma span_len_repeat_app (x : char) (j : nat) (t : pystr) :
  span_len (is_char x) (repeat x j ++ t) = j + span_len (is_char x) t.
Proof.
  induction j as [|j IH]; [reflexivity|].
  simpl. now rewrite is_char_refl, IH.
Qed.

Lemma span_len_skipn_self (p : char -> bool) (s : pystr) :
  span_len p (skipn (span_len p s) s) = 0.
Proof.
  induction s as [|c rest IH]; [reflexivity|].
  simpl. destruct (p c) eqn:Hp; simpl; [exact IH | now rewrite Hp].
Qed.

Lemma span_len_le_length (p : char -> bool) (s : pystr) :
  span_len p s <= length s.
Proof.
  induction s as [|c rest IH]; simpl; [lia|]. destruct (p c); simpl; lia.
Qed.

Lemma firstn_span_run (x : char) (s : pystr) :
  firstn (span_len (is_char x) s) s = repeat x (span_len (is_char x) s).
Proof.
  induction s as [|c rest IH]; [reflexivity|].
  simpl. destruct (is_char x c) eqn:Hc; [|reflexivity].
  apply N.eqb_eq in Hc. subst c. simpl. now rewrite IH.
Qed.

Lemma span_len_firstn (p : char -> bool) (n : nat) (s : pystr) :
  span_len p (firstn n s) <= span_len p s.
Proof.
  revert n. induction s as [|c rest IH]; intros [|n]; simpl; try lia.
  destruct (p c); [specialize (IH n); lia | lia].
Qed.

Lemma span_len_app_stop (p : char -> bool) (a : pystr) (c : char) (b : pystr) :
  p c = false -> span_len p (a ++ c :: b) = span_len p a.
Proof.
  intros Hc. induction a as [|d a IH]; simpl; [now rewrite Hc|].
  destruct (p d); [now rewrite IH | reflexivity].
Qed.

(** Any substitution whose replacement is not empty and holds no [x] keeps
    runs of [x] as short as they were. *)
Lemma re_sub_keeps_runs (x : char) (b : nat) (m : matcher) (repl s : pystr) :
  repl <> [] -> Forall (fun c => c <> x) repl ->
  on_suffixes (span_le x b) s -> on_suffixes (span_le x b) (re_sub m repl s).
Proof.
  intros Hne Hrepl.
  assert (Hhead : forall k t, k < length repl ->
                    span_len (is_char x) (skipn k repl ++ t) = 0).
  { intros k t Hk. destruct (skipn k repl) as [|r rs] eqn:Hs.
    - apply (f_equal (@length _)) in Hs. rewrite length_skipn in Hs.
      simpl in Hs. lia.
    - simpl. rewrite is_char_neq; [reflexivity|].
      rewrite Forall_forall in Hrepl. apply Hrepl.
      rewrite <- (firstn_skipn k repl). apply in_or_app. right.
      rewrite Hs. now left. }
  enough (H : span_len (is_char x) (re_sub m repl s) <= span_len (is_char x) s
              /\ (on_suffixes (span_le x b) s ->
                  on_suffixes (span_le x b) (re_sub m repl s))) by apply H.
  pattern s, (re_sub m repl s). apply re_sub_ind; clear s.
  - split; [lia | auto].
  - intros c rest len _ [_ IH]. split.
    + rewrite (Hhead 0 _); [lia|]. destruct repl; [congruence | simpl; lia].
    + intros H. apply on_suffixes_app.
      * intros k Hk. unfold span_le. rewrite Hhead by exact Hk. lia.
      * apply IH. exact (on_suffixes_skipn (S len) H).
  - intros c rest _ [IHle IH].
    assert (Hle : span_len (is_char x) (c :: re_sub m repl rest)
                  <= span_len (is_char x) (c :: rest)).
    { simpl. destruct (is_char x c); lia. }
    split; [exact Hle|]. intros H. apply on_suffixes_cons in H as [H0 H].
    apply on_suffixes_cons. split; [unfold span_le in *; lia | now apply IH].
Qed.

(** Replacing the runs of at least [k] characters [x] by [j] of them leaves
    runs of at most [b]. *)
Lemma re_sub_caps_runs (x : char) (k j b : nat) (s : pystr) :
  0 < k -> j <= k -> j <= b -> k <= S b ->
  on_suffixes (span_le x b) (re_sub (m_run x k) (repeat x j) s).
Proof.
  intros Hk Hjk Hjb Hkb.
  enough (H : span_len (is_char x) (re_sub (m_run x k) (repeat x j) s)
              <= span_len (is_char x) s
              /\ on_suffixes (span_le x b) (re_sub (m_run x k) (repeat x j) s))
    by apply H.
  pattern s, (re_sub (m_run x k) (repeat x j) s). apply re_sub_ind; clear s.
  - split; [simpl; lia | intros i; rewrite skipn_nil; unfold span_le; simpl; lia].
  - intros c rest len Hm [IHle IH].
    unfold m_run in Hm.
    destruct (Nat.leb k (span_len (is_char x) (c :: rest))) eqn:Hleb;
      [|discriminate].
    apply Nat.leb_le in Hleb.
    assert (Hs : span_len (is_char x) (c :: rest) = S len) by congruence.
    clear Hm.
    assert (Hz : span_len (is_char x) (re_sub (m_run x k) (repeat x j) (skipn len rest)) = 0).
    { pose proof (span_len_skipn_self (is_char x) (c :: rest)) as Hself.
      rewrite Hs in Hself. simpl skipn in Hself. lia. }
    split.
    + rewrite span_len_repeat_app, Hz. lia.
    + apply on_suffixes_app; [|exact IH].
      intros i Hi. rewrite repeat_length in Hi. unfold span_le.
      replace (skipn i (repeat x j)) with (repeat x (j - i)).
      * rewrite span_len_repeat_app, Hz. lia.
      * clear - Hi. revert i Hi. induction j as [|j IHj]; intros i Hi; [lia|].
        destruct i as [|i]; [reflexivity|].
        simpl. apply IHj. lia.
  - intros c rest Hno [IHle IH].
    assert (Hlt : span_len (is_char x) (c :: rest) < k).
    { unfold m_run in Hno.
      destruct (Nat.leb k (span_len (is_char x) (c :: rest))) eqn:Hleb.
      - apply Nat.leb_le in Hleb.
        destruct Hno as [Hno|Hno]; [discriminate|].
        assert (span_len (is_char x) (c :: rest) = 0) by congruence. lia.
      - now apply Nat.leb_gt in Hleb. }
    assert (Hle : span_len (is_char x) (c :: re_sub (m_run x k) (repeat x j) rest)
                  <= span_len (is_char x) (c :: rest)).
    { simpl. destruct (is_char x c); lia. }
    split; [exact Hle|].
    apply on_suffixes_cons. split; [unfold span_le; lia | exact IH].
Qed.

(** On a text whose runs are short enough the run substitution is void. *)
Lemma fixes_match_run (x : char) (k j b : nat) (t : pystr) :
  b < k \/ (k = b /\ j = b) ->
  span_le x b t -> fixes_match (m_run x k) (repeat x j) t.
Proof.
  intros Hb Ht. unfold fixes_match, m_run, span_le in *.
  destruct (Nat.leb k (span_len (is_char x) t)) eqn:Hleb; [|exact I].
  apply Nat.leb_le in Hleb.
  destruct (span_len (is_char x) t) as [|len] eqn:Hs; [exact I|].
  rewrite <- Hs, firstn_span_run.
  f_equal. lia.
Qed.

(** ** What the substitutions establish *)

Ltac other_chars := repeat constructor; discriminate.

Lemma substitutions_tidy (text : pystr) : tidy (substitutions text).
Proof.
  unfold substitutions, tidy. cbv zeta. repeat split.
  - do 7 (apply re_sub_Forall; [other_chars|]).
    apply re_sub_removes; [|other_chars].
    intros [|d rest]; simpl; [now exists 0|].
    destruct (N.eqb d LF); [now exists 1 | now exists 0].
  - do 6 (apply re_sub_Forall; [other_chars|]).
    apply re_sub_removes; [|other_chars].
    intros rest. now exists 0.
  - do 5 (apply re_sub_keeps_runs; [discriminate | other_chars |]).
    apply (re_sub_caps_runs SP (k:=2) (j:=1) (b:=1)); lia.
  - do 2 (apply re_sub_keeps_runs; [discriminate | other_chars |]).
    apply (re_sub_caps_runs BANG (k:=3) (j:=3) (b:=3)); lia.
  - apply re_sub_keeps_runs; [discriminate | other_chars |].
    apply (re_sub_caps_runs QMARK (k:=3) (j:=3) (b:=3)); lia.
  - apply (re_sub_caps_runs DOT (k:=4) (j:=3) (b:=3)); lia.
Qed.

Lemma Forall_firstn_keep (A : Type) (P : A -> Prop) (n : nat) (l : list A) :
  Forall P l -> Forall P (firstn n l).
Proof.
  intros H. apply Forall_forall. intros x Hx. rewrite Forall_forall in H.
  apply H. rewrite <- (firstn_skipn n l). apply in_or_app. now left.
Qed.

Lemma Forall_skipn_keep (A : Type) (P : A -> Prop) (n : nat) (l : list A) :
  Forall P l -> Forall P (skipn n l).
Proof.
  intros H. apply Forall_forall. intros x Hx. rewrite Forall_forall in H.
  apply H. rewrite <- (firstn_skipn n l). apply in_or_app. now right.
Qed.

Lemma skipn_firstn_swap (A : Type) (k n : nat) (l : list A) :
  skipn k (firstn n l) = firstn (n - k) (skipn k l).
Proof.
  revert k n. induction l as [|a l IH]; intros k n.
  - now rewrite firstn_nil, skipn_nil, firstn_nil.
  - destruct n as [|n]; destruct k as [|k]; simpl; try reflexivity.
    apply IH.
Qed.

Lemma span_le_firstn (x : char) (b n : nat) (s : pystr) :
  on_suffixes (span_le x b) s -> on_suffixes (span_le x b) (firstn n s).
Proof.
  intros H k. rewrite skipn_firstn_swap. unfold span_le.
  pose proof (span_len_firstn (is_char x) (n - k) (skipn k s)).
  specialize (H k). unfold span_le in H. lia.
Qed.

Lemma tidy_firstn (n : nat) (s : pystr) : tidy s -> tidy (firstn n s).
Proof.
  intros (H1 & H2 & H3 & H4 & H5 & H6).
  repeat split; auto using Forall_firstn_keep, span_le_firstn.
Qed.

Lemma tidy_skipn (n : nat) (s : pystr) : tidy s -> tidy (skipn n s).
Proof.
  intros (H1 & H2 & H3 & H4 & H5 & H6).
  repeat split; auto using Forall_skipn_keep, on_suffixes_skipn.
Qed.

(** ** Lines *)

Lemma split_on_head (d : char) (s : pystr) :
  exists l ls, split_on d s = l :: ls /\ l = firstn (length l) s.
Proof.
  induction s as [|c rest (l & ls & Heq & Hl)]; simpl.
  - now exists [], [].
  - destruct (N.eqb c d).
    + now exists [], (split_on d rest).
    + rewrite Heq. exists (c :: l), ls. split; [reflexivity|].
      simpl. now rewrite <- Hl.
Qed.

Lemma split_on_pieces (d : char) (s : pystr) :
  Forall (fun l => exists a b, l = firstn a (skipn b s)) (split_on d s).
Proof.
  induction s as [|c rest IH]; simpl.
  - constructor; [now exists 0, 0 | constructor].
  - assert (Hshift : Forall (fun l => exists a b, l = firstn a (skipn b (c :: rest)))
                       (split_on d rest)).
    { eapply Forall_impl; [|exact IH].
      intros l (a & b & Hl). now exists a, (S b). }
    destruct (N.eqb c d).
    + constructor; [now exists 0, 0 | exact Hshift].
    + destruct (split_on_head d rest) as (l & ls & Heq & Hl).
      rewrite Heq in *. inversion Hshift; subst.
      constructor; [|assumption].
      exists (S (length l)), 0. simpl. now rewrite <- Hl.
Qed.

Lemma split_on_no_sep (d : char) (s : pystr) :
  Forall (Forall (fun c => c <> d)) (split_on d s).
Proof.
  induction s as [|c rest IH]; simpl.
  - repeat constructor.
  - destruct (N.eqb c d) eqn:Hc.
    + constructor; [constructor | exact IH].
    + destruct (split_on d rest) as [|l ls].
      * repeat constructor. now apply N.eqb_neq.
      * inversion IH; subst. constructor; [|assumption].
        constructor; [now apply N.eqb_neq | assumption].
Qed.

(** ** Stripping *)

Section Drop.
Context (A : Type) (p : A -> bool).

Lemma ldrop_snoc (t : list A) (c : A) :
  ldrop p (t ++ [c]) =
  match ldrop p t with
  | [] => if p c then [] else [c]
  | _ => ldrop p t ++ [c]
  end.
Proof.
  induction t as [|d t IH]; simpl.
  - now destruct (p c).
  - destruct (p d); [exact IH | reflexivity].
Qed.

Lemma rdrop_cons (c : A) (r : list A) :
  rdrop p (c :: r) =
  match rdrop p r with
  | [] => if p c then [] else [c]
  | _ => c :: rdrop p r
  end.
Proof.
  unfold rdrop. simpl rev at 1. rewrite ldrop_snoc.
  destruct (ldrop p (rev r)) as [|x xs]; simpl.
  - now destruct (p c).
  - rewrite rev_app_distr. simpl.
    destruct (rev xs ++ [x]) eqn:Hx; [|reflexivity].
    now destruct (rev xs).
Qed.

Lemma rdrop_firstn (s : list A) : rdrop p s = firstn (length (rdrop p s)) s.
Proof.
  induction s as [|c r IH]; [reflexivity|].
  rewrite rdrop_cons. destruct (rdrop p r) as [|x xs] eqn:Hr.
  - now destruct (p c).
  - simpl. simpl in IH. now rewrite <- IH.
Qed.

Lemma ldrop_rdrop (s : list A) : ldrop p (rdrop p s) = rdrop p (ldrop p s).
Proof.
  induction s as [|c r IH]; [reflexivity|].
  simpl ldrop at 2. rewrite rdrop_cons.
  destruct (p c) eqn:Hc.
  - rewrite <- IH. destruct (rdrop p r); [reflexivity|].
    simpl. now rewrite Hc.
  - rewrite rdrop_cons.
    destruct (rdrop p r); simpl; now rewrite Hc.
Qed.

Lemma ldrop_idem (s : list A) : ldrop p (ldrop p s) = ldrop p s.
Proof.
  induction s as [|c r IH]; [reflexivity|].
  simpl. destruct (p c) eqn:Hc; [exact IH|]. simpl. now rewrite Hc.
Qed.

Lemma rdrop_idem (s : list A) : rdrop p (rdrop p s) = rdrop p s.
Proof.
  unfold rdrop. now rewrite rev_involutive, ldrop_idem.
Qed.

Lemma ldrop_fixed (c : A) (s : list A) :
  ldrop p (c :: s) = c :: s -> p c = false.
Proof.
  simpl. destruct (p c); [|reflexivity].
  intros H. exfalso.
  assert (Hlen : forall t, length (ldrop p t) <= length t).
  { induction t as [|d t IHt]; simpl; [lia|]. destruct (p d); simpl; lia. }
  specialize (Hlen s). rewrite H in Hlen. simpl in Hlen. lia.
Qed.

Lemma rdrop_fixed_tail (c : A) (s : list A) :
  rdrop p (c :: s) = c :: s -> rdrop p s = s.
Proof.
  rewrite rdrop_cons. destruct (rdrop p s) as [|x xs] eqn:Hr.
  - destruct (p c); [discriminate|]. intros H. now injection H as <-.
  - intros H. now injection H.
Qed.

Lemma rdrop_fixed_last (s : list A) (c : A) :
  rdrop p (s ++ [c]) = s ++ [c] -> p c = false.
Proof.
  induction s as [|d s IH]; simpl.
  - rewrite rdrop_cons. simpl. now destruct (p c).
  - intros H. apply rdrop_fixed_tail in H. auto.
Qed.
End Drop.

Lemma lstrip_skipn (s : pystr) : lstrip s = skipn (span_len isspace s) s.
Proof.
  induction s as [|c rest IH]; [reflexivity|].
  simpl. now destruct (isspace c).
Qed.

Lemma strip_stripped (l : pystr) : stripped (strip l).
Proof.
  unfold stripped, strip. split.
  - now rewrite ldrop_rdrop, ldrop_idem.
  - apply rdrop_idem.
Qed.

Lemma stripped_strip (l : pystr) : stripped l -> strip l = l.
Proof. intros [Hl Hr]. unfold strip. now rewrite Hl, Hr. Qed.

Lemma tidy_strip (l : pystr) : tidy l -> tidy (strip l).
Proof.
  intros H. unfold strip. rewrite rdrop_firstn. apply tidy_firstn.
  rewrite lstrip_skipn. now apply tidy_skipn.
Qed.

Lemma no_lf_strip (l : pystr) :
  Forall (fun c => c <> LF) l -> Forall (fun c => c <> LF) (strip l).
Proof.
  intros H. unfold strip. rewrite rdrop_firstn. apply Forall_firstn_keep.
  rewrite lstrip_skipn. now apply Forall_skipn_keep.
Qed.

(** ** Lists of lines *)

Lemma cleaned_lines_good (z : pystr) :
  tidy z -> Forall good_line (cleaned_lines (split_on LF z)).
Proof.
  intros Hz. apply Forall_forall. intros l Hin. unfold cleaned_lines in Hin.
  apply filter_In in Hin as [Hin Hkeep].
  apply in_map_iff in Hin as (l0 & <- & Hl0).
  pose proof (split_on_pieces LF z) as Hp.
  pose proof (split_on_no_sep LF z) as Hn.
  rewrite Forall_forall in Hp, Hn.
  destruct (Hp _ Hl0) as (a & b & ->).
  split; [|split; [|split]].
  - apply tidy_strip, tidy_firstn, tidy_skipn, Hz.
  - apply no_lf_strip. rewrite Forall_forall. intros c Hc.
    specialize (Hn _ Hl0). rewrite Forall_forall in Hn. now apply Hn.
  - apply strip_stripped.
  - exact Hkeep.
Qed.

Lemma result_lines_Forall (P : pystr -> Prop) (ls : list pystr) :
  Forall P ls -> forall k, Forall P (result_lines k ls).
Proof.
  induction 1 as [|l ls Hl Hls IH]; intros k; simpl; [constructor|].
  repeat match goal with |- context [if ?b then _ else _] => destruct b end;
    try constructor; auto.
Qed.

Lemma length_zero_nil (l : pystr) : Nat.eqb (length l) 0 = true <-> l = [].
Proof.
  destruct l; simpl; split; intros H; try reflexivity; discriminate.
Qed.

Lemma result_lines_spaced (ls : list pystr) :
  forall k, well_spaced (result_lines k ls) /\
            (1 <= k -> head_not_empty (result_lines k ls)).
Proof.
  induction ls as [|l ls IH]; intros k; simpl; [split; [exact I | intros _; exact I]|].
  destruct (Nat.eqb (length l) 0) eqn:Hl.
  - destruct k as [|k]; simpl.
    + split; [|lia]. split; [intros _; apply IH; lia | apply IH].
    + destruct (IH (S (S k))) as [H1 H2].
      split; [exact H1 | intros _; apply H2; lia].
  - split; [|intros _]; simpl.
    + split; [|apply IH]. intros ->. discriminate.
    + intros ->. discriminate.
Qed.

Lemma result_lines_fixed (ls : list pystr) :
  well_spaced ls ->
  forall k, (1 <= k -> head_not_empty ls) -> result_lines k ls = ls.
Proof.
  induction ls as [|l ls IH]; intros Hs k Hk; [reflexivity|].
  simpl. destruct Hs as [Hhead Hs].
  destruct (Nat.eqb (length l) 0) eqn:Hl.
  - apply length_zero_nil in Hl. subst l.
    destruct k as [|k]; [|exfalso; now apply Hk; [lia|]].
    simpl. f_equal. apply IH; auto.
  - f_equal. apply IH; [exact Hs | lia].
Qed.

Lemma join_cons2 (sep l l2 : pystr) (rest : list pystr) :
  join sep (l :: l2 :: rest) = l ++ sep ++ join sep (l2 :: rest).
Proof. reflexivity. Qed.

Lemma lstrip_join (ls : list pystr) :
  Forall stripped ls -> lstrip (join [LF] ls) = join [LF] (ltrim ls).
Proof.
  induction 1 as [|l ls [Hl _] Hls IH]; [reflexivity|].
  destruct l as [|c l].
  - destruct ls as [|l2 ls]; [reflexivity|].
    rewrite join_cons2. simpl. exact IH.
  - apply ldrop_fixed in Hl.
    destruct ls as [|l2 ls]; simpl; now rewrite Hl.
Qed.

Lemma rdrop_app (A : Type) (p : A -> bool) (a b : list A) :
  rdrop p (a ++ b) =
  match rdrop p b with
  | [] => rdrop p a
  | _ => a ++ rdrop p b
  end.
Proof.
  induction a as [|c a IH]; simpl.
  - now destruct (rdrop p b).
  - rewrite rdrop_cons, IH. destruct (rdrop p b) as [|x xs].
    + now rewrite rdrop_cons.
    + now destruct a.
Qed.

Lemma join_rtrim_nonempty (ls : list pystr) :
  rtrim ls <> [] -> join [LF] (rtrim ls) <> [].
Proof.
  intros Hne. pose proof (rdrop_idem is_empty ls) as Hid.
  destruct (rtrim ls) as [|x [|y xs]]; [congruence | |].
  - destruct x; [discriminate | simpl; discriminate].
  - rewrite join_cons2. now destruct x.
Qed.

Lemma rstrip_join (ls : list pystr) :
  Forall stripped ls -> rstrip (join [LF] ls) = join [LF] (rtrim ls).
Proof.
  induction 1 as [|l ls [_ Hl] Hls IH]; [reflexivity|].
  destruct ls as [|l2 ls].
  - simpl join at 1. rewrite Hl. rewrite rdrop_cons. simpl.
    now destruct l.
  - rewrite join_cons2, rdrop_app.
    change ([LF] ++ join [LF] (l2 :: ls)) with (LF :: join [LF] (l2 :: ls)).
    rewrite rdrop_cons, IH, (rdrop_cons _ l).
    destruct (rtrim (l2 :: ls)) as [|x xs] eqn:Hr.
    + simpl. rewrite Hl. now destruct l.
    + assert (Hne : join [LF] (x :: xs) <> []).
      { rewrite <- Hr. apply join_rtrim_nonempty. congruence. }
      destruct (join [LF] (x :: xs)) eqn:Hj; [congruence|].
      rewrite <- Hj. reflexivity.
Qed.

Lemma well_spaced_skipn (k : nat) (ls : list pystr) :
  well_spaced ls -> well_spaced (skipn k ls).
Proof.
  revert ls. induction k as [|k IH]; intros ls H; [exact H|].
  destruct ls as [|l ls]; [exact I|]. simpl. apply IH. apply H.
Qed.

Lemma well_spaced_firstn (k : nat) (ls : list pystr) :
  well_spaced ls -> well_spaced (firstn k ls).
Proof.
  revert k. induction ls as [|l ls IH]; intros k H.
  - now rewrite firstn_nil.
  - destruct k as [|k]; [exact I|]. simpl. destruct H as [Hh H].
    split; [|now apply IH].
    intros Hl. specialize (Hh Hl).
    destruct ls as [|l2 ls]; [now rewrite firstn_nil|].
    destruct k; [exact I | exact Hh].
Qed.

Lemma ldrop_suffix (A : Type) (p : A -> bool) (s : list A) :
  exists k, ldrop p s = skipn k s.
Proof.
  induction s as [|c s [k IH]]; [now exists 0|].
  simpl. destruct (p c); [now exists (S k) | now exists 0].
Qed.

Lemma clean_lines_intro (ls : list pystr) :
  Forall good_line ls -> well_spaced ls -> clean_lines (rtrim (ltrim ls)).
Proof.
  intros Hg Hs.
  destruct (ldrop_suffix is_empty ls) as [k Hk].
  repeat split.
  - rewrite rdrop_firstn, Hk.
    now apply Forall_firstn_keep, Forall_skipn_keep.
  - rewrite rdrop_firstn, Hk.
    now apply well_spaced_firstn, well_spaced_skipn.
  - now rewrite ldrop_rdrop, ldrop_idem.
  - apply rdrop_idem.
Qed.

Lemma strip_join (ls : list pystr) :
  Forall good_line ls ->
  strip (join [LF] ls) = join [LF] (rtrim (ltrim ls)).
Proof.
  intros Hg.
  assert (Hs : Forall stripped ls).
  { eapply Forall_impl; [|exact Hg]. intros l H. apply H. }
  unfold strip. rewrite lstrip_join by exact Hs.
  apply rstrip_join.
  destruct (ldrop_suffix is_empty ls) as [k ->].
  now apply Forall_skipn_keep.
Qed.

(** ** A normalised text is a fixed point of every step *)

Lemma split_on_single (d : char) (l : pystr) :
  Forall (fun c => c <> d) l -> split_on d l = [l].
Proof.
  induction 1 as [|c l Hc Hl IH]; [reflexivity|].
  simpl. apply N.eqb_neq in Hc. now rewrite Hc, IH.
Qed.

Lemma split_on_line (d : char) (l r : pystr) :
  Forall (fun c => c <> d) l -> split_on d (l ++ d :: r) = l :: split_on d r.
Proof.
  induction 1 as [|c l Hc Hl IH]; simpl.
  - now rewrite N.eqb_refl.
  - apply N.eqb_neq in Hc. now rewrite Hc, IH.
Qed.

Lemma split_join (ls : list pystr) :
  ls <> [] -> Forall (Forall (fun c => c <> LF)) ls ->
  split_on LF (join [LF] ls) = ls.
Proof.
  intros Hne H. destruct ls as [|l ls]; [congruence|]. clear Hne.
  revert l H. induction ls as [|l2 ls IH]; intros l H.
  - inversion H; subst. now apply split_on_single.
  - inversion H; subst. rewrite join_cons2.
    change ([LF] ++ ?x) with (LF :: x).
    rewrite split_on_line by assumption. f_equal. now apply IH.
Qed.

Lemma Forall_join (P : char -> Prop) (ls : list pystr) :
  P LF -> Forall (Forall P) ls -> Forall P (join [LF] ls).
Proof.
  intros HP. induction 1 as [|l ls Hl Hls IH]; [constructor|].
  destruct ls as [|l2 ls]; [exact Hl|].
  rewrite join_cons2. apply Forall_app. split; [exact Hl|].
  constructor; assumption.
Qed.

Lemma on_suffixes_join (P : pystr -> Prop) (G : list pystr -> Prop) :
  (forall l rest, G (l :: rest) -> G rest) ->
  P [] ->
  (forall l ls k tail,
      G (l :: ls) -> k < length l -> line_end tail -> P (skipn k l ++ tail)) ->
  (forall l ls, G (l :: ls) -> ls <> [] -> P (LF :: join [LF] ls)) ->
  forall ls, G ls -> on_suffixes P (join [LF] ls).
Proof.
  intros Htail Hnil Hline Hsep.
  induction ls as [|l ls IH]; intros HG.
  - now apply on_suffixes_nil.
  - destruct ls as [|l2 ls].
    + intros k. simpl join.
      destruct (Nat.lt_ge_cases k (length l)) as [Hlt|Hge].
      * rewrite <- (app_nil_r (skipn k l)).
        apply (Hline l [] k []); [exact HG | exact Hlt | now left].
      * now rewrite skipn_all2.
    + rewrite join_cons2. change ([LF] ++ ?x) with (LF :: x).
      apply on_suffixes_app.
      * intros k Hk. apply (Hline l (l2 :: ls)); [exact HG | exact Hk |].
        right. now eexists.
      * apply on_suffixes_cons. split.
        -- apply (Hsep l); [exact HG | discriminate].
        -- apply IH. now apply (Htail l).
Qed.

Lemma span_len_line_end (x : char) (a tail : pystr) :
  x <> LF -> line_end tail ->
  span_len (is_char x) (a ++ tail) = span_len (is_char x) a.
Proof.
  intros Hx [->|[t ->]]; [now rewrite app_nil_r|].
  apply span_len_app_stop. apply N.eqb_neq. congruence.
Qed.

Lemma span_le_join (x : char) (b : nat) (ls : list pystr) :
  x <> LF -> Forall (on_suffixes (span_le x b)) ls ->
  on_suffixes (span_le x b) (join [LF] ls).
Proof.
  intros Hx.
  apply (@on_suffixes_join (span_le x b)
           (Forall (on_suffixes (span_le x b)))).
  - intros l rest H. now inversion H.
  - unfold span_le. simpl. lia.
  - intros l ls' k tail H Hk Htail. inversion H as [|? ? Hl _]; subst.
    unfold span_le. rewrite span_len_line_end by assumption. apply Hl.
  - intros l ls' _ _. unfold span_le. cbn [span_len].
    rewrite is_char_neq; [lia | congruence].
Qed.

Lemma tidy_join (ls : list pystr) : Forall tidy ls -> tidy (join [LF] ls).
Proof.
  intros H. repeat split.
  1-2: apply Forall_join; [discriminate|];
       eapply Forall_impl; [|exact H]; intros l Hl; apply Hl.
  all: apply span_le_join; [discriminate|];
       eapply Forall_impl; [|exact H]; intros l Hl; apply Hl.
Qed.

Lemma In_skipn_in (A : Type) (x : A) (n : nat) (l : list A) :
  In x (skipn n l) -> In x l.
Proof.
  intros H. rewrite <- (firstn_skipn n l). apply in_or_app. now right.
Qed.

(** Absent characters are never matched. *)
Lemma fixes_line_ending (s : pystr) :
  Forall (fun c => c <> CR) s -> on_suffixes (fixes_match m_line_ending [LF]) s.
Proof.
  intros H k. unfold fixes_match, m_line_ending.
  destruct (skipn k s) as [|c rest] eqn:Hs; [exact I|].
  rewrite Forall_forall in H.
  assert (Hc : c <> CR).
  { apply H. apply (In_skipn_in _ k). rewrite Hs. now left. }
  apply N.eqb_neq in Hc. now rewrite Hc.
Qed.

Lemma fixes_tab (s : pystr) :
  Forall (fun c => c <> TAB) s -> on_suffixes (fixes_match m_tab [SP]) s.
Proof.
  intros H k. unfold fixes_match, m_tab.
  destruct (skipn k s) as [|c rest] eqn:Hs; [exact I|].
  rewrite Forall_forall in H.
  assert (Hc : c <> TAB).
  { apply H. apply (In_skipn_in _ k). rewrite Hs. now left. }
  apply N.eqb_neq in Hc. now rewrite Hc.
Qed.

Lemma fixes_run (x : char) (k j b : nat) (s : pystr) :
  b < k \/ (k = b /\ j = b) ->
  on_suffixes (span_le x b) s ->
  on_suffixes (fixes_match (m_run x k) (repeat x j)) s.
Proof.
  intros Hb H i. eapply fixes_match_run; [exact Hb | apply H].
Qed.

(** The head of joined stripped lines. *)
Lemma join_head (ls : list pystr) :
  Forall stripped ls ->
  match join [LF] ls with
  | [] => True
  | c :: _ => isspace c = false \/ (c = LF /\ exists rest, ls = [] :: rest)
  end.
Proof.
  intros H. destruct ls as [|l ls]; [exact I|].
  inversion H as [|? ? [Hl _] _]; subst.
  destruct l as [|c l].
  - destruct ls as [|l2 ls]; [exact I|]. rewrite join_cons2. simpl.
    right. split; [reflexivity | now eexists].
  - apply ldrop_fixed in Hl.
    destruct ls as [|l2 ls]; simpl; now left.
Qed.

Lemma not_space_not_sp (c : char) : isspace c = false -> is_char SP c = false.
Proof.
  intros H. unfold is_char. destruct (N.eqb c SP) eqn:Hc; [|reflexivity].
  apply N.eqb_eq in Hc. subst c. discriminate.
Qed.

Lemma good_lines_stripped (ls : list pystr) :
  Forall good_line ls -> Forall stripped ls.
Proof. intros H. eapply Forall_impl; [|exact H]. intros l Hl. apply Hl. Qed.

Lemma span_stops_in_line (a : pystr) (z : char) (tail : pystr) :
  is_char SP z = false ->
  exists c t,
    skipn (span_len (is_char SP) (a ++ z :: tail)) (a ++ z :: tail) = c :: t
    /\ In c (a ++ [z]).
Proof.
  intros Hz. induction a as [|d a (c & t & Heq & Hin)]; simpl.
  - rewrite Hz. exists z, tail. split; [reflexivity | now left].
  - destruct (is_char SP d).
    + exists c, t. split; [exact Heq | now right].
    + exists d, (a ++ z :: tail). split; [reflexivity | now left].
Qed.

Lemma fixes_spaces_around_lf (ls : list pystr) :
  Forall good_line ls ->
  on_suffixes (fixes_match m_spaces_around_lf [LF]) (join [LF] ls).
Proof.
  apply (@on_suffixes_join _ (Forall good_line)).
  - intros l rest H. now inversion H.
  - exact I.
  - intros l ls' k tail H Hk _.
    inversion H as [|? ? (_ & Hlf & [_ Hr] & _) _]; subst.
    unfold fixes_match, m_spaces_around_lf.
    destruct (exists_last (l:=l)) as (l0 & z & ->).
    { intros ->. simpl in Hk. lia. }
    pose proof (rdrop_fixed_last _ _ _ Hr) as Hz.
    apply not_space_not_sp in Hz.
    rewrite length_app in Hk. simpl in Hk.
    assert (Hsk : skipn k (l0 ++ [z]) = skipn k l0 ++ [z]).
    { rewrite skipn_app. now replace (k - length l0) with 0 by lia. }
    rewrite Hsk, <- app_assoc. simpl app.
    destruct (@span_stops_in_line (skipn k l0) z tail Hz) as (c & t & -> & Hin).
    assert (Hc : c <> LF).
    { rewrite Forall_forall in Hlf. apply Hlf.
      apply in_app_or in Hin as [Hin|Hin]; apply in_or_app.
      - left. now apply In_skipn_in in Hin.
      - now right. }
    apply N.eqb_neq in Hc. now rewrite Hc.
  - intros l ls' H _. inversion H as [|? ? _ Hls]; subst.
    unfold fixes_match, m_spaces_around_lf. simpl.
    pose proof (join_head (good_lines_stripped Hls)) as Hh.
    destruct (join [LF] ls') as [|c t]; [reflexivity|].
    simpl. destruct Hh as [Hc|[-> _]].
    + now rewrite (not_space_not_sp _ Hc).
    + reflexivity.
Qed.

Lemma fixes_blank_lines (ls : list pystr) :
  spaced_lines ls ->
  on_suffixes (fixes_match m_blank_lines [LF; LF]) (join [LF] ls).
Proof.
  apply (@on_suffixes_join _ spaced_lines).
  - intros l rest (Hg & Hs & Hr). repeat split.
    + now inversion Hg.
    + apply Hs.
    + now apply rdrop_fixed_tail in Hr.
  - exact I.
  - intros l ls' k tail (Hg & _) Hk _.
    inversion Hg as [|? ? (_ & Hlf & _) _]; subst.
    unfold fixes_match, m_blank_lines.
    destruct (skipn k l) as [|c t] eqn:Hs.
    { apply (f_equal (@length _)) in Hs. rewrite length_skipn in Hs.
      simpl in Hs. lia. }
    simpl. assert (Hc : c <> LF).
    { rewrite Forall_forall in Hlf. apply Hlf, (In_skipn_in _ k).
      rewrite Hs. now left. }
    apply N.eqb_neq in Hc. now rewrite Hc.
  - intros l ls' (Hg & [_ Hs] & Hr) Hne.
    apply rdrop_fixed_tail in Hr.
    inversion Hg as [|? ? _ Hls]; subst.
    unfold fixes_match, m_blank_lines. simpl.
    destruct ls' as [|l2 ls2]; [congruence|].
    inversion Hls as [|? ? (_ & _ & [Hl2 _] & _) Hls2]; subst.
    destruct l2 as [|c l2].
    + destruct ls2 as [|l3 ls3].
      { rewrite rdrop_cons in Hr. simpl in Hr. discriminate. }
      destruct Hs as [Hhead _]. specialize (Hhead eq_refl). simpl in Hhead.
      inversion Hls2 as [|? ? (_ & _ & [Hl3 _] & _) _]; subst.
      destruct l3 as [|c3 l3]; [congruence|].
      apply ldrop_fixed in Hl3.
      rewrite join_cons2. simpl.
      destruct ls3; simpl; now rewrite Hl3.
    + apply ldrop_fixed in Hl2.
      destruct ls2; simpl; now rewrite Hl2.
Qed.

Lemma substitutions_fixed (ls : list pystr) :
  spaced_lines ls -> substitutions (join [LF] ls) = join [LF] ls.
Proof.
  intros Hsp. pose proof Hsp as (Hg & _).
  assert (Ht : tidy (join [LF] ls)).
  { apply tidy_join. eapply Forall_impl; [|exact Hg]. intros l Hl. apply Hl. }
  destruct Ht as (H1 & H2 & H3 & H4 & H5 & H6).
  unfold substitutions. cbv zeta.
  rewrite (re_sub_id (m := m_line_ending)) by now apply fixes_line_ending.
  rewrite (re_sub_id (m := m_tab)) by now apply fixes_tab.
  rewrite (re_sub_id (m := m_run SP 2))
    by (apply (fixes_run (j := 1) (b := 1)); [lia | exact H3]).
  rewrite (re_sub_id (m := m_blank_lines)) by now apply fixes_blank_lines.
  rewrite (re_sub_id (m := m_spaces_around_lf))
    by now apply fixes_spaces_around_lf.
  rewrite (re_sub_id (m := m_run BANG 3))
    by (apply (fixes_run (j := 3) (b := 3)); [lia | exact H4]).
  rewrite (re_sub_id (m := m_run QMARK 3))
    by (apply (fixes_run (j := 3) (b := 3)); [lia | exact H5]).
  apply re_sub_id. apply (fixes_run (j := 3) (b := 3)); [lia | exact H6].
Qed.

Lemma cleaned_lines_fixed (ls : list pystr) :
  Forall good_line ls -> cleaned_lines ls = ls.
Proof.
  induction 1 as [|l ls (_ & _ & Hs & Hk) Hls IH]; [reflexivity|].
  unfold cleaned_lines in *. simpl.
  rewrite (stripped_strip Hs), Hk. now f_equal.
Qed.

Lemma clean_lines_fixed (ls : list pystr) :
  clean_lines ls ->
  enhanced_text_cleaning (join [LF] ls) = join [LF] ls.
Proof.
  intros (Hg & Hs & Hl & Hr).
  destruct (join [LF] ls) as [|c t] eqn:Hj; [reflexivity|].
  assert (Hne : ls <> []) by (intros ->; discriminate).
  unfold enhanced_text_cleaning. rewrite <- Hj.
  rewrite substitutions_fixed by (repeat split; assumption).
  rewrite split_join.
  - rewrite cleaned_lines_fixed by exact Hg.
    rewrite result_lines_fixed by (auto; lia).
    rewrite strip_join by exact Hg. now rewrite Hl, Hr.
  - exact Hne.
  - eapply Forall_impl; [|exact Hg]. intros l H. apply H.
Qed.

Lemma enhanced_text_cleaning_lines (text : pystr) :
  exists ls, clean_lines ls /\ enhanced_text_cleaning text = join [LF] ls.
Proof.
  destruct text as [|c r].
  - exists []. repeat split; constructor.
  - set (ls := result_lines 0 (cleaned_lines (split_on LF (substitutions (c :: r))))).
    assert (Hg : Forall good_line ls).
    { apply result_lines_Forall, cleaned_lines_good, substitutions_tidy. }
    exists (rtrim (ltrim ls)). split.
    + apply clean_lines_intro; [exact Hg | apply result_lines_spaced].
    + unfold enhanced_text_cleaning. fold ls. now apply strip_join.
Qed.

(** C6.  The text normaliser is idempotent: cleaning an already cleaned text
    gives that text back, for every input string. *)
Theorem enhanced_text_cleaning_idempotent (x : pystr) :
  enhanced_text_cleaning (enhanced_text_cleaning x) = enhanced_text_cleaning x.
Proof.
  destruct (enhanced_text_cleaning_lines x) as (ls & Hls & ->).
  now apply clean_lines_fixed.
Qed.

(** * Properties of URL validation and of the fetch loop *)

Lemma pystr_eqb_eq (a b : pystr) : pystr_eqb a b = true <-> a = b.
Proof.
  unfold pystr_eqb. destruct (list_eq_dec N.eq_dec a b); split; congruence.
Qed.

Lemma pystr_eqb_refl (a : pystr) : pystr_eqb a a = true.
Proof. now apply pystr_eqb_eq. Qed.

Lemma pystr_eqb_neq (a b : pystr) : pystr_eqb a b = false <-> a <> b.
Proof.
  unfold pystr_eqb. destruct (list_eq_dec N.eq_dec a b); split; congruence.
Qed.

Lemma surrogate_not_folded (c : char) :
  is_surrogate c = true -> N.ltb 127 (sre_fold c) = true.
Proof.
  unfold is_surrogate, sre_fold. intros H.
  apply andb_true_iff in H as [H1 H2].
  apply N.leb_le in H1, H2.
  destruct (N.leb 65 c && N.leb c 90)%bool eqn:Hup.
  - apply andb_true_iff in Hup as [_ Hup]. apply N.leb_le in Hup. lia.
  - repeat match goal with
           | |- context [N.eqb c ?k] => destruct (N.eqb_spec c k); [lia|]
           end.
    apply N.ltb_lt. lia.
Qed.

(** A URL that passed validation can be encoded. *)
Lemma is_valid_url_encode (lib : library) (url : pystr) :
  is_valid_url lib url = true -> encode url = Ok url.
Proof.
  unfold is_valid_url, encode. intros H.
  destruct (urlparse lib url) as [[scheme netloc]|]; [|discriminate].
  destruct (negb _); [discriminate|].
  destruct (existsb _ suspicious_patterns) eqn:Hs; [discriminate|].
  simpl in Hs. apply orb_false_iff in Hs as [Hs _].
  destruct (existsb is_surrogate url) eqn:He; [|reflexivity].
  apply existsb_exists in He as (c & Hin & Hc).
  assert (Hx : existsb (fun c => N.ltb 127 (sre_fold c)) url = true).
  { apply existsb_exists. exists c. split; [exact Hin|].
    now apply surrogate_not_folded. }
  congruence.
Qed.

(** What is found invalid: a scheme other than [http] and [https], an empty
    host, one of the three forbidden patterns in any letter case, or a
    character beyond ASCII other than the four letters that
    [re.IGNORECASE] folds to ASCII. *)
Lemma is_valid_url_rejects (lib : library) (url scheme netloc : pystr) :
  urlparse lib url = Some (scheme, netloc) ->
  (scheme <> py "http" /\ scheme <> py "https")
  \/ netloc = []
  \/ contains (py "javascript:") (map sre_fold url) = true
  \/ contains (py "data:") (map sre_fold url) = true
  \/ contains (py "file:") (map sre_fold url) = true
  \/ (exists c, In c url /\ (127 < c)%N
                /\ c <> 304%N /\ c <> 305%N /\ c <> 383%N /\ c <> 8490%N) ->
  is_valid_url lib url = false.
Proof.
  intros Hp H. unfold is_valid_url. rewrite Hp.
  destruct H as [[H1 H2]|[H|H]].
  - apply pystr_eqb_neq in H1, H2. simpl. now rewrite H1, H2.
  - subst netloc. simpl. now rewrite andb_false_r.
  - destruct (negb _); [reflexivity|].
    assert (Hs : existsb (fun p => re_search_ignorecase p url) suspicious_patterns
                 = true); [|now rewrite Hs].
    simpl. destruct H as [H|[H|[H|(c & Hin & Hc & H1 & H2 & H3 & H4)]]];
      try (rewrite H; now rewrite ?orb_true_r).
    assert (Hx : existsb (fun c => N.ltb 127 (sre_fold c)) url = true);
      [|now rewrite Hx].
    apply existsb_exists. exists c. split; [exact Hin|].
    unfold sre_fold.
    destruct (N.leb 65 c && N.leb c 90)%bool eqn:Hup.
    + apply andb_true_iff in Hup as [_ Hup]. apply N.leb_le in Hup. lia.
    + repeat match goal with
             | |- context [N.eqb c ?k] => destruct (N.eqb_spec c k); [congruence|]
             end.
      now apply N.ltb_lt.
Qed.

(** A URL that fails [is_valid_url] is answered at once: no request, no
    pause, the cache as it was. *)
Lemma scrape_article_invalid_url (lib : library) (w : world) (url : pystr) (c : cache) :
  is_valid_url lib url = false ->
  scrape_article lib w url c = (Ok invalid_url_message, c, []).
Proof. intros H. unfold scrape_article. now rewrite H. Qed.

(** C4.  The URL [http://example.com/] followed by the Kelvin sign holds a
    character beyond ASCII, yet [is_valid_url] accepts it and
    [scrape_article] goes to the network with it. *)
Theorem kelvin_url_reaches_the_network :
  In 8490%N kelvin_url /\
  is_valid_url reference_library kelvin_url = true /\
  scrape_article reference_library not_found_world kelvin_url []
  = (Ok not_found_message, [], retry_events kelvin_url 2).
Proof.
  split; [|split].
  - unfold kelvin_url. apply in_or_app. right. now left.
  - vm_compute. reflexivity.
  - vm_compute. reflexivity.
Qed.

(** An HTTP error status comes out of the attempt as an exception of
    [requests]. *)
Lemma attempt_once_http_error (w : world) (attempt : nat) (r : response) :
  session_get w attempt = Ok r ->
  (400 <= status_code r < 600)%Z ->
  attempt_once w attempt = Raise (HTTPError (status_code r))
  /\ is_request_exception (HTTPError (status_code r)) = true.
Proof.
  intros Hget [Hlo Hhi]. unfold attempt_once, raise_for_status. rewrite Hget. simpl.
  apply Z.leb_le in Hlo. apply Z.ltb_lt in Hhi. now rewrite Hlo, Hhi.
Qed.

(** C1, as the code has it.  Every exception of [requests] that an attempt
    raises is retried, an HTTP error status included: after [k] such failures
    ([k] below 3), each followed by a pause of [2 ^ attempt], the next
    attempt decides.  Its response is kept; its exception is raised if it was
    the third attempt or if it is not an exception of [requests], which is
    never retried.  At most three requests are made. *)
Theorem fetch_retries_every_requests_exception (w : world) (url : pystr) (k : nat) :
  k < max_retries ->
  (forall i, i < k ->
     exists e, attempt_once w i = Raise e /\ is_request_exception e = true) ->
  (forall r, session_get w k = Ok r -> (400 <= status_code r < 600)%Z ->
     attempt_once w k = Raise (HTTPError (status_code r))
     /\ is_request_exception (HTTPError (status_code r)) = true) /\
  match attempt_once w k with
  | Ok r => fetch w url = (Ok (Some r), retry_events url k)
  | Raise e =>
      (is_request_exception e = false \/ k = max_retries - 1 ->
       fetch w url = (Raise e, retry_events url k)) /\
      (is_request_exception e = true -> k < max_retries - 1 ->
       exists outcome events,
         fetch w url = (outcome, retry_events url k ++ EvSleep (2 ^ Z.of_nat k) :: events)
         /\ hd_error events = Some (EvGet url))
  end /\
  requests_made (snd (fetch w url)) <= max_retries.
Proof.
  intros Hk Hfail. split; [|split].
  - intros r Hget Hst. now apply attempt_once_http_error.
  - unfold max_retries in *. unfold fetch, max_retries. simpl seq.
    assert (H0 : 0 < k -> exists e, attempt_once w 0 = Raise e
                                    /\ is_request_exception e = true)
      by (intros; apply Hfail; lia).
    assert (H1 : 1 < k -> exists e, attempt_once w 1 = Raise e
                                    /\ is_request_exception e = true)
      by (intros; apply Hfail; lia).
    destruct k as [|[|[|k]]]; [| | |lia].
    + simpl. destruct (attempt_once w 0) as [r|e]; [reflexivity|].
      split.
      * intros [He|He]; [now rewrite He | discriminate].
      * intros He _. rewrite He. simpl.
        destruct (attempt_once w 1) as [r1|e1].
        -- now eexists _, _.
        -- destruct (is_request_exception e1).
           ++ destruct (attempt_once w 2) as [r2|e2];
                [|destruct (is_request_exception e2)]; now eexists _, _.
           ++ now eexists _, _.
    + destruct H0 as (e0 & He0 & Hr0); [lia|].
      simpl. rewrite He0, Hr0. simpl.
      destruct (attempt_once w 1) as [r|e]; [reflexivity|].
      split.
      * intros [He|He]; [now rewrite He | discriminate].
      * intros He _. rewrite He.
        destruct (attempt_once w 2) as [r2|e2];
          [|destruct (is_request_exception e2)]; now eexists _, _.
    + destruct H0 as (e0 & He0 & Hr0); [lia|].
      destruct H1 as (e1 & He1 & Hr1); [lia|].
      simpl. rewrite He0, Hr0, He1, Hr1. simpl.
      destruct (attempt_once w 2) as [r|e]; [reflexivity|].
      split.
      * intros _. now destruct (is_request_exception e).
      * intros _ Hlt. lia.
  - unfold fetch, max_retries, requests_made. simpl.
    destruct (attempt_once w 0) as [r0|e0]; [simpl; lia|].
    destruct (is_request_exception e0); [|simpl; lia].
    destruct (attempt_once w 1) as [r1|e1]; [simpl; lia|].
    destruct (is_request_exception e1); [|simpl; lia].
    destruct (attempt_once w 2) as [r2|e2]; [simpl; lia|].
    destruct (is_request_exception e2); simpl; lia.
Qed.

(** C1, the claim as stated fails: with a server that answers 404 the loop
    makes three requests and pauses twice before the error is reported. *)
Lemma http_404_is_retried_twice :
  session_get not_found_world 0 = Ok (page_response 404 "text/html" (document [])) /\
  fetch not_found_world article_url
  = (Raise (HTTPError 404),
     [EvGet article_url; EvSleep 1; EvGet article_url; EvSleep 2; EvGet article_url]) /\
  scrape_article reference_library not_found_world article_url []
  = (Ok not_found_message, [],
     [EvGet article_url; EvSleep 1; EvGet article_url; EvSleep 2; EvGet article_url]).
Proof. repeat split; vm_compute; reflexivity. Qed.

Lemma fetch_retries_witness :
  fetch flaky_world article_url
  = (Ok (Some (page_response 200 "text/html" (document []))),
     retry_events article_url 2).
Proof.
  pose proof (@fetch_retries_every_requests_exception flaky_world article_url 2) as H.
  destruct H as (_ & H & _).
  - unfold max_retries. lia.
  - intros i Hi. exists (HTTPError 503).
    destruct i as [|[|i]]; [split; reflexivity | split; reflexivity | lia].
  - exact H.
Defined.

(** * Properties of the cache *)

Lemma Qlt_bool_iff (a b : Q) : Qlt_bool a b = true <-> (a < b)%Q.
Proof.
  unfold Qlt_bool. rewrite negb_true_iff. split.
  - intros H. apply Qnot_le_lt. intros Hle. apply Qle_bool_iff in Hle. congruence.
  - intros H. destruct (Qle_bool b a) eqn:Hb; [|reflexivity].
    apply Qle_bool_iff in Hb. exfalso. now apply (Qlt_not_le a b).
Qed.

Lemma Qlt_bool_false (a b : Q) : Qlt_bool a b = false <-> (b <= a)%Q.
Proof.
  unfold Qlt_bool. rewrite negb_false_iff. apply Qle_bool_iff.
Qed.

Lemma cache_get_set_same (key : pystr) (v : cache_entry) (c : cache) :
  cache_get key (cache_set key v c) = Some v.
Proof.
  induction c as [|[k v0] c IH]; simpl.
  - now rewrite pystr_eqb_refl.
  - destruct (pystr_eqb k key) eqn:Hk; simpl; now rewrite Hk.
Qed.

Lemma cache_get_set_other (key k' : pystr) (v : cache_entry) (c : cache) :
  k' <> key -> cache_get k' (cache_set key v c) = cache_get k' c.
Proof.
  intros Hne. induction c as [|[k v0] c IH]; simpl.
  - destruct (pystr_eqb key k') eqn:Hk; [|reflexivity].
    apply pystr_eqb_eq in Hk. congruence.
  - destruct (pystr_eqb k key) eqn:Hk; simpl.
    + apply pystr_eqb_eq in Hk. subst k.
      destruct (pystr_eqb key k') eqn:Hk'; [|reflexivity].
      apply pystr_eqb_eq in Hk'. congruence.
    + now rewrite IH.
Qed.

Lemma cache_get_del_other (key k' : pystr) (c : cache) :
  k' <> key -> cache_get k' (cache_del key c) = cache_get k' c.
Proof.
  intros Hne. induction c as [|[k v0] c IH]; simpl; [reflexivity|].
  destruct (pystr_eqb k key) eqn:Hk; simpl.
  - apply pystr_eqb_eq in Hk. subst k.
    destruct (pystr_eqb key k') eqn:Hk'; [|reflexivity].
    apply pystr_eqb_eq in Hk'. congruence.
  - now rewrite IH.
Qed.

Lemma cache_get_del_none (key k' : pystr) (c : cache) :
  cache_get k' c = None -> cache_get k' (cache_del key c) = None.
Proof.
  induction c as [|[k v0] c IH]; simpl; [reflexivity|].
  destruct (pystr_eqb k k') eqn:Hk'; [discriminate|]. intros H.
  destruct (pystr_eqb k key); [exact H|]. simpl. rewrite Hk'. now apply IH.
Qed.

Lemma cache_set_length_new (key : pystr) (v : cache_entry) (c : cache) :
  cache_get key c = None -> length (cache_set key v c) = S (length c).
Proof.
  induction c as [|[k v0] c IH]; simpl; [reflexivity|].
  destruct (pystr_eqb k key); [discriminate|]. intros H. simpl. now rewrite IH.
Qed.

Lemma cache_set_length_le (key : pystr) (v : cache_entry) (c : cache) :
  length (cache_set key v c) <= S (length c).
Proof.
  induction c as [|[k v0] c IH]; simpl; [lia|].
  destruct (pystr_eqb k key); simpl; lia.
Qed.

Lemma cache_del_length (key : pystr) (c : cache) :
  (exists v, In (key, v) c) -> S (length (cache_del key c)) = length c.
Proof.
  intros [v Hin]. induction c as [|[k v0] c IH]; [contradiction|].
  simpl. destruct (pystr_eqb k key) eqn:Hk; [reflexivity|].
  simpl. f_equal. apply IH. destruct Hin as [Heq|Hin]; [|exact Hin].
  injection Heq as -> _. now rewrite pystr_eqb_refl in Hk.
Qed.

(** The entry [min] picks is in the cache and none is older. *)
Lemma oldest_from_min (c : cache) :
  forall best,
    In (oldest_from best c) (best :: c) /\
    forall kv, In kv (best :: c) ->
               (fst (snd (oldest_from best c)) <= fst (snd kv))%Q.
Proof.
  induction c as [|kv0 c IH]; intros best; simpl.
  - split; [now left|]. intros kv [<-|[]]. apply Qle_refl.
  - destruct (Qlt_bool (fst (snd kv0)) (fst (snd best))) eqn:Hlt.
    + destruct (IH kv0) as [Hin Hmin]. split.
      * right. exact Hin.
      * intros kv [<-|Hkv]; [|now apply Hmin].
        apply Qlt_bool_iff in Hlt.
        apply Qle_trans with (fst (snd kv0)); [apply Hmin; now left|].
        now apply Qlt_le_weak.
    + destruct (IH best) as [Hin Hmin]. split.
      * destruct Hin as [Hin|Hin]; [now left | right; now right].
      * intros kv [<-|[<-|Hkv]].
        -- apply Hmin. now left.
        -- apply Qlt_bool_false in Hlt.
           apply Qle_trans with (fst (snd best)); [apply Hmin; now left | exact Hlt].
        -- apply Hmin. now right.
Qed.

Lemma oldest_key_min (c : cache) :
  c <> [] ->
  exists oldest entry,
    oldest_key c = Some oldest /\ In (oldest, entry) c /\
    forall k e, In (k, e) c -> (fst entry <= fst e)%Q.
Proof.
  destruct c as [|kv c]; [congruence|]. intros _.
  destruct (oldest_from_min c kv) as [Hin Hmin].
  destruct (oldest_from kv c) as [oldest entry] eqn:Ho.
  exists oldest, entry. simpl. rewrite Ho. repeat split; [exact Hin|].
  intros k e Hke. exact (Hmin (k, e) Hke).
Qed.

Lemma cache_store_length (key : pystr) (v : cache_entry) (c : cache) :
  length c <= cache_capacity -> length (cache_store key v c) <= cache_capacity.
Proof.
  intros Hc. unfold cache_store.
  pose proof (cache_set_length_le key v c) as Hs.
  destruct (Nat.ltb cache_capacity (length (cache_set key v c))) eqn:Hlt.
  - apply Nat.ltb_lt in Hlt.
    destruct (@oldest_key_min (cache_set key v c)) as (o & e & -> & Hin & _).
    { intros H. rewrite H in Hlt. simpl in Hlt. lia. }
    assert (Hd := @cache_del_length o (cache_set key v c) (ex_intro _ e Hin)).
    lia.
  - apply Nat.ltb_ge in Hlt. exact Hlt.
Qed.

Lemma cache_store_get_none (key k' : pystr) (v : cache_entry) (c : cache) :
  k' <> key -> cache_get k' c = None -> cache_get k' (cache_store key v c) = None.
Proof.
  intros Hne Hk. unfold cache_store.
  assert (Hs : cache_get k' (cache_set key v c) = None)
    by now rewrite cache_get_set_other.
  destruct (Nat.ltb _ _); [|exact Hs].
  destruct (oldest_key _); [|exact Hs].
  now apply cache_get_del_none.
Qed.

Lemma cache_store_length_new (key : pystr) (v : cache_entry) (c : cache) :
  cache_get key c = None -> length c <= cache_capacity ->
  length (cache_store key v c) = Nat.min (S (length c)) cache_capacity.
Proof.
  intros Hk Hc. unfold cache_store.
  pose proof (cache_set_length_new key v c Hk) as Hs.
  destruct (Nat.ltb cache_capacity (length (cache_set key v c))) eqn:Hlt.
  - apply Nat.ltb_lt in Hlt.
    destruct (@oldest_key_min (cache_set key v c)) as (o & e & -> & Hin & _).
    { intros H. rewrite H in Hlt. simpl in Hlt. lia. }
    assert (Hd := @cache_del_length o (cache_set key v c) (ex_intro _ e Hin)).
    lia.
  - apply Nat.ltb_ge in Hlt. lia.
Qed.

Lemma cache_store_all_length (entries : list (pystr * cache_entry)) :
  NoDup (map fst entries) ->
  forall c,
    (forall k, In k (map fst entries) -> cache_get k c = None) ->
    length c <= cache_capacity ->
    length (cache_store_all entries c)
    = Nat.min (length c + length entries) cache_capacity.
Proof.
  unfold cache_store_all.
  induction entries as [|[k v] entries IH]; intros Hnd c Hnew Hc; simpl.
  - rewrite Nat.add_0_r. lia.
  - inversion Hnd as [|? ? Hnotin Hnd']; subst.
    rewrite IH.
    + rewrite cache_store_length_new by (auto; apply Hnew; now left).
      unfold cache_capacity in *. lia.
    + exact Hnd'.
    + intros k' Hk'. apply cache_store_get_none.
      * intros ->. contradiction.
      * apply Hnew. now right.
    + now apply cache_store_length.
Qed.

(** What a miss can return: one of the two refusals, the cache untouched,
    or the formatted page, which is then also what the cache holds. *)
Lemma scrape_fresh_ok (lib : library) (w : world) (url key : pystr) (c c' : cache)
    (text : pystr) (events : list event) :
  scrape_fresh lib w url key c = (Ok (text, c'), events) ->
  (c' = c /\ ((exists ct, text = invalid_content_type_message ct)
              \/ text = insufficient_content_message))
  \/ (c' = cache_store key (time_at_store w, text) c
      /\ exists metadata content content_metadata soup soup',
           advanced_content_extraction lib soup = (content, content_metadata, soup')
           /\ 150 <= length content
           /\ text = format_result metadata content content_metadata).
Proof.
  unfold scrape_fresh.
  destruct (get_random_headers w); [|discriminate].
  destruct (fetch w url) as [[[r|]|e] ev]; cbn [bind]; try discriminate.
  unfold check_content_type.
  destruct (negb _).
  - intros H. injection H as <- <- _. left. split; [reflexivity|].
    left. now eexists.
  - unfold extract_page. destruct (content r) as [soup|]; cbn [bind]; [|discriminate].
    destruct (extract_comprehensive_metadata lib (sanitize soup)) as [metadata|];
      cbn [bind]; [|discriminate].
    destruct (advanced_content_extraction lib (sanitize soup))
      as [[content content_metadata] soup'] eqn:Hadv.
    destruct (Nat.ltb (length content) 150) eqn:Hlen.
    + intros H. injection H as <- <- _. left. split; [reflexivity | now right].
    + intros H. injection H as <- <- _. right. split; [reflexivity|].
      exists metadata, content, content_metadata, (sanitize soup), soup'.
      apply Nat.ltb_ge in Hlen. repeat split; assumption.
Qed.

(** The cache after a call is the cache before it, or that cache with the
    entry of this URL stored. *)
Lemma scrape_article_cache (lib : library) (w : world) (url : pystr) (c : cache) :
  snd (fst (scrape_article lib w url c)) = c \/
  exists text,
    snd (fst (scrape_article lib w url c))
    = cache_store (md5 lib url) (time_at_store w, text) c.
Proof.
  unfold scrape_article.
  destruct (is_valid_url lib url) eqn:Hv; simpl; [|now left].
  rewrite (is_valid_url_encode _ _ Hv).
  destruct (cache_hit w (md5 lib url) c); [now left|].
  destruct (scrape_fresh lib w url (md5 lib url) c) as [[[text c']|e] events] eqn:Hf;
    simpl; [|now left].
  apply scrape_fresh_ok in Hf as [[-> _]|[-> _]]; [now left | right; now exists text].
Qed.

(** C7.  The cache never holds more than 50 entries after an insert, and
    no call of [scrape_article] makes it exceed 50; inserting 51 entries of
    distinct keys into the empty cache leaves exactly 50; and when an insert
    evicts, the entry removed is one whose timestamp no entry of the cache
    undercuts. *)
Theorem cache_capacity_invariant (lib : library) (w : world) (url : pystr)
    (key : pystr) (v : cache_entry) (c : cache)
    (entries : list (pystr * cache_entry)) :
  length c <= 50 ->
  NoDup (map fst entries) ->
  length entries = 51 ->
  length (cache_store key v c) <= 50 /\
  length (snd (fst (scrape_article lib w url c))) <= 50 /\
  length (cache_store_all entries []) = 50 /\
  (50 < length (cache_set key v c) ->
   exists oldest entry,
     oldest_key (cache_set key v c) = Some oldest /\
     In (oldest, entry) (cache_set key v c) /\
     (forall k e, In (k, e) (cache_set key v c) -> (fst entry <= fst e)%Q) /\
     cache_store key v c = cache_del oldest (cache_set key v c)).
Proof.
  intros Hc Hnd Hlen. split; [|split; [|split]].
  - now apply cache_store_length.
  - destruct (scrape_article_cache lib w url c) as [->|[text ->]];
      [exact Hc | now apply cache_store_length].
  - rewrite cache_store_all_length; auto.
    + rewrite Hlen. reflexivity.
    + simpl. unfold cache_capacity. lia.
  - intros Hbig.
    destruct (@oldest_key_min (cache_set key v c)) as (o & e & Ho & Hin & Hmin).
    { intros H. rewrite H in Hbig. simpl in Hbig. lia. }
    exists o, e. repeat split; try assumption.
    unfold cache_store. apply Nat.ltb_lt in Hbig.
    unfold cache_capacity. now rewrite Hbig, Ho.
Qed.

Lemma example_entries_distinct : NoDup (map fst example_entries).
Proof.
  unfold example_entries. rewrite map_map. simpl fst.
  apply Injective_map_NoDup; [|apply seq_NoDup].
  intros i j H. injection H as H. now apply Nat2N.inj.
Qed.

Lemma cache_capacity_witness :
  length (cache_store_all example_entries []) = 50.
Proof.
  refine (proj1 (proj2 (proj2
            (@cache_capacity_invariant reference_library not_found_world
               article_url [] (0%Q, []) [] example_entries _ _ _)))).
  - simpl. lia.
  - exact example_entries_distinct.
  - reflexivity.
Defined.

(** * Properties of [scrape_article] *)

Lemma cache_hit_iff (w : world) (key : pystr) (c : cache) (t : Q) (body : pystr) :
  cache_get key c = Some (t, body) ->
  ((time_at_lookup w - t < 3600)%Q -> cache_hit w key c = Some body) /\
  (~ (time_at_lookup w - t < 3600)%Q -> cache_hit w key c = None).
Proof.
  intros Hget. unfold cache_hit, cache_ttl. rewrite Hget. split; intros H.
  - apply Qlt_bool_iff in H. now rewrite H.
  - destruct (Qlt_bool (time_at_lookup w - t) 3600) eqn:Hlt; [|reflexivity].
    apply Qlt_bool_iff in Hlt. contradiction.
Qed.

Lemma scrape_article_hit (lib : library) (w : world) (url : pystr) (c : cache)
    (body : pystr) :
  is_valid_url lib url = true ->
  cache_hit w (md5 lib url) c = Some body ->
  scrape_article lib w url c = (Ok (cached_marker ++ body), c, []).
Proof.
  intros Hv Hhit. unfold scrape_article.
  now rewrite Hv, (is_valid_url_encode _ _ Hv), Hhit.
Qed.

Lemma scrape_article_miss (lib : library) (w : world) (url : pystr) (c : cache) :
  is_valid_url lib url = true ->
  cache_hit w (md5 lib url) c = None ->
  scrape_article lib w url c =
  match scrape_fresh lib w url (md5 lib url) c with
  | (Ok (text, c'), events) => (Ok text, c', events)
  | (Raise e, events) => (Ok (handle_exception e), c, events)
  end.
Proof.
  intros Hv Hhit. unfold scrape_article.
  now rewrite Hv, (is_valid_url_encode _ _ Hv), Hhit.
Qed.

Lemma fetch_starts_with_a_request (w : world) (url : pystr) :
  hd_error (snd (fetch w url)) = Some (EvGet url).
Proof.
  unfold fetch. change (seq 0 max_retries) with (0 :: [1; 2]).
  generalize [1; 2]. intros rest. cbn [fetch_loop].
  destruct (attempt_once w 0) as [r0|e0]; [reflexivity|].
  destruct (is_request_exception e0); [|reflexivity].
  destruct (Nat.eqb 0 (max_retries - 1)); [reflexivity|].
  now destruct (fetch_loop w url rest).
Qed.

Lemma scrape_fresh_requests (lib : library) (w : world) (url key : pystr) (c : cache) :
  get_random_headers w = Ok tt ->
  hd_error (snd (scrape_fresh lib w url key c)) = Some (EvGet url).
Proof.
  intros Hh. unfold scrape_fresh. rewrite Hh.
  pose proof (fetch_starts_with_a_request w url) as Hf.
  now destruct (fetch w url).
Qed.

Lemma cache_set_absent (key : pystr) (v : cache_entry) (c : cache) :
  cache_get key c = None -> cache_set key v c = c ++ [(key, v)].
Proof.
  induction c as [|[k v0] c IH]; simpl; [reflexivity|].
  destruct (pystr_eqb k key); [discriminate|]. intros H. now rewrite IH.
Qed.

Lemma cache_set_length_present (key : pystr) (v e : cache_entry) (c : cache) :
  cache_get key c = Some e -> length (cache_set key v c) = length c.
Proof.
  induction c as [|[k v0] c IH]; simpl; [discriminate|].
  destruct (pystr_eqb k key); [reflexivity|]. intros H. simpl. now rewrite IH.
Qed.

Lemma cache_get_none_not_in (key : pystr) (c : cache) (e : cache_entry) :
  cache_get key c = None -> ~ In (key, e) c.
Proof.
  induction c as [|[k v0] c IH]; simpl; [tauto|].
  destruct (pystr_eqb k key) eqn:Hk; [discriminate|].
  intros H [Heq|Hin]; [|now apply IH].
  injection Heq as -> _. now rewrite pystr_eqb_refl in Hk.
Qed.

Lemma oldest_from_snoc (l : cache) (x : pystr * cache_entry) :
  forall best,
    oldest_from best (l ++ [x])
    = if Qlt_bool (fst (snd x)) (fst (snd (oldest_from best l)))
      then x else oldest_from best l.
Proof.
  induction l as [|kv l IH]; intros best; simpl; [reflexivity|].
  destruct (Qlt_bool (fst (snd kv)) (fst (snd best))); apply IH.
Qed.

(** Written by a clock that is not behind the timestamps of the cache, into
    a cache within its capacity, an entry is there after the write. *)
Lemma cache_store_retains (key : pystr) (t : Q) (text : pystr) (c : cache) :
  length c <= cache_capacity ->
  (forall k e, In (k, e) c -> (fst e <= t)%Q) ->
  cache_get key (cache_store key (t, text) c) = Some (t, text).
Proof.
  intros Hlen Hclock. unfold cache_store.
  destruct (cache_get key c) as [e|] eqn:Hget.
  - rewrite (cache_set_length_present key (t, text) c Hget).
    assert (Hlt : Nat.ltb cache_capacity (length c) = false)
      by now apply Nat.ltb_ge.
    rewrite Hlt. apply cache_get_set_same.
  - destruct (Nat.ltb cache_capacity (length (cache_set key (t, text) c))) eqn:Hlt;
      [|apply cache_get_set_same].
    assert (Hold : exists o eo,
               oldest_key (cache_set key (t, text) c) = Some o /\ In (o, eo) c).
    { rewrite (cache_set_absent key (t, text) c Hget) in *.
      destruct c as [|kv rest]; [simpl in Hlt; discriminate|].
      cbn [app oldest_key]. rewrite oldest_from_snoc.
      destruct (oldest_from_min rest kv) as [Hin _].
      destruct (oldest_from kv rest) as [o eo] eqn:Ho.
      assert (Hle : (fst eo <= t)%Q) by exact (Hclock o eo Hin).
      apply Qlt_bool_false in Hle. cbn [fst snd]. rewrite Hle.
      now exists o, eo. }
    destruct Hold as (o & eo & -> & Hin).
    assert (Hne : key <> o).
    { intros <-. exact (@cache_get_none_not_in key c eo Hget Hin). }
    rewrite (cache_get_del_other _ Hne).
    apply cache_get_set_same.
Qed.



Lemma scrape_all_hits (lib : library) (url : pystr) (c : cache) (ws : list world) :
  is_valid_url lib url = true ->
  (forall w, In w ws -> exists body, cache_hit w (md5 lib url) c = Some body) ->
  scrape_all lib ws url c = c.
Proof.
  intros Hv. induction ws as [|w ws IH]; intros Hhits; [reflexivity|].
  simpl. destruct (Hhits w (or_introl eq_refl)) as [body Hb].
  rewrite (@scrape_article_hit lib w url c body Hv Hb). simpl.
  apply IH. intros w' Hw'. apply Hhits. now right.
Qed.

Lemma cache_store_keeps (key k : pystr) (v e : cache_entry) (c : cache) :
  cache_get k c = Some e ->
  cache_get k (cache_store key v c) = Some e
  \/ (k = key /\ cache_get k (cache_store key v c) = Some v)
  \/ (cache_capacity < length (cache_set key v c)
      /\ oldest_key (cache_set key v c) = Some k).
Proof.
  intros Hget. unfold cache_store.
  assert (Hset : cache_get k (cache_set key v c) = Some e
                 \/ (k = key /\ cache_get k (cache_set key v c) = Some v)).
  { destruct (list_eq_dec N.eq_dec k key) as [->|Hne].
    - right. split; [reflexivity | apply cache_get_set_same].
    - left. now rewrite cache_get_set_other. }
  destruct (Nat.ltb cache_capacity (length (cache_set key v c))) eqn:Hlt.
  - apply Nat.ltb_lt in Hlt.
    destruct (oldest_key (cache_set key v c)) as [o|] eqn:Ho.
    + destruct (list_eq_dec N.eq_dec k o) as [->|Hne].
      * right. right. now split.
      * rewrite (cache_get_del_other _ Hne).
        destruct Hset as [H|H]; [now left | right; now left].
    + destruct Hset as [H|H]; [now left | right; now left].
  - destruct Hset as [H|H]; [now left | right; now left].
Qed.

(** C10.  A hit changes nothing in the cache, and so does any run of hits:
    the timestamp of an entry is the one written with it.  Whether a lookup
    hits depends on that timestamp and the clock alone: below an age of 3600
    it hits, from 3600 on it misses.  An entry, expired or not, is still
    stored after any call, for any URL, unless that call stored a fresh
    result under the same key or evicted the entry as the oldest of a cache
    grown beyond 50. *)
Theorem cache_entry_lifetime (lib : library) (url : pystr) (c : cache)
    (t : Q) (body : pystr) :
  is_valid_url lib url = true ->
  cache_get (md5 lib url) c = Some (t, body) ->
  (forall w, (time_at_lookup w - t < 3600)%Q ->
     scrape_article lib w url c = (Ok (cached_marker ++ body), c, [])) /\
  (forall ws, (forall w, In w ws -> (time_at_lookup w - t < 3600)%Q) ->
     scrape_all lib ws url c = c) /\
  (forall w, ~ (time_at_lookup w - t < 3600)%Q -> cache_hit w (md5 lib url) c = None) /\
  (forall w url' k e,
     cache_get k c = Some e ->
     let c' := snd (fst (scrape_article lib w url' c)) in
     cache_get k c' = Some e
     \/ (k = md5 lib url' /\ exists text, cache_get k c' = Some (time_at_store w, text))
     \/ (exists v, 50 < length (cache_set (md5 lib url') v c)
                   /\ oldest_key (cache_set (md5 lib url') v c) = Some k)).
Proof.
  intros Hv Hget. split; [|split; [|split]].
  - intros w Hage. apply scrape_article_hit; [exact Hv|].
    now apply (@cache_hit_iff w _ _ _ _ Hget).
  - intros ws Hages. apply scrape_all_hits; [exact Hv|].
    intros w Hw. exists body. apply (@cache_hit_iff w _ _ _ _ Hget). now apply Hages.
  - intros w Hage. now apply (@cache_hit_iff w _ _ _ _ Hget).
  - intros w url' k e Hk c'. subst c'.
    destruct (scrape_article_cache lib w url' c) as [->|[text ->]]; [now left|].
    destruct (@cache_store_keeps (md5 lib url') k (time_at_store w, text) e c Hk)
      as [H|[[-> H]|[H1 H2]]].
    + now left.
    + right. left. split; [reflexivity | now exists text].
    + right. right. now exists (time_at_store w, text).
Qed.

Lemma cache_entry_lifetime_witness :
  scrape_all reference_library
    [world_at 10 (Ok (page_response 200 "text/html" (document [])));
     world_at 3599 (Raise ConnectionError)]
    article_url article_cache
  = article_cache.
Proof.
  refine (proj1 (proj2 (@cache_entry_lifetime reference_library article_url
                          article_cache 0 (py "The body of the article.") _ _))
            _ _).
  - vm_compute. reflexivity.
  - vm_compute. reflexivity.
  - intros w [<-|[<-|[]]]; vm_compute; reflexivity.
Defined.

(** ** The content type check *)

Lemma starts_with_app (sub b : pystr) : starts_with sub (sub ++ b) = true.
Proof.
  induction sub as [|x sub IH]; [reflexivity|].
  simpl. now rewrite N.eqb_refl, IH.
Qed.

Lemma contains_app (sub a b : pystr) : contains sub (a ++ sub ++ b) = true.
Proof.
  induction a as [|x a IH].
  - simpl app. destruct (sub ++ b) eqn:Hs.
    + destruct sub; [reflexivity | discriminate].
    + simpl. rewrite <- Hs. now rewrite starts_with_app.
  - simpl. rewrite IH. apply orb_true_r.
Qed.

Lemma infix_split (A : Type) (n m : nat) (y : list A) :
  exists a b, y = a ++ firstn n (skipn m y) ++ b.
Proof.
  exists (firstn m y), (skipn n (skipn m y)).
  now rewrite (firstn_skipn n), (firstn_skipn m).
Qed.

(** A header whose media type is [text/html] passes the test of the code. *)
Lemma mime_type_html_contains (header : pystr) :
  spec_mime_type header = py "text/html" ->
  contains (py "text/html") (lower header) = true.
Proof.
  unfold spec_mime_type, strip. intros H.
  destruct (split_on_head 59%N (lower header)) as (l & ls & Heq & Hl).
  rewrite Heq in H. simpl hd in H.
  rewrite rdrop_firstn, lstrip_skipn in H.
  destruct (infix_split (length (rstrip (skipn (span_len isspace l) l)))
              (span_len isspace l) l) as (a & b & Hab).
  rewrite H in Hab.
  rewrite <- (firstn_skipn (length l) (lower header)), <- Hl, Hab.
  rewrite <- !app_assoc. apply contains_app.
Qed.

Lemma scrape_article_fetched (lib : library) (w : world) (url : pystr) (c : cache)
    (r : response) (events : list event) :
  is_valid_url lib url = true ->
  cache_hit w (md5 lib url) c = None ->
  get_random_headers w = Ok tt ->
  fetch w url = (Ok (Some r), events) ->
  scrape_article lib w url c =
  match check_content_type lib w (md5 lib url) c r with
  | Ok (text, c') => (Ok text, c', events)
  | Raise e => (Ok (handle_exception e), c, events)
  end.
Proof.
  intros Hv Hmiss Hh Hf. rewrite scrape_article_miss by assumption.
  unfold scrape_fresh. rewrite Hh, Hf. cbn [bind].
  now destruct (check_content_type lib w (md5 lib url) c r) as [[text c']|e].
Qed.

(** C9, as the code has it.  A fetched response is refused with the
    content type message exactly when its [content-type] header, in lower
    case, does not hold the text [text/html] anywhere; otherwise the page goes
    on to extraction.  A header whose media type is [text/html] holds that
    text, so such a response is never refused for its content type. *)
Theorem content_type_check (lib : library) (w : world) (url : pystr) (c : cache)
    (r : response) (events : list event) :
  is_valid_url lib url = true ->
  cache_hit w (md5 lib url) c = None ->
  get_random_headers w = Ok tt ->
  fetch w url = (Ok (Some r), events) ->
  let content_type := lower (value_of (content_type_header r)) in
  (contains (py "text/html") content_type = false ->
   scrape_article lib w url c
   = (Ok (invalid_content_type_message content_type), c, events)) /\
  (contains (py "text/html") content_type = true ->
   scrape_article lib w url c =
   match extract_page lib w (md5 lib url) c r with
   | Ok (text, c') => (Ok text, c', events)
   | Raise e => (Ok (handle_exception e), c, events)
   end) /\
  (spec_mime_type (value_of (content_type_header r)) = py "text/html" ->
   contains (py "text/html") content_type = true).
Proof.
  intros Hv Hmiss Hh Hf content_type. subst content_type.
  rewrite (@scrape_article_fetched lib w url c r events Hv Hmiss Hh Hf).
  unfold check_content_type.
  split; [|split].
  - intros Hc. now rewrite Hc.
  - intros Hc. now rewrite Hc.
  - apply mime_type_html_contains.
Qed.

Lemma content_type_check_witness :
  contains (py "text/html") (lower (py "text/html; charset=utf-8")) = true.
Proof.
  refine (proj2 (proj2
            (@content_type_check reference_library empty_page_world article_url []
               (page_response 200 "text/html; charset=utf-8" (document []))
               [EvGet article_url] _ _ _ _)) _).
  - vm_compute. reflexivity.
  - reflexivity.
  - reflexivity.
  - vm_compute. reflexivity.
  - vm_compute. reflexivity.
Defined.

(** C9, the claim as stated fails: the media type of
    [multipart/related; type=text/html] is not [text/html], yet the response
    is not refused for its content type: the page goes to extraction, which
    finds too little in it. *)
Lemma multipart_is_not_refused :
  spec_mime_type (py "multipart/related; type=text/html") = py "multipart/related" /\
  spec_mime_type (py "multipart/related; type=text/html") <> py "text/html" /\
  scrape_article reference_library multipart_world article_url []
  = (Ok insufficient_content_message, [], [EvGet article_url]) /\
  insufficient_content_message
  <> invalid_content_type_message (lower (py "multipart/related; type=text/html")).
Proof.
  split; [|split; [|split]].
  - vm_compute. reflexivity.
  - vm_compute. discriminate.
  - vm_compute. reflexivity.
  - vm_compute. discriminate.
Qed.

(** ** No exception reaches the caller *)

Lemma scrape_article_fetch_raises (lib : library) (w : world) (url : pystr)
    (c : cache) (e : exn) (events : list event) :
  is_valid_url lib url = true ->
  cache_hit w (md5 lib url) c = None ->
  (get_random_headers w = Raise e /\ events = [])
  \/ (get_random_headers w = Ok tt /\ fetch w url = (Raise e, events)) ->
  scrape_article lib w url c = (Ok (handle_exception e), c, events).
Proof.
  intros Hv Hmiss H. rewrite scrape_article_miss by assumption.
  unfold scrape_fresh.
  destruct H as [[-> ->]|[-> ->]]; reflexivity.
Qed.

Lemma scrape_article_page_raises (lib : library) (w : world) (url : pystr)
    (c : cache) (r : response) (e : exn) (events : list event) :
  is_valid_url lib url = true ->
  cache_hit w (md5 lib url) c = None ->
  get_random_headers w = Ok tt ->
  fetch w url = (Ok (Some r), events) ->
  contains (py "text/html") (lower (value_of (content_type_header r))) = true ->
  content r = Raise e
  \/ (exists soup, content r = Ok soup
                   /\ extract_comprehensive_metadata lib (sanitize soup) = Raise e) ->
  scrape_article lib w url c = (Ok (handle_exception e), c, events).
Proof.
  intros Hv Hmiss Hh Hf Hct H.
  rewrite (@scrape_article_fetched lib w url c r events Hv Hmiss Hh Hf).
  unfold check_content_type. rewrite Hct. cbn [negb]. unfold extract_page.
  destruct H as [->|(soup & -> & Hm)]; cbn [bind]; [reflexivity|].
  now rewrite Hm.
Qed.



(** * Properties of the selection across strategies *)

Lemma run_strategies_outcomes (strategies : list strategy) :
  forall state soup,
    fst (run_strategies strategies state soup)
    = fold_left select_step (strategy_outcomes strategies soup) state.
Proof.
  induction strategies as [|s rest IH]; intros state soup; [reflexivity|].
  simpl. destruct (s soup) as [outcome soup']. simpl. apply IH.
Qed.

Lemma nth_error_snoc (A : Type) (l : list A) (x : A) (j : nat) (y : A) :
  nth_error (l ++ [x]) j = Some y ->
  (j < length l /\ nth_error l j = Some y) \/ (j = length l /\ y = x).
Proof.
  intros H. destruct (Nat.lt_ge_cases j (length l)) as [Hlt|Hge].
  - left. split; [exact Hlt|]. now rewrite nth_error_app1 in H.
  - right. rewrite nth_error_app2 in H by exact Hge.
    destruct (j - length l) as [|k] eqn:Hk.
    + simpl in H. split; [lia | congruence].
    + simpl in H. now destruct k.
Qed.

Lemma select_step_selected (outcomes : list (result candidate)) (state : selection)
    (outcome : result candidate) :
  selected outcomes state -> selected (outcomes ++ [outcome]) (select_step state outcome).
Proof.
  destruct state as [[content score] metadata].
  intros Hsel.
  assert (Hkeep : (forall c', outcome = Ok c' -> 200 < length (content_of c') ->
                              (score_of c' <= score)%Q) ->
                  selected (outcomes ++ [outcome]) (content, score, metadata)).
  { intros Hlow. destruct Hsel as [(i & c & (Hn & Hlen & Hpos & Hmax) & -> & -> & ->)|
                                   (-> & -> & -> & Hno)].
    - left. exists i, c.
      assert (Hi : i < length outcomes) by (apply nth_error_Some; congruence).
      split; [|now repeat split].
      split; [now rewrite nth_error_app1|].
      split; [exact Hlen|]. split; [exact Hpos|].
      intros j c' Hj Hl'. apply nth_error_snoc in Hj as [[_ Hj]|[Hjl Heq]].
      + now apply (Hmax j c').
      + split; [now apply Hlow | lia].
    - right. split; [reflexivity|]. split; [reflexivity|]. split; [reflexivity|].
      intros c' Hin Hlen.
      apply in_app_or in Hin as [Hin|[Heq|[]]]; [now apply Hno|].
      now apply Hlow. }
  destruct outcome as [[[content' metadata'] score']|e].
  2: { simpl. apply Hkeep. discriminate. }
  simpl.
  destruct (Qlt_bool score score') eqn:Hlt; simpl.
  - destruct (Nat.ltb 200 (length content')) eqn:Hlen.
    + apply Qlt_bool_iff in Hlt. apply Nat.ltb_lt in Hlen.
      left. exists (length outcomes), (content', metadata', score').
      split; [|now repeat split].
      assert (Hbase : (0 <= score)%Q /\
                      forall j c', nth_error outcomes j = Some (Ok c') ->
                                   200 < length (content_of c') ->
                                   (score_of c' <= score)%Q).
      { destruct Hsel as [(i & c & (Hn & Hl & Hpos & Hmax) & -> & -> & ->)|
                          (-> & -> & -> & Hno)].
        - split; [now apply Qlt_le_weak|]. intros j c' Hj Hl'.
          now apply (Hmax j c').
        - split; [apply Qle_refl|]. intros j c' Hj Hl'.
          apply Hno; [|exact Hl']. eapply nth_error_In. exact Hj. }
      destruct Hbase as [Hnonneg Hbelow].
      split; [rewrite nth_error_app2 by lia; now rewrite Nat.sub_diag|].
      split; [exact Hlen|].
      split; [unfold score_of; simpl; eapply Qle_lt_trans; eassumption|].
      intros j c' Hj Hl'. apply nth_error_snoc in Hj as [[Hjl Hj]|[Hjl Heq]].
      * assert (Hc' : (score_of c' < score')%Q).
        { eapply Qle_lt_trans; [|exact Hlt]. now apply (Hbelow j c'). }
        unfold score_of at 2 4. simpl.
        split; [now apply Qlt_le_weak | intros _; exact Hc'].
      * injection Heq as ->. split; [apply Qle_refl | lia].
    + apply Hkeep. intros c' Hc' Hl'. injection Hc' as <-.
      unfold content_of in Hl'. simpl in Hl'.
      apply Nat.ltb_ge in Hlen. lia.
  - apply Hkeep. intros c' Hc' _. injection Hc' as <-.
    unfold score_of. simpl. now apply Qlt_bool_false.
Qed.

Lemma fold_select_step_selected (outcomes : list (result candidate)) :
  selected outcomes (fold_left select_step outcomes ([], 0%Q, None)).
Proof.
  induction outcomes as [|outcome outcomes IH] using rev_ind.
  - simpl. right. repeat split. intros c' [].
  - rewrite fold_left_app. simpl. now apply select_step_selected.
Qed.




(** * Properties of the tree operations *)

Lemma in_descendants_tag (d : node) (u : nat) (name : pystr)
    (attrs : list (pystr * pystr)) (cs : list node) :
  In d (descendants (Tag u name attrs cs)) <->
  exists c, In c cs /\ is_tag c = true /\ (d = c \/ In d (descendants c)).
Proof.
  simpl. rewrite in_flat_map. split.
  - intros (c & Hc & Hd). exists c. split; [exact Hc|].
    destruct (is_tag c); [|contradiction].
    split; [reflexivity|]. destruct Hd as [<-|Hd]; [now left | now right].
  - intros (c & Hc & Ht & Hd). exists c. split; [exact Hc|]. rewrite Ht.
    destruct Hd as [->|Hd]; [now left | now right].
Qed.

Lemma descendants_are_tags (n d : node) : In d (descendants n) -> is_tag d = true.
Proof.
  induction n as [s|u name attrs cs IH] using node_ind; [intros []|].
  intros Hd. apply in_descendants_tag in Hd as (c & Hc & Ht & [->|Hd]); [exact Ht|].
  rewrite Forall_forall in IH. now apply (IH c).
Qed.

Lemma descendants_trans (n el d : node) :
  In el (descendants n) -> In d (descendants el) -> In d (descendants n).
Proof.
  induction n as [s|u name attrs cs IH] using node_ind; [intros []|].
  intros Hel Hd. rewrite Forall_forall in IH.
  apply in_descendants_tag in Hel as (c & Hc & Ht & [->|Hel]);
    apply in_descendants_tag; exists c; repeat split; try assumption; right.
  - exact Hd.
  - now apply IH.
Qed.

Lemma resolve_descendants (u : nat) (soup d : node) :
  In d (descendants (resolve u soup)) -> In d (descendants soup).
Proof.
  unfold resolve.
  destruct (find (fun d => Nat.eqb (tag_uid d) u) (descendants soup)) as [el|] eqn:Hf.
  - apply find_some in Hf as [Hel _]. now apply descendants_trans.
  - intros [].
Qed.

(** What is left below a tree after [decompose] was below it before, under
    the same name, and is not the element removed. *)
Lemma decompose_descendants (u : nat) (n d' : node) :
  In d' (descendants (decompose u n)) ->
  exists d, In d (descendants n) /\ tag_name d' = tag_name d
            /\ tag_uid d' = tag_uid d /\ tag_uid d <> u.
Proof.
  revert d'. induction n as [s|v name attrs cs IH] using node_ind; intros d'; [intros []|].
  rewrite Forall_forall in IH. cbn [decompose]. intros Hd'.
  apply in_descendants_tag in Hd' as (c' & Hc' & Ht' & Hd').
  apply in_flat_map in Hc' as (c & Hc & Hc').
  destruct (is_tag c && Nat.eqb (tag_uid c) u) eqn:Hrm; [contradiction|].
  destruct Hc' as [<-|[]].
  assert (Htc : is_tag c = true) by (destruct c; [discriminate | reflexivity]).
  rewrite Htc in Hrm. simpl in Hrm. apply Nat.eqb_neq in Hrm.
  destruct Hd' as [->|Hd'].
  - exists c. split; [|destruct c; simpl; repeat split; assumption].
    apply in_descendants_tag. exists c. repeat split; try assumption. now left.
  - destruct (IH c Hc d' Hd') as (d & Hd & Hn & Hu & Hne).
    exists d. repeat split; try assumption.
    apply in_descendants_tag. exists c. repeat split; try assumption. now right.
Qed.

Lemma decompose_all_descendants (elements : list node) :
  forall soup d',
    In d' (descendants (decompose_all elements soup)) ->
    exists d, In d (descendants soup) /\ tag_name d' = tag_name d
              /\ tag_uid d' = tag_uid d /\ ~ In (tag_uid d) (map tag_uid elements).
Proof.
  unfold decompose_all.
  induction elements as [|el elements IH]; intros soup d' Hd'; simpl in *.
  - exists d'. repeat split; auto.
  - destruct (IH _ _ Hd') as (d1 & Hd1 & Hn1 & Hu1 & Hnot1).
    destruct (decompose_descendants _ _ _ Hd1) as (d & Hd & Hn & Hu & Hne).
    exists d. repeat split; try congruence.
    intros [Heq|Hin]; [congruence|]. apply Hnot1. congruence.
Qed.

(** A selector that looks at the element alone selects every element it
    matches. *)
Lemma select_under_complete (sel : selector) (d : node) :
  (forall ancestors, matches sel ancestors d = true) ->
  forall n ancestors, In d (descendants n) -> In d (select_under sel ancestors n).
Proof.
  intros Hm. induction n as [s|u name attrs cs IH] using node_ind;
    intros ancestors; [intros []|].
  rewrite Forall_forall in IH. intros Hd.
  apply in_descendants_tag in Hd as (c & Hc & Ht & Hd).
  cbn [select_under]. apply in_flat_map. exists c. split; [exact Hc|].
  apply in_or_app. destruct Hd as [->|Hd].
  - left. rewrite Hm. now left.
  - right. now apply IH.
Qed.

Lemma decompose_all_keeps_absent (name : pystr) (elements : list node) (soup : node) :
  no_tag_named name soup -> no_tag_named name (decompose_all elements soup).
Proof.
  intros Hno d' Hd'.
  destruct (decompose_all_descendants _ _ _ Hd') as (d & Hd & Hn & _).
  rewrite Hn. now apply Hno.
Qed.

Lemma decompose_selected_by_tag (t : string) (soup : node) :
  no_tag_named (py t) (decompose_all (select [by_tag t] soup) soup).
Proof.
  intros d' Hd' Hname.
  destruct (decompose_all_descendants _ _ _ Hd') as (d & Hd & Hn & _ & Hnot).
  apply Hnot. apply in_map. apply select_under_complete; [|exact Hd].
  intros ancestors. unfold matches. simpl.
  unfold matches_compound. simpl.
  rewrite (descendants_are_tags _ _ Hd). simpl.
  rewrite <- Hn, Hname. now rewrite pystr_eqb_refl.
Qed.

Lemma sanitize_removes (soup : node) :
  no_tag_named (py "nav") (sanitize soup) /\
  no_tag_named (py "header") (sanitize soup) /\
  no_tag_named (py "footer") (sanitize soup) /\
  no_tag_named (py "aside") (sanitize soup).
Proof.
  unfold sanitize, unwanted_selectors. cbn [fold_left].
  repeat split;
    repeat (first [ apply decompose_selected_by_tag
                  | apply decompose_all_keeps_absent ]).
Qed.

Lemma find_all_nil (names : list pystr) (soup : node) :
  (forall name, In name names -> no_tag_named name soup) ->
  find_all names soup = [].
Proof.
  intros Hno. unfold find_all.
  destruct (filter (name_in names) (descendants soup)) as [|d l] eqn:Hf;
    [reflexivity|].
  assert (Hin : In d (filter (name_in names) (descendants soup)))
    by (rewrite Hf; now left).
  apply filter_In in Hin as [Hd Hn]. unfold name_in in Hn.
  apply existsb_exists in Hn as (name & Hname & Heq).
  apply pystr_eqb_eq in Heq. exfalso. exact (Hno name Hname d Hd Heq).
Qed.

Lemma sanitize_no_unwanted (soup : node) :
  find_all unwanted_children (sanitize soup) = [].
Proof.
  destruct (sanitize_removes soup) as (Hnav & Hheader & Hfooter & Haside).
  apply find_all_nil. intros name [<-|[<-|[<-|[<-|[]]]]]; assumption.
Qed.

(** * The strategies and the tree *)

Lemma length_step_keeps_tree (soup : node) (state : node * option nat * Q) (u : nat) :
  find_all unwanted_children soup = [] ->
  fst (fst state) = soup ->
  fst (fst (length_step state u)) = soup.
Proof.
  intros Hno Hs. destruct state as [[soup0 best] score]. simpl in Hs. subst soup0.
  unfold length_step.
  assert (Hu : find_all unwanted_children (resolve u soup) = []).
  { unfold find_all in *.
    destruct (filter (name_in unwanted_children) (descendants (resolve u soup)))
      as [|d l] eqn:Hf; [reflexivity|].
    assert (Hin : In d (filter (name_in unwanted_children)
                          (descendants (resolve u soup))))
      by (rewrite Hf; now left).
    apply filter_In in Hin as [Hd Hn]. apply resolve_descendants in Hd.
    assert (Hin' : In d (filter (name_in unwanted_children) (descendants soup)))
      by (apply filter_In; now split).
    rewrite Hno in Hin'. contradiction. }
  rewrite Hu. cbn [decompose_all fold_left].
  now destruct (Qlt_bool score (length_score_of (resolve u soup))).
Qed.

Lemma length_heuristics_keeps_tree (soup : node) :
  find_all unwanted_children soup = [] ->
  snd (extract_by_length_heuristics soup) = soup.
Proof.
  intros Hno. unfold extract_by_length_heuristics.
  assert (H : forall candidates state,
             fst (fst state) = soup ->
             fst (fst (fold_left length_step candidates state)) = soup).
  { induction candidates as [|u candidates IH]; intros state Hs; [exact Hs|].
    simpl. apply IH. now apply length_step_keeps_tree. }
  specialize (H (map tag_uid (find_all length_candidates soup)) (soup, None, 0%Q) eq_refl).
  destruct (fold_left length_step _ _) as [[soup' best] score].
  simpl in H. subst soup'. now destruct best.
Qed.

Lemma semantic_keeps_tree (soup : node) : snd (extract_semantic_content soup) = soup.
Proof.
  unfold extract_semantic_content. now destruct (semantic_best soup) as [[b|] s].
Qed.

Lemma density_keeps_tree (lib : library) (soup : node) :
  snd (extract_by_text_density lib soup) = soup.
Proof.
  unfold extract_by_text_density.
  now destruct (fold_left _ _ _) as [[b|] s].
Qed.

Lemma readability_keeps_tree (soup : node) :
  snd (extract_readability_content soup) = soup.
Proof.
  unfold extract_readability_content.
  now destruct (fold_left _ _ _) as [[b|] s].
Qed.




(** * More on the text normaliser *)

Lemma span_le_no_run (x : char) (b : nat) (s a t : pystr) :
  on_suffixes (span_le x b) s -> s <> a ++ repeat x (S b) ++ t.
Proof.
  intros H ->. specialize (H (length a)). unfold span_le in H.
  rewrite skipn_app, skipn_all, Nat.sub_diag in H. cbn [skipn app] in H.
  rewrite span_len_repeat_app in H. lia.
Qed.

Lemma Forall_neq_not_in (x : char) (s : pystr) :
  Forall (fun c => c <> x) s -> ~ In x s.
Proof.
  intros H Hin. rewrite Forall_forall in H. now apply (H x Hin).
Qed.

Lemma good_lines_tidy (ls : list pystr) : Forall good_line ls -> Forall tidy ls.
Proof.
  intros H. eapply Forall_impl; [|exact H]. intros l Hl. apply Hl.
Qed.

(** X10.  The output of the normaliser holds no carriage return and no tab, no two
    spaces in a row, and no more than three [!], three [?] or three [.] in a
    row. *)
Theorem enhanced_text_cleaning_runs (text : pystr) :
  let out := enhanced_text_cleaning text in
  ~ In CR out /\ ~ In TAB out /\
  (forall a b, out <> a ++ [SP; SP] ++ b) /\
  (forall a b, out <> a ++ [BANG; BANG; BANG; BANG] ++ b) /\
  (forall a b, out <> a ++ [QMARK; QMARK; QMARK; QMARK] ++ b) /\
  (forall a b, out <> a ++ [DOT; DOT; DOT; DOT] ++ b).
Proof.
  intros out. subst out.
  destruct (enhanced_text_cleaning_lines text) as (ls & (Hg & _) & ->).
  destruct (tidy_join (good_lines_tidy Hg)) as (Hcr & Htab & Hsp & Hb & Hq & Hd).
  split; [now apply Forall_neq_not_in|].
  split; [now apply Forall_neq_not_in|].
  split; [intros a b; exact (span_le_no_run a b Hsp)|].
  split; [intros a b; exact (span_le_no_run a b Hb)|].
  split; [intros a b; exact (span_le_no_run a b Hq)|].
  intros a b; exact (span_le_no_run a b Hd).
Qed.

Lemma split_on_app (d : char) (a t : pystr) :
  split_on d (a ++ d :: t) = split_on d a ++ split_on d t.
Proof.
  induction a as [|c a IH]; cbn [app split_on].
  - now rewrite N.eqb_refl.
  - destruct (N.eqb c d); [now rewrite IH|].
    rewrite IH. destruct (split_on d a) as [|l ls] eqn:Hs; [|reflexivity].
    exfalso. destruct a as [|c' a']; cbn [split_on] in Hs; [discriminate|].
    destruct (N.eqb c' d); [discriminate|].
    destruct (split_on d a'); discriminate.
Qed.

Lemma well_spaced_app_r (a b : list pystr) :
  well_spaced (a ++ b) -> well_spaced b.
Proof.
  intros H. apply (well_spaced_skipn (length a)) in H.
  now rewrite skipn_app, skipn_all, Nat.sub_diag in H.
Qed.

Lemma stripped_strip_eq (ls : list pystr) :
  clean_lines ls -> strip (join [LF] ls) = join [LF] ls.
Proof.
  intros (Hg & _ & Hl & Hr). rewrite strip_join by exact Hg. now rewrite Hl, Hr.
Qed.

(** X11.  The output of the normaliser has no whitespace at either end; each of
    its lines is empty or has more than five characters and no whitespace at
    either end; and it holds no three line feeds in a row, that is, no two
    empty lines in a row. *)
Theorem enhanced_text_cleaning_line_shape (text : pystr) :
  let out := enhanced_text_cleaning text in
  strip out = out /\
  Forall (fun line => line = [] \/ (5 < length line /\ strip line = line))
         (split_on LF out) /\
  (forall a b, out <> a ++ [LF; LF; LF] ++ b).
Proof.
  intros out. subst out.
  destruct (enhanced_text_cleaning_lines text) as (ls & Hc & ->).
  split; [now apply stripped_strip_eq|].
  destruct Hc as (Hg & Hw & _ & _).
  assert (Hlf : Forall (Forall (fun c => c <> LF)) ls).
  { eapply Forall_impl; [|exact Hg]. intros l H. apply H. }
  destruct ls as [|l0 ls0].
  { split; [repeat constructor; now left|].
    intros a b H. destruct a; discriminate. }
  set (ls := l0 :: ls0) in *.
  assert (Hs : split_on LF (join [LF] ls) = ls) by (apply split_join; easy).
  split.
  - rewrite Hs. eapply Forall_impl; [|exact Hg].
    intros l (_ & _ & Hst & Hk). unfold keep_line in Hk.
    apply orb_true_iff in Hk as [Hk|Hk].
    + left. now apply length_zero_nil.
    + right. apply Nat.ltb_lt in Hk. split; [exact Hk | now apply stripped_strip].
  - intros a b H. rewrite H in Hs.
    change (a ++ [LF; LF; LF] ++ b) with (a ++ LF :: ([LF; LF] ++ b)) in Hs.
    rewrite split_on_app in Hs. cbn [app split_on] in Hs.
    rewrite N.eqb_refl in Hs. rewrite <- Hs in Hw.
    apply well_spaced_app_r in Hw. cbn in Hw. destruct Hw as [Hw _].
    now apply Hw.
Qed.

(** ** Lengths *)

Lemma re_sub_length (m : matcher) (repl : pystr) :
  (forall s len, m s = Some (S len) -> length repl <= S len /\ S len <= length s) ->
  forall s, length (re_sub m repl s) <= length s.
Proof.
  intros Hm s. pattern s, (re_sub m repl s). apply re_sub_ind; clear s.
  - reflexivity.
  - intros c rest len Hmatch IH. destruct (Hm _ _ Hmatch) as [H1 H2].
    cbn [length] in *. rewrite length_app, length_skipn in *. lia.
  - intros c rest _ IH. cbn [length]. lia.
Qed.

Lemma m_line_ending_bounds (s : pystr) (len : nat) :
  m_line_ending s = Some (S len) -> 1 <= S len /\ S len <= length s.
Proof.
  destruct s as [|c [|d rest]]; cbn; try discriminate.
  - destruct (N.eqb c CR); intros H; inversion H; lia.
  - destruct (N.eqb c CR); [|discriminate].
    destruct (N.eqb d LF); intros H; inversion H; lia.
Qed.

Lemma m_tab_bounds (s : pystr) (len : nat) :
  m_tab s = Some (S len) -> 1 <= S len /\ S len <= length s.
Proof.
  destruct s as [|c rest]; cbn; [discriminate|].
  destruct (N.eqb c TAB); intros H; inversion H; lia.
Qed.

Lemma m_run_bounds (x : char) (n : nat) (s : pystr) (len : nat) :
  m_run x n s = Some (S len) -> n <= S len /\ S len <= length s.
Proof.
  unfold m_run. destruct (Nat.leb_spec n (span_len (is_char x) s)) as [Hn|Hn];
    [|discriminate].
  intros Hk. inversion Hk as [H1]. pose proof (span_len_le_length (is_char x) s). lia.
Qed.

Lemma upto_last_lf_le (s : pystr) : upto_last_lf s <= length s.
Proof.
  induction s as [|c rest IH]; cbn [upto_last_lf length]; [lia|].
  destruct (upto_last_lf rest); [destruct (N.eqb c LF)|]; lia.
Qed.

Lemma upto_last_lf_count (s : pystr) : 1 <= count_lf s -> 1 <= upto_last_lf s.
Proof.
  unfold count_lf. induction s as [|c rest IH]; cbn [filter upto_last_lf length]; [lia|].
  unfold is_char at 1. destruct (N.eqb c LF); cbn [length].
  - intros _. destruct (upto_last_lf rest); lia.
  - intros H. specialize (IH H). destruct (upto_last_lf rest); lia.
Qed.

Lemma m_blank_lines_bounds (s : pystr) (len : nat) :
  m_blank_lines s = Some (S len) -> 2 <= S len /\ S len <= length s.
Proof.
  destruct s as [|c rest]; cbn [m_blank_lines]; [discriminate|].
  destruct (N.eqb c LF); [|discriminate].
  set (run := firstn (span_len isspace rest) rest).
  destruct (Nat.leb_spec 2 (count_lf run)) as [Hn|Hn]; [|discriminate].
  intros Hk. inversion Hk as [H1].
  pose proof (upto_last_lf_le run). pose proof (@upto_last_lf_count run).
  assert (length run <= length rest) by (unfold run; rewrite length_firstn; lia).
  cbn [length]. lia.
Qed.

Lemma m_spaces_around_lf_bounds (s : pystr) (len : nat) :
  m_spaces_around_lf s = Some (S len) -> 1 <= S len /\ S len <= length s.
Proof.
  unfold m_spaces_around_lf.
  destruct (skipn (span_len (is_char SP) s) s) as [|c rest] eqn:Hs; [discriminate|].
  destruct (N.eqb c LF); [|discriminate].
  intros H. inversion H as [H1].
  pose proof (span_len_le_length (is_char SP) rest).
  assert (length (skipn (span_len (is_char SP) s) s) = S (length rest))
    by now rewrite Hs.
  rewrite length_skipn in *. lia.
Qed.

Lemma substitutions_length (text : pystr) :
  length (substitutions text) <= length text.
Proof.
  unfold substitutions. cbv zeta.
  repeat match goal with
  | |- length (re_sub ?m ?repl ?s) <= _ =>
      transitivity (length s); [apply re_sub_length|]
  end; try reflexivity; intros s len H.
  - apply m_run_bounds in H. cbn [length]. lia.
  - apply m_run_bounds in H. cbn [length]. lia.
  - apply m_run_bounds in H. cbn [length]. lia.
  - apply m_spaces_around_lf_bounds in H. cbn [length]. lia.
  - apply m_blank_lines_bounds in H. cbn [length]. lia.
  - apply m_run_bounds in H. cbn [length]. lia.
  - apply m_tab_bounds in H. cbn [length]. lia.
  - apply m_line_ending_bounds in H. cbn [length]. lia.
Qed.

Lemma join_split_on (d : char) (s : pystr) : join [d] (split_on d s) = s.
Proof.
  induction s as [|c rest IH]; [reflexivity|]. cbn [split_on].
  destruct (N.eqb_spec c d) as [->|Hne].
  - destruct (split_on d rest) as [|l ls] eqn:Hs.
    + destruct (split_on_head d rest) as (l & ls & H & _). congruence.
    + change (join [d] ([] :: l :: ls)) with ([] ++ [d] ++ join [d] (l :: ls)).
      now rewrite IH.
  - destruct (split_on d rest) as [|l ls] eqn:Hs.
    + destruct (split_on_head d rest) as (l & ls & H & _). congruence.
    + destruct ls as [|l2 ls]; cbn [join] in *; now rewrite <- IH.
Qed.

Lemma length_join (ls : list pystr) :
  length (join [LF] ls) = list_sum (map (@length char) ls) + pred (length ls).
Proof.
  destruct ls as [|l ls]; [reflexivity|].
  revert l. induction ls as [|l2 ls IH]; intros l;
    [unfold list_sum; cbn [join map fold_right length pred]; lia|].
  rewrite join_cons2, !length_app, IH.
  unfold list_sum. cbn [map fold_right length pred]. lia.
Qed.

Lemma strip_length (l : pystr) : length (strip l) <= length l.
Proof.
  unfold strip. rewrite rdrop_firstn, length_firstn, lstrip_skipn, length_skipn. lia.
Qed.

Lemma cleaned_lines_measure (ls : list pystr) :
  list_sum (map (@length char) (cleaned_lines ls)) <= list_sum (map (@length char) ls)
  /\ length (cleaned_lines ls) <= length ls.
Proof.
  unfold cleaned_lines. induction ls as [|l ls [IH1 IH2]]; [cbn; lia|].
  cbn [map filter]. pose proof (strip_length l).
  destruct (keep_line (strip l)); unfold list_sum in *; cbn [map fold_right length] in *; lia.
Qed.

Lemma result_lines_measure (ls : list pystr) :
  forall k,
    list_sum (map (@length char) (result_lines k ls)) <= list_sum (map (@length char) ls)
    /\ length (result_lines k ls) <= length ls.
Proof.
  induction ls as [|l ls IH]; intros k; [cbn; lia|].
  cbn [result_lines].
  destruct (Nat.eqb (length l) 0); [destruct (Nat.leb (S k) 1)|];
    match goal with
    | |- context [result_lines ?j ls] => destruct (IH j)
    end; unfold list_sum in *; cbn [map fold_right length] in *; lia.
Qed.

Lemma lines_length_le (z : pystr) :
  length (strip (join [LF] (result_lines 0 (cleaned_lines (split_on LF z)))))
  <= length z.
Proof.
  etransitivity; [apply strip_length|].
  rewrite length_join.
  destruct (result_lines_measure (cleaned_lines (split_on LF z)) 0) as [H1 H2].
  destruct (cleaned_lines_measure (split_on LF z)) as [H3 H4].
  pose proof (length_join (split_on LF z)) as Hj.
  rewrite join_split_on in Hj. lia.
Qed.

(** X12.  The normaliser never lengthens a text. *)
Theorem enhanced_text_cleaning_never_lengthens (text : pystr) :
  length (enhanced_text_cleaning text) <= length text.
Proof.
  destruct text as [|c r]; [reflexivity|].
  unfold enhanced_text_cleaning.
  etransitivity; [apply lines_length_le | apply substitutions_length].
Qed.

(** X13.  A text of at most five characters is normalised to the empty string. *)
Theorem enhanced_text_cleaning_short (text : pystr) :
  length text <= 5 -> enhanced_text_cleaning text = [].
Proof.
  intros Hlen.
  assert (Hle : length (enhanced_text_cleaning text) <= length text).
  { destruct text as [|c r]; [reflexivity|]. unfold enhanced_text_cleaning.
    etransitivity; [apply lines_length_le | apply substitutions_length]. }
  destruct (enhanced_text_cleaning_lines text) as (ls & (Hg & _ & Hl & _) & Heq).
  rewrite Heq in *. destruct ls as [|l ls]; [reflexivity|]. exfalso.
  assert (Hl0 : l <> []).
  { intros ->. cbn in Hl. destruct (ldrop_suffix is_empty ls) as [k Hs].
    rewrite Hl in Hs. pose proof (length_skipn_le k ls) as Hk.
    rewrite <- Hs in Hk. cbn [length] in Hk. lia. }
  inversion Hg as [|? ? (_ & _ & _ & Hk) _]; subst.
  unfold keep_line in Hk. apply orb_true_iff in Hk as [Hk|Hk].
  - apply length_zero_nil in Hk. contradiction.
  - apply Nat.ltb_lt in Hk. rewrite length_join in Hle.
    unfold list_sum in Hle. cbn [map fold_right] in Hle. lia.
Qed.

Lemma enhanced_text_cleaning_short_witness :
  enhanced_text_cleaning (py "Hello") = [].
Proof.
  apply (@enhanced_text_cleaning_short (py "Hello")). cbn. lia.
Defined.

(** ** Characters *)

Lemma re_sub_Forall_matched (P : char -> Prop) (m : matcher) (repl : pystr) :
  (forall s len, Forall P s -> m s = Some (S len) -> Forall P repl) ->
  forall s, Forall P s -> Forall P (re_sub m repl s).
Proof.
  intros Hm s. pattern s, (re_sub m repl s). apply re_sub_ind; clear s.
  - intros _. constructor.
  - intros c rest len Hmatch IH Hs. apply Forall_app. split.
    + exact (Hm _ _ Hs Hmatch).
    + apply IH. apply Forall_skipn_keep. now inversion Hs.
  - intros c rest _ IH Hs. inversion Hs; subst. constructor; auto.
Qed.

Lemma m_run_head (x : char) (n : nat) (s : pystr) (len : nat) :
  m_run x n s = Some (S len) -> exists rest, s = x :: rest.
Proof.
  unfold m_run. destruct (Nat.leb n (span_len (is_char x) s)); [|discriminate].
  intros H. inversion H as [Hk]. destruct s as [|c rest]; [discriminate|].
  cbn [span_len] in Hk. destruct (is_char x c) eqn:Hc; [|discriminate].
  apply N.eqb_eq in Hc. subst c. now exists rest.
Qed.

Lemma m_spaces_around_lf_holds_lf (s : pystr) (len : nat) :
  m_spaces_around_lf s = Some len -> In LF s.
Proof.
  unfold m_spaces_around_lf.
  destruct (skipn (span_len (is_char SP) s) s) as [|c rest] eqn:Hs; [discriminate|].
  destruct (N.eqb_spec c LF) as [->|Hne]; [|discriminate].
  intros _. apply (@In_skipn_in _ LF (span_len (is_char SP) s)).
  rewrite Hs. now left.
Qed.

Lemma known_head (text : pystr) (x : char) (s : pystr) :
  Forall (known text) (x :: s) -> known text x.
Proof. intros H. now inversion H. Qed.

Lemma Forall_one (A : Type) (P : A -> Prop) (x : A) : P x -> Forall P [x].
Proof. intros H. constructor; [exact H | constructor]. Qed.

Lemma known_run (text : pystr) (x : char) (n j : nat) (s : pystr) :
  Forall (known text) s ->
  Forall (known text) (re_sub (m_run x n) (repeat x j) s).
Proof.
  apply re_sub_Forall_matched. intros t len Ht Hm.
  apply m_run_head in Hm as [rest ->].
  apply Forall_forall. intros c Hc. apply repeat_spec in Hc. subst c.
  exact (known_head Ht).
Qed.

Lemma known_substitutions (text s : pystr) :
  Forall (known text) s -> Forall (known text) (substitutions s).
Proof.
  intros H. unfold substitutions. cbv zeta.
  apply (@known_run text DOT 4 3). apply (@known_run text QMARK 3 3).
  apply (@known_run text BANG 3 3).
  apply re_sub_Forall_matched.
  { intros t len Ht Hm. apply m_spaces_around_lf_holds_lf in Hm.
    rewrite Forall_forall in Ht. apply Forall_one. now apply Ht. }
  apply re_sub_Forall_matched.
  { intros t len Ht Hm. destruct t as [|c rest]; [discriminate|].
    cbn [m_blank_lines] in Hm. destruct (N.eqb_spec c LF) as [->|Hne]; [|discriminate].
    pose proof (known_head Ht). constructor; [assumption | now apply Forall_one]. }
  apply (@known_run text SP 2 1).
  apply re_sub_Forall_matched.
  { intros t len Ht Hm. destruct t as [|c rest]; [discriminate|].
    cbn [m_tab] in Hm. destruct (N.eqb_spec c TAB) as [->|Hne]; [|discriminate].
    apply Forall_one.
    destruct (known_head Ht) as [Hin|[[Heq _]|[Heq _]]]; try discriminate.
    right. right. now split. }
  apply re_sub_Forall_matched.
  { intros t len Ht Hm. destruct t as [|c rest]; [discriminate|].
    cbn [m_line_ending] in Hm. destruct (N.eqb_spec c CR) as [->|Hne]; [|discriminate].
    apply Forall_one.
    destruct (known_head Ht) as [Hin|[[Heq _]|[Heq _]]]; try discriminate.
    right. left. now split. }
  exact H.
Qed.

Lemma known_strip (text l : pystr) :
  Forall (known text) l -> Forall (known text) (strip l).
Proof.
  intros H. unfold strip. rewrite rdrop_firstn, lstrip_skipn.
  now apply Forall_firstn_keep, Forall_skipn_keep.
Qed.

Lemma known_join (text : pystr) (ls : list pystr) :
  (2 <= length ls -> known text LF) ->
  Forall (Forall (known text)) ls -> Forall (known text) (join [LF] ls).
Proof.
  destruct ls as [|l ls]; [constructor|].
  revert l. induction ls as [|l2 ls IH]; intros l Hlf H.
  - now inversion H.
  - rewrite join_cons2. inversion H; subst.
    apply Forall_app. split; [assumption|].
    apply Forall_app. split.
    + apply Forall_one. apply Hlf. cbn [length]. lia.
    + apply IH; [|assumption]. intros _. apply Hlf. cbn [length]. lia.
Qed.

Lemma split_on_two_lines (s : pystr) : 2 <= length (split_on LF s) -> In LF s.
Proof.
  induction s as [|c rest IH]; cbn [split_on length]; [lia|].
  destruct (N.eqb_spec c LF) as [->|Hne]; [intros _; now left|].
  destruct (split_on LF rest) as [|l ls] eqn:Hs; cbn [length]; [lia|].
  intros H. right. apply IH. cbn [length]. lia.
Qed.

Lemma known_cleaning (text : pystr) :
  Forall (known text) (enhanced_text_cleaning text).
Proof.
  assert (Htext : Forall (known text) text).
  { apply Forall_forall. intros c Hc. now left. }
  unfold enhanced_text_cleaning.
  destruct text as [|c0 r0] eqn:Htxt; [constructor|]. rewrite <- Htxt in *.
  set (z := substitutions text).
  assert (Hz : Forall (known text) z) by now apply known_substitutions.
  apply known_strip, known_join.
  - intros Hlen. rewrite Forall_forall in Hz. apply Hz, split_on_two_lines.
    destruct (result_lines_measure (cleaned_lines (split_on LF z)) 0) as [_ H1].
    destruct (cleaned_lines_measure (split_on LF z)) as [_ H2]. lia.
  - apply result_lines_Forall. unfold cleaned_lines.
    apply Forall_forall. intros l Hl. apply filter_In in Hl as [Hl _].
    apply in_map_iff in Hl as (l0 & <- & Hl0). apply known_strip.
    pose proof (split_on_pieces LF z) as Hp. rewrite Forall_forall in Hp.
    destruct (Hp _ Hl0) as (a & b & ->).
    now apply Forall_firstn_keep, Forall_skipn_keep.
Qed.

(** X15.  The normaliser invents no text: every character of its output is a
    character of its input, or a line feed where the input holds a carriage
    return, or a space where the input holds a tab. *)
Theorem enhanced_text_cleaning_characters (text : pystr) (c : char) :
  In c (enhanced_text_cleaning text) ->
  In c text \/ (c = LF /\ In CR text) \/ (c = SP /\ In TAB text).
Proof.
  intros Hc. pose proof (known_cleaning text) as H.
  rewrite Forall_forall in H. exact (H c Hc).
Qed.

Lemma enhanced_text_cleaning_characters_witness :
  In LF (py "first line" ++ [CR] ++ py "second line")
  \/ (LF = LF /\ In CR (py "first line" ++ [CR] ++ py "second line"))
  \/ (LF = SP /\ In TAB (py "first line" ++ [CR] ++ py "second line")).
Proof.
  apply (@enhanced_text_cleaning_characters
           (py "first line" ++ [CR] ++ py "second line") LF).
  vm_compute. tauto.
Defined.

(** * Page metadata *)

Lemma dict_get_set_same (V : Type) (key : pystr) (value : V) (d : list (pystr * V)) :
  dict_get pystr_eqb key (dict_set pystr_eqb key value d) = Some value.
Proof.
  induction d as [|[k v] d IH]; cbn [dict_set dict_get].
  - now rewrite pystr_eqb_refl.
  - destruct (pystr_eqb k key) eqn:Hk; cbn [dict_get]; now rewrite Hk.
Qed.

Lemma dict_get_set_other (V : Type) (key other : pystr) (value : V)
    (d : list (pystr * V)) :
  other <> key ->
  dict_get pystr_eqb key (dict_set pystr_eqb other value d) = dict_get pystr_eqb key d.
Proof.
  intros Hne. induction d as [|[k v] d IH]; cbn [dict_set dict_get].
  - apply pystr_eqb_neq in Hne. now rewrite Hne.
  - destruct (pystr_eqb k other) eqn:Hk; cbn [dict_get].
    + apply pystr_eqb_eq in Hk. subst k.
      apply pystr_eqb_neq in Hne. now rewrite Hne.
    + now rewrite IH.
Qed.

Lemma truthy_attr_not_empty (tag : option node) (key value : pystr) :
  truthy_attr tag key = Some value -> value <> [].
Proof.
  unfold truthy_attr. destruct tag as [el|]; [|discriminate].
  destruct (get_attr key el) as [[|c v]|]; try discriminate.
  intros H. inversion H. discriminate.
Qed.

Lemma firstn_two_bounds (s : pystr) : s <> [] -> 1 <= length (firstn 2 s) <= 2.
Proof.
  destruct s as [|a [|b s]]; [congruence | cbn; lia | cbn; lia].
Qed.

Lemma find_all_weaken (names : list pystr) (name : pystr) (soup : node) :
  In name names -> find_all names soup = [] -> find_all [name] soup = [].
Proof.
  intros Hin Hnil. unfold find_all in *.
  destruct (filter (name_in [name]) (descendants soup)) as [|d l] eqn:Hf;
    [reflexivity|].
  assert (Hd : In d (filter (name_in [name]) (descendants soup)))
    by (rewrite Hf; now left).
  apply filter_In in Hd as [Hd Hn].
  assert (Hd' : In d (filter (name_in names) (descendants soup))).
  { apply filter_In. split; [exact Hd|]. unfold name_in in *.
    apply existsb_exists in Hn as (x & [<-|[]] & Hx).
    apply existsb_exists. now exists name. }
  rewrite Hnil in Hd'. destruct Hd'.
Qed.

Lemma detect_content_language_length (soup : node) :
  1 <= length (detect_content_language soup) <= 2.
Proof.
  unfold detect_content_language.
  repeat match goal with
  | |- context [match truthy_attr ?t ?k with _ => _ end] =>
      let H := fresh "H" in
      destruct (truthy_attr t k) eqn:H;
        [apply firstn_two_bounds; exact (truthy_attr_not_empty _ _ H)|]
  end.
  cbn. lia.
Qed.

(** X2.  The language code that [detect_content_language] returns has one or two
    characters, whatever the tree holds; on a tree without [html] and [meta]
    tags it is [en]. *)
Theorem detect_content_language_bounds (soup : node) :
  1 <= length (detect_content_language soup) <= 2 /\
  (find_all [py "html"; py "meta"] soup = [] ->
   detect_content_language soup = py "en").
Proof.
  split; [apply detect_content_language_length|].
  intros Hnone. unfold detect_content_language, soup_find, soup_find_attr.
  rewrite (@find_all_weaken [py "html"; py "meta"] (py "html") soup);
    [|now left | exact Hnone].
  rewrite (@find_all_weaken [py "html"; py "meta"] (py "meta") soup);
    [|right; now left | exact Hnone].
  reflexivity.
Qed.

Lemma detect_content_language_bounds_witness :
  detect_content_language (document []) = py "en".
Proof.
  apply (proj2 (detect_content_language_bounds (document []))). reflexivity.
Defined.

(** ** The basic fields are not overwritten *)

Lemma prefixed_tags_keep (key prefix label field : pystr) (tags : list node) :
  starts_with label field = false ->
  forall metadata,
    dict_get pystr_eqb field
             (fold_left (prefixed_tags_step key prefix label) tags metadata)
    = dict_get pystr_eqb field metadata.
Proof.
  intros Hfield. induction tags as [|tag tags IH]; intros metadata; [reflexivity|].
  cbn [fold_left]. rewrite IH. unfold prefixed_tags_step.
  destruct (negb (is_empty (str_replace prefix [] (attr_or_empty key tag)))
            && negb (is_empty (strip (attr_or_empty (py "content") tag))));
    [|reflexivity].
  apply dict_get_set_other. intros Heq.
  rewrite <- Heq, starts_with_app in Hfield. discriminate.
Qed.

Ltac other_key := let H := fresh in intros H; vm_compute in H; discriminate H.

Lemma basic_field_kept (json_loads : pystr -> option json) (soup : node)
    (field : pystr) (after_meta_tags : metadata_dict) :
  starts_with (py "og_") field = false ->
  starts_with (py "twitter_") field = false ->
  field <> py "language" ->
  field <> py "structured_data" ->
  let metadata :=
    fold_left (prefixed_tags_step (py "name") (py "twitter:") (py "twitter_"))
      (filter (attr_starts_with (py "name") (py "twitter:")) (find_all [py "meta"] soup))
      (fold_left (prefixed_tags_step (py "property") (py "og:") (py "og_"))
         (filter (attr_starts_with (py "property") (py "og:"))
                 (find_all [py "meta"] soup))
         after_meta_tags) in
  let metadata :=
    dict_set pystr_eqb (py "language") (MetaStr (detect_content_language soup)) metadata in
  dict_get pystr_eqb field
    match extract_structured_data json_loads soup with
    | [] => metadata
    | _ => dict_set pystr_eqb (py "structured_data")
                    (MetaDict (extract_structured_data json_loads soup)) metadata
    end
  = dict_get pystr_eqb field after_meta_tags.
Proof.
  intros Hog Htw Hlang Hsd. cbv zeta.
  assert (H : forall d : metadata_dict,
             dict_get pystr_eqb field
               (dict_set pystr_eqb (py "language")
                  (MetaStr (detect_content_language soup))
                  (fold_left (prefixed_tags_step (py "name") (py "twitter:") (py "twitter_"))
                     (filter (attr_starts_with (py "name") (py "twitter:"))
                             (find_all [py "meta"] soup))
                     (fold_left (prefixed_tags_step (py "property") (py "og:") (py "og_"))
                        (filter (attr_starts_with (py "property") (py "og:"))
                                (find_all [py "meta"] soup)) d)))
             = dict_get pystr_eqb field d).
  { intros d. rewrite dict_get_set_other by congruence.
    now rewrite !prefixed_tags_keep. }
  destruct (extract_structured_data json_loads soup);
    [|rewrite dict_get_set_other by congruence]; apply H.
Qed.

Lemma meta_tags_fold (soup : node) (d : metadata_dict) :
  fold_left
    (fun metadata entry =>
       let '(key, (attr, value)) := entry in
       match truthy_attr (soup_find_attr (py "meta") attr value soup) (py "content") with
       | Some content => dict_set pystr_eqb key (MetaStr (strip content)) metadata
       | None => metadata
       end) meta_tags d
  = fold_left
      (fun metadata entry =>
         match truthy_attr (soup_find_attr (py "meta") (fst (snd entry)) (snd (snd entry)) soup)
                           (py "content") with
         | Some content => dict_set pystr_eqb (fst entry) (MetaStr (strip content)) metadata
         | None => metadata
         end) meta_tags d.
Proof. reflexivity. Qed.

Lemma meta_tags_field (soup : node) (tags : list (pystr * (pystr * pystr))) :
  NoDup (map fst tags) ->
  forall (d : metadata_dict) key attr value,
    In (key, (attr, value)) tags ->
    dict_get pystr_eqb key
      (fold_left
         (fun metadata entry =>
            match truthy_attr (soup_find_attr (py "meta") (fst (snd entry))
                                              (snd (snd entry)) soup) (py "content") with
            | Some content => dict_set pystr_eqb (fst entry) (MetaStr (strip content)) metadata
            | None => metadata
            end) tags d)
    = match truthy_attr (soup_find_attr (py "meta") attr value soup) (py "content") with
      | Some content => Some (MetaStr (strip content))
      | None => dict_get pystr_eqb key d
      end.
Proof.
  induction tags as [|[k [a v]] tags IH]; intros Hnd d key attr value Hin; [destruct Hin|].
  inversion Hnd as [|? ? Hk Hnd']; subst. cbn [fold_left fst snd].
  assert (Hskip : forall (d' : metadata_dict) field,
             ~ In field (map fst tags) ->
             dict_get pystr_eqb field
               (fold_left
                  (fun metadata entry =>
                     match truthy_attr (soup_find_attr (py "meta") (fst (snd entry))
                                          (snd (snd entry)) soup) (py "content") with
                     | Some content =>
                         dict_set pystr_eqb (fst entry) (MetaStr (strip content)) metadata
                     | None => metadata
                     end) tags d')
             = dict_get pystr_eqb field d').
  { clear. induction tags as [|[k [a v]] tags IH]; intros d' field Hf; [reflexivity|].
    cbn [fold_left fst snd]. rewrite IH by (intros H; apply Hf; now right).
    destruct (truthy_attr (soup_find_attr (py "meta") a v soup) (py "content"));
      [|reflexivity].
    apply dict_get_set_other. intros ->. apply Hf. now left. }
  destruct Hin as [Heq|Hin].
  - inversion Heq; subst. rewrite Hskip by exact Hk.
    destruct (truthy_attr (soup_find_attr (py "meta") attr value soup) (py "content"));
      [apply dict_get_set_same | reflexivity].
  - rewrite (IH Hnd' _ key attr value Hin).
    destruct (truthy_attr (soup_find_attr (py "meta") attr value soup) (py "content"));
      [reflexivity|].
    destruct (truthy_attr (soup_find_attr (py "meta") a v soup) (py "content"));
      [|reflexivity].
    apply dict_get_set_other. intros ->. apply Hk.
    change key with (fst (key, (attr, value))). now apply in_map.
Qed.

Lemma meta_tags_skip (soup : node) (field : pystr) :
  ~ In field (map fst meta_tags) ->
  forall d : metadata_dict,
    dict_get pystr_eqb field
      (fold_left
         (fun metadata entry =>
            match truthy_attr (soup_find_attr (py "meta") (fst (snd entry))
                                              (snd (snd entry)) soup) (py "content") with
            | Some content => dict_set pystr_eqb (fst entry) (MetaStr (strip content)) metadata
            | None => metadata
            end) meta_tags d)
    = dict_get pystr_eqb field d.
Proof.
  intros Hf. induction meta_tags as [|[k [a v]] tags IH]; intros d; [reflexivity|].
  cbn [fold_left fst snd]. rewrite IH by (intros H; apply Hf; now right).
  destruct (truthy_attr (soup_find_attr (py "meta") a v soup) (py "content"));
    [|reflexivity].
  apply dict_get_set_other. intros ->. apply Hf. now left.
Qed.

Lemma meta_tags_keys : NoDup (map fst meta_tags).
Proof.
  cbn [map fst meta_tags].
  repeat (constructor; [cbn [In]; intros H; repeat destruct H as [H|H];
                        try (vm_compute in H; discriminate H); exact H|]).
  constructor.
Qed.

Lemma title_field (json_loads : pystr -> option json) (soup : node) :
  meta_str (py "title") (PageMetadata.extract_comprehensive_metadata json_loads soup)
  = option_map (fun title_tag => strip (get_text title_tag)) (soup_find (py "title") soup).
Proof.
  unfold meta_str, PageMetadata.extract_comprehensive_metadata. cbv zeta.
  rewrite basic_field_kept; [| reflexivity | reflexivity | other_key | other_key].
  rewrite meta_tags_fold, meta_tags_skip.
  - destruct (soup_find (py "title") soup); [|reflexivity].
    cbn [option_map]. now rewrite dict_get_set_same.
  - cbn [map fst meta_tags In]. intros H.
    repeat destruct H as [H|H]; try (vm_compute in H; discriminate H); exact H.
Qed.

Lemma meta_tag_field (json_loads : pystr -> option json) (soup : node)
    (key attr value : pystr) :
  In (key, (attr, value)) meta_tags ->
  meta_str key (PageMetadata.extract_comprehensive_metadata json_loads soup)
  = option_map strip (truthy_attr (soup_find_attr (py "meta") attr value soup) (py "content")).
Proof.
  intros Hin. unfold meta_str, PageMetadata.extract_comprehensive_metadata. cbv zeta.
  assert (Hkey : starts_with (py "og_") key = false
                 /\ starts_with (py "twitter_") key = false
                 /\ key <> py "language" /\ key <> py "structured_data"
                 /\ key <> py "title").
  { cbn [meta_tags In] in Hin.
    repeat destruct Hin as [Hin|Hin]; try (inversion Hin; subst; clear Hin);
      try (repeat split; solve [reflexivity | other_key]); destruct Hin. }
  destruct Hkey as (Hog & Htw & Hlang & Hsd & Htitle).
  rewrite basic_field_kept by assumption.
  rewrite meta_tags_fold, (@meta_tags_field soup meta_tags meta_tags_keys _ key attr value Hin).
  destruct (truthy_attr (soup_find_attr (py "meta") attr value soup) (py "content"));
    [reflexivity|].
  destruct (soup_find (py "title") soup); [|reflexivity].
  rewrite dict_get_set_other by congruence. reflexivity.
Qed.

Lemma language_field (json_loads : pystr -> option json) (soup : node) :
  meta_str (py "language") (PageMetadata.extract_comprehensive_metadata json_loads soup)
  = Some (detect_content_language soup).
Proof.
  unfold meta_str, PageMetadata.extract_comprehensive_metadata. cbv zeta.
  destruct (extract_structured_data json_loads soup);
    [|rewrite dict_get_set_other by other_key]; now rewrite dict_get_set_same.
Qed.

Lemma plain_metadata_is_source (json_loads : pystr -> option json) (soup : node) :
  plain_metadata soup
  = Ok (page_metadata_of (PageMetadata.extract_comprehensive_metadata json_loads soup)).
Proof.
  unfold plain_metadata, page_metadata_of. f_equal.
  rewrite title_field.
  rewrite (@meta_tag_field json_loads soup (py "author") (py "name") (py "author"))
    by (cbn; tauto).
  rewrite (@meta_tag_field json_loads soup (py "publish_date") (py "property")
             (py "article:published_time")) by (cbn; tauto).
  rewrite (@meta_tag_field json_loads soup (py "description") (py "name")
             (py "description")) by (cbn; tauto).
  assert (Hm : forall a v,
             meta_content a v soup
             = option_map strip
                 (truthy_attr (soup_find_attr (py "meta") (py a) (py v) soup) (py "content"))).
  { intros a v. unfold meta_content, truthy_attr, soup_find_attr.
    change (fun el => match get_attr (py a) el with
                      | Some v0 => pystr_eqb v0 (py v)
                      | None => false
                      end) with (attr_is (py a) (py v)).
    destruct (find (attr_is (py a) (py v)) (find_all [py "meta"] soup)) as [tag|];
      [|reflexivity].
    now destruct (get_attr (py "content") tag) as [[|c s]|]. }
  rewrite !Hm. unfold soup_find.
  now destruct (find_all [py "title"] soup).
Qed.

(** X16.  The fields [title], [description], [keywords], [author], [publish_date]
    and [modified_date] of the metadata are what the [title] tag and the
    first [meta] tag of that name hold, stripped: the Open Graph tags, the
    Twitter Card tags and the structured data never overwrite them.
    [language] is always present and is the detected language. *)
Theorem basic_metadata_fields (json_loads : pystr -> option json) (soup : node) :
  let metadata := PageMetadata.extract_comprehensive_metadata json_loads soup in
  meta_str (py "title") metadata
  = option_map (fun title_tag => strip (get_text title_tag)) (soup_find (py "title") soup) /\
  (forall key attr value,
     In (key, (attr, value)) meta_tags ->
     meta_str key metadata
     = option_map strip
         (truthy_attr (soup_find_attr (py "meta") attr value soup) (py "content"))) /\
  meta_str (py "language") metadata = Some (detect_content_language soup).
Proof.
  intros metadata. subst metadata. split; [|split].
  - apply title_field.
  - intros key attr value. apply meta_tag_field.
  - apply language_field.
Qed.

Lemma basic_metadata_fields_witness :
  meta_str (py "author")
    (PageMetadata.extract_comprehensive_metadata (fun _ => None) (document []))
  = option_map strip
      (truthy_attr (soup_find_attr (py "meta") (py "name") (py "author") (document []))
                   (py "content")).
Proof.
  apply (proj1 (proj2 (@basic_metadata_fields (fun _ => None) (document [])))).
  cbn. tauto.
Defined.

(** * Sanitising the tree *)

Lemma decompose_descendants_same (u : nat) (n d' : node) :
  In d' (descendants (decompose u n)) ->
  exists d, In d (descendants n) /\ same_element d' d /\ tag_uid d <> u.
Proof.
  revert d'. induction n as [s|v name attrs cs IH] using node_ind; intros d'; [intros []|].
  rewrite Forall_forall in IH. cbn [decompose]. intros Hd'.
  apply in_descendants_tag in Hd' as (c' & Hc' & Ht' & Hd').
  apply in_flat_map in Hc' as (c & Hc & Hc').
  destruct (is_tag c && Nat.eqb (tag_uid c) u) eqn:Hrm; [contradiction|].
  destruct Hc' as [<-|[]].
  assert (Htc : is_tag c = true) by (destruct c; [discriminate | reflexivity]).
  rewrite Htc in Hrm. simpl in Hrm. apply Nat.eqb_neq in Hrm.
  destruct Hd' as [->|Hd'].
  - exists c. split; [|split; [|exact Hrm]].
    + apply in_descendants_tag. exists c. repeat split; try assumption. now left.
    + destruct c; [discriminate|]. now repeat split.
  - destruct (IH c Hc d' Hd') as (d & Hd & Hs & Hne).
    exists d. repeat split; try apply Hs; try assumption.
    apply in_descendants_tag. exists c. repeat split; try assumption. now right.
Qed.

Lemma same_element_trans (a b c : node) :
  same_element a b -> same_element b c -> same_element a c.
Proof.
  intros (H1 & H2 & H3) (H4 & H5 & H6). repeat split; congruence.
Qed.

Lemma decompose_all_descendants_same (elements : list node) :
  forall soup d',
    In d' (descendants (decompose_all elements soup)) ->
    exists d, In d (descendants soup) /\ same_element d' d
              /\ ~ In (tag_uid d) (map tag_uid elements).
Proof.
  unfold decompose_all.
  induction elements as [|el elements IH]; intros soup d' Hd'; cbn [fold_left map] in *.
  - exists d'. now repeat split.
  - destruct (IH _ _ Hd') as (d1 & Hd1 & Hs1 & Hnot1).
    destruct (decompose_descendants_same _ _ _ Hd1) as (d & Hd & Hs & Hne).
    exists d. split; [exact Hd|]. split; [exact (same_element_trans Hs1 Hs)|].
    destruct Hs as (Hu & _). intros [Heq|Hin]; [congruence|].
    apply Hnot1. congruence.
Qed.

Lemma get_attr_tag_attrs (key : pystr) (n : node) :
  get_attr key n =
  match find (fun kv => pystr_eqb (fst kv) key) (tag_attrs n) with
  | Some kv => Some (snd kv)
  | None => None
  end.
Proof. now destruct n. Qed.

Lemma same_element_get_attr (d' d : node) (key : pystr) :
  same_element d' d -> get_attr key d' = get_attr key d.
Proof.
  intros (_ & _ & Ha). now rewrite !get_attr_tag_attrs, Ha.
Qed.

Lemma same_element_matches (c : compound) (d' d : node) :
  is_tag d' = is_tag d -> same_element d' d ->
  matches_compound c d' = matches_compound c d.
Proof.
  intros Ht Hs. unfold matches_compound, get_class. rewrite Ht.
  destruct (sel_tag c), (sel_class c), (sel_id c), (sel_attr c); cbn [holds];
    rewrite ?(same_element_get_attr _ Hs);
    destruct Hs as (_ & Hn & _); now rewrite ?Hn.
Qed.

Lemma matches_single (c : compound) (ancestors : list node) (d : node) :
  matches [c] ancestors d = matches_compound c d.
Proof. unfold matches. cbn. apply andb_true_r. Qed.

Lemma select_under_sound (sel : selector) (d : node) :
  forall n ancestors,
    In d (select_under sel ancestors n) ->
    In d (descendants n) /\ exists above, matches sel above d = true.
Proof.
  induction n as [s|u name attrs cs IH] using node_ind; intros ancestors; [intros []|].
  rewrite Forall_forall in IH. cbn [select_under]. intros Hd.
  apply in_flat_map in Hd as (c & Hc & Hd). apply in_app_or in Hd as [Hd|Hd].
  - destruct (matches sel (Tag u name attrs cs :: ancestors) c) eqn:Hm; [|destruct Hd].
    destruct Hd as [<-|[]]. split; [|eexists; exact Hm].
    apply in_descendants_tag. exists c. repeat split; [exact Hc | | now left].
    unfold matches in Hm. destruct (rev sel); [discriminate|].
    apply andb_true_iff in Hm as [Hm _]. unfold matches_compound in Hm.
    now destruct (is_tag c).
  - destruct (IH c Hc _ Hd) as [Hin Hex]. split; [|exact Hex].
    apply in_descendants_tag. exists c. repeat split; [exact Hc | | now right].
    destruct c; [destruct Hin | reflexivity].
Qed.

Lemma none_matches_select (c : compound) (soup : node) :
  none_matches c soup <-> select [c] soup = [].
Proof.
  split.
  - intros Hnone. destruct (select [c] soup) as [|d l] eqn:Hs; [reflexivity|].
    assert (Hd : In d (select [c] soup)) by (rewrite Hs; now left).
    apply select_under_sound in Hd as [Hd [above Hm]].
    rewrite matches_single, (Hnone d Hd) in Hm. discriminate.
  - intros Hs d Hd. destruct (matches_compound c d) eqn:Hm; [|reflexivity].
    assert (Hin : In d (select [c] soup)).
    { apply select_under_complete; [|exact Hd]. intros a. now rewrite matches_single. }
    rewrite Hs in Hin. destruct Hin.
Qed.

Lemma decompose_all_keeps_none (c : compound) (elements : list node) (soup : node) :
  none_matches c soup -> none_matches c (decompose_all elements soup).
Proof.
  intros Hnone d' Hd'.
  destruct (decompose_all_descendants_same _ _ _ Hd') as (d & Hd & Hs & _).
  rewrite (@same_element_matches c d' d); [now apply Hnone | | exact Hs].
  now rewrite (descendants_are_tags _ _ Hd'), (descendants_are_tags _ _ Hd).
Qed.

Lemma decompose_selected_none (c : compound) (soup : node) :
  none_matches c (decompose_all (select [c] soup) soup).
Proof.
  intros d' Hd'.
  destruct (decompose_all_descendants_same _ _ _ Hd') as (d & Hd & Hs & Hnot).
  destruct (matches_compound c d') eqn:Hm; [|reflexivity]. exfalso.
  apply Hnot, in_map. apply select_under_complete; [|exact Hd].
  intros a. rewrite matches_single, <- Hm. symmetry.
  apply same_element_matches; [|exact Hs].
  now rewrite (descendants_are_tags _ _ Hd'), (descendants_are_tags _ _ Hd).
Qed.

Lemma sanitize_none_matches (soup : node) (c : compound) :
  In [c] unwanted_selectors -> none_matches c (sanitize soup).
Proof.
  unfold sanitize.
  assert (H : forall sels soup,
             (In [c] sels \/ none_matches c soup) ->
             none_matches c
               (fold_left (fun soup sel => decompose_all (select sel soup) soup) sels soup)).
  { induction sels as [|sel sels IH]; intros t [Hin|Hnone]; cbn [fold_left].
    - destruct Hin.
    - exact Hnone.
    - destruct Hin as [->|Hin].
      + apply IH. right. apply decompose_selected_none.
      + apply IH. now left.
    - apply IH. right. now apply decompose_all_keeps_none. }
  intros Hin. apply H. now left.
Qed.

Lemma unwanted_selectors_single (sel : selector) :
  In sel unwanted_selectors -> exists c, sel = [c].
Proof.
  unfold unwanted_selectors. cbn [In]. intros H.
  repeat (destruct H as [<-|H]; [eexists; reflexivity|]). destruct H.
Qed.

Lemma sanitize_select_nil (soup : node) (sel : selector) :
  In sel unwanted_selectors -> select sel (sanitize soup) = [].
Proof.
  intros Hin. destruct (@unwanted_selectors_single sel Hin) as [c ->].
  apply none_matches_select. now apply sanitize_none_matches.
Qed.

Lemma sanitize_descendants (soup d' : node) :
  In d' (descendants (sanitize soup)) ->
  exists d, In d (descendants soup) /\ same_element d' d.
Proof.
  unfold sanitize. revert soup d'.
  induction unwanted_selectors as [|sel sels IH]; intros soup d'; cbn [fold_left].
  - intros Hd. exists d'. now repeat split.
  - intros Hd'. destruct (IH _ _ Hd') as (d1 & Hd1 & Hs1).
    destruct (decompose_all_descendants_same _ _ _ Hd1) as (d & Hd & Hs & _).
    exists d. split; [exact Hd | exact (same_element_trans Hs1 Hs)].
Qed.

(** X18.  After the sanitising loop of [scrape_article] no element of the tree is
    selected by any of the thirteen unwanted selectors; sanitising again
    changes nothing; and every element left in the tree was in the tree
    before, under the same name and with the same attributes. *)
Theorem sanitize_postcondition (soup : node) :
  (forall sel, In sel unwanted_selectors -> select sel (sanitize soup) = []) /\
  sanitize (sanitize soup) = sanitize soup /\
  (forall d', In d' (descendants (sanitize soup)) ->
     exists d, In d (descendants soup) /\ same_element d' d).
Proof.
  split; [|split].
  - intros sel. apply sanitize_select_nil.
  - assert (H : forall sels t,
               (forall sel, In sel sels -> select sel t = []) ->
               fold_left (fun soup sel => decompose_all (select sel soup) soup) sels t = t).
    { induction sels as [|sel sels IH]; intros t Ht; [reflexivity|].
      cbn [fold_left]. rewrite (Ht sel) by now left.
      apply IH. intros s Hs. apply Ht. now right. }
    apply H. intros sel. apply sanitize_select_nil.
  - intros d'. apply sanitize_descendants.
Qed.

Lemma sanitize_postcondition_witness :
  select [by_tag "nav"] (sanitize nav_page) = [].
Proof.
  apply (proj1 (sanitize_postcondition nav_page)). cbn. tauto.
Defined.

(** * Structured data and the entries of the metadata *)

Lemma sanitize_no_scripts (soup : node) :
  find_all [py "script"] (sanitize soup) = [].
Proof.
  apply find_all_nil. intros name [<-|[]] d Hd Hname.
  assert (Hin : In [by_tag "script"] unwanted_selectors) by (cbn; tauto).
  pose proof (@sanitize_none_matches soup (by_tag "script") Hin d Hd) as Hm.
  unfold matches_compound in Hm. cbn [by_tag sel_tag sel_class sel_id sel_attr holds] in Hm.
  rewrite (descendants_are_tags _ _ Hd), Hname, pystr_eqb_refl in Hm. discriminate.
Qed.

Lemma strip_strip (s : pystr) : strip (strip s) = strip s.
Proof. apply stripped_strip, strip_stripped. Qed.

Lemma is_empty_false (A : Type) (l : list A) :
  match l with [] => true | _ => false end = false -> l <> [].
Proof. destruct l; [discriminate | discriminate]. Qed.

Lemma key_eqb_string (k : json) (name : pystr) :
  key_eqb k (JString name) = true -> k = JString name.
Proof.
  destruct k as [|b|n|s|items|members]; cbn; try discriminate.
  intros H. apply pystr_eqb_eq in H. now subst.
Qed.

Lemma dict_set_microdata (name text : pystr) (d : pydict) :
  name <> [] -> text <> [] -> strip text = text ->
  Forall microdata_item d ->
  Forall microdata_item (dict_set key_eqb (JString name) (JString text) d).
Proof.
  intros Hn Ht Hs. induction d as [|[k v] d IH]; intros Hd; cbn [dict_set].
  - constructor; [|constructor]. split; cbn [fst snd]; eauto.
  - inversion Hd as [|? ? Hkv Hd']; subst.
    destruct (key_eqb k (JString name)) eqn:Hk.
    + constructor; [|exact Hd']. split; cbn [fst snd]; [apply Hkv | eauto].
    + constructor; [exact Hkv | now apply IH].
Qed.

Lemma microdata_step_items (d : pydict) (item : node) :
  Forall microdata_item d -> Forall microdata_item (microdata_step d item).
Proof.
  unfold microdata_step.
  destruct (contains (py "Article") (attr_or_empty (py "itemtype") item));
    [|trivial].
  generalize (filter (has_attr (py "itemprop")) (descendants item)).
  intros props. revert d. induction props as [|prop props IH]; intros d Hd; [exact Hd|].
  cbn [fold_left]. apply IH.
  destruct (get_attr (py "itemprop") prop) as [[|c name]|]; cbn [truthy andb]; try exact Hd.
  destruct (is_empty (strip (get_text prop))) eqn:He; cbn [negb]; [exact Hd|].
  apply dict_set_microdata; try assumption.
  - discriminate.
  - unfold is_empty in He. now apply is_empty_false.
  - apply strip_strip.
Qed.

(** X3.  [scrape_article] extracts the metadata after it removed the [script]
    elements, so there the structured data never holds JSON-LD: whatever
    [json.loads] would return, the dictionary is what the microdata loop
    builds from nothing, and each of its items is a property name with a
    stripped text, neither of them empty. *)
Theorem structured_data_after_sanitize (json_loads : pystr -> option json)
    (soup : node) :
  extract_structured_data json_loads (sanitize soup)
  = fold_left microdata_step
      (filter (has_attr (py "itemtype")) (descendants (sanitize soup))) [] /\
  Forall microdata_item (extract_structured_data json_loads (sanitize soup)).
Proof.
  assert (H : extract_structured_data json_loads (sanitize soup)
              = fold_left microdata_step
                  (filter (has_attr (py "itemtype")) (descendants (sanitize soup))) []).
  { unfold extract_structured_data. cbv zeta. now rewrite sanitize_no_scripts. }
  split; [exact H|]. rewrite H.
  generalize (filter (has_attr (py "itemtype")) (descendants (sanitize soup))).
  intros items.
  assert (Hall : forall d, Forall microdata_item d ->
                           Forall microdata_item (fold_left microdata_step items d)).
  { induction items as [|item items IH]; intros d Hd; [exact Hd|].
    cbn [fold_left]. now apply IH, microdata_step_items. }
  apply Hall. constructor.
Qed.

(** ** The entries of the metadata *)

Lemma dict_set_Forall (V : Type) (P : pystr * V -> Prop) (key : pystr) (value : V)
    (d : list (pystr * V)) :
  P (key, value) -> Forall P d -> Forall P (dict_set pystr_eqb key value d).
Proof.
  intros Hnew. induction d as [|[k v] d IH]; intros Hd; cbn [dict_set].
  - now constructor.
  - inversion Hd as [|? ? Hkv Hd']; subst.
    destruct (pystr_eqb k key) eqn:Hk.
    + apply pystr_eqb_eq in Hk. subst k. now constructor.
    + constructor; [exact Hkv | now apply IH].
Qed.

Lemma dict_set_keys (V : Type) (key : pystr) (value : V) (d : list (pystr * V)) :
  map fst (dict_set pystr_eqb key value d)
  = if in_dec (list_eq_dec N.eq_dec) key (map fst d) then map fst d
    else map fst d ++ [key].
Proof.
  induction d as [|[k v] d IH]; cbn [dict_set map fst].
  - destruct (in_dec (list_eq_dec N.eq_dec) key []) as [[]|]; reflexivity.
  - destruct (pystr_eqb k key) eqn:Hk.
    + apply pystr_eqb_eq in Hk. subst k. cbn [map fst].
      destruct (in_dec (list_eq_dec N.eq_dec) key (key :: map fst d)) as [|Hn];
        [reflexivity|]. exfalso. apply Hn. now left.
    + apply pystr_eqb_neq in Hk. cbn [map fst]. rewrite IH.
      destruct (in_dec (list_eq_dec N.eq_dec) key (map fst d)) as [Hi|Hi];
        destruct (in_dec (list_eq_dec N.eq_dec) key (k :: map fst d)) as [Hj|Hj];
        try reflexivity.
      * exfalso. apply Hj. now right.
      * exfalso. destruct Hj as [Hj|Hj]; [congruence | contradiction].
Qed.

Lemma dict_set_NoDup (V : Type) (key : pystr) (value : V) (d : list (pystr * V)) :
  NoDup (map fst d) -> NoDup (map fst (dict_set pystr_eqb key value d)).
Proof.
  intros Hnd. rewrite dict_set_keys.
  destruct (in_dec (list_eq_dec N.eq_dec) key (map fst d)) as [Hi|Hi]; [exact Hnd|].
  apply NoDup_app; [exact Hnd | repeat constructor; intros [] |].
  intros x Hx [<-|[]]. contradiction.
Qed.

Lemma well_formed_set (key : pystr) (value : meta_value) (metadata : metadata_dict) :
  metadata_entry (key, value) ->
  well_formed_metadata metadata ->
  well_formed_metadata (dict_set pystr_eqb key value metadata).
Proof.
  intros Hnew [Hall Hnd]. split; [now apply dict_set_Forall | now apply dict_set_NoDup].
Qed.

Lemma well_formed_prefixed (key prefix label : pystr) (tags : list node) :
  label = py "og_" \/ label = py "twitter_" ->
  forall metadata,
    well_formed_metadata metadata ->
    well_formed_metadata (fold_left (prefixed_tags_step key prefix label) tags metadata).
Proof.
  intros Hlabel. induction tags as [|tag tags IH]; intros metadata H; [exact H|].
  cbn [fold_left]. apply IH. unfold prefixed_tags_step.
  destruct (is_empty (str_replace prefix [] (attr_or_empty key tag))) eqn:Hp;
    cbn [negb andb]; [exact H|].
  destruct (is_empty (strip (attr_or_empty (py "content") tag))) eqn:Hc;
    cbn [negb andb]; [exact H|].
  apply well_formed_set; [|exact H].
  right. right. right. cbn [fst snd]. split.
  - exists (str_replace prefix [] (attr_or_empty key tag)).
    split; [now apply is_empty_false|].
    destruct Hlabel as [->| ->]; [now left | now right].
  - eexists. split; [reflexivity|]. split; [now apply is_empty_false | apply strip_strip].
Qed.

Lemma well_formed_meta_tags (soup : node) (tags : list (pystr * (pystr * pystr))) :
  (forall e, In e tags -> In (fst e) (map fst meta_tags)) ->
  forall metadata,
    well_formed_metadata metadata ->
    well_formed_metadata
      (fold_left
         (fun metadata entry =>
            match truthy_attr (soup_find_attr (py "meta") (fst (snd entry))
                                 (snd (snd entry)) soup) (py "content") with
            | Some content =>
                dict_set pystr_eqb (fst entry) (MetaStr (strip content)) metadata
            | None => metadata
            end) tags metadata).
Proof.
  induction tags as [|e tags IH]; intros Hin metadata H; [exact H|].
  cbn [fold_left]. apply IH; [intros e' He'; apply Hin; now right|].
  destruct (truthy_attr (soup_find_attr (py "meta") (fst (snd e)) (snd (snd e)) soup)
                        (py "content")); [|exact H].
  apply well_formed_set; [|exact H]. left. cbn [fst snd].
  split; [right; apply Hin; now left|].
  eexists. split; [reflexivity | apply strip_strip].
Qed.

(** X17.  Every item of the dictionary that [extract_comprehensive_metadata]
    returns is a basic field ([title] or a key of [meta_tags]) with a stripped
    string, the language code of one or two characters, a non-empty
    dictionary of structured data, or an Open Graph or Twitter Card field
    with a name and a stripped string that are not empty; no key occurs
    twice. *)
Theorem metadata_entries (json_loads : pystr -> option json) (soup : node) :
  let metadata := PageMetadata.extract_comprehensive_metadata json_loads soup in
  Forall metadata_entry metadata /\ NoDup (map fst metadata).
Proof.
  intros metadata. subst metadata.
  change (well_formed_metadata
            (PageMetadata.extract_comprehensive_metadata json_loads soup)).
  unfold PageMetadata.extract_comprehensive_metadata. cbv zeta.
  rewrite meta_tags_fold.
  assert (Hlang : forall metadata,
             well_formed_metadata metadata ->
             well_formed_metadata
               (dict_set pystr_eqb (py "language")
                  (MetaStr (detect_content_language soup)) metadata)).
  { intros metadata H. apply well_formed_set; [|exact H].
    right. left. cbn [fst snd]. split; [reflexivity|].
    eexists. split; [reflexivity | apply detect_content_language_length]. }
  assert (Hbase : well_formed_metadata
                    match soup_find (py "title") soup with
                    | Some title_tag =>
                        dict_set pystr_eqb (py "title")
                                 (MetaStr (strip (get_text title_tag))) []
                    | None => []
                    end).
  { destruct (soup_find (py "title") soup).
    - apply well_formed_set; [|split; constructor].
      left. cbn [fst snd]. split; [now left|].
      eexists. split; [reflexivity | apply strip_strip].
    - split; constructor. }
  destruct (extract_structured_data json_loads soup) as [|item items] eqn:Hsd.
  - apply Hlang.
    apply well_formed_prefixed; [now right|].
    apply well_formed_prefixed; [now left|].
    apply well_formed_meta_tags; [|exact Hbase].
    intros e He. now apply in_map.
  - apply well_formed_set.
    + right. right. left. cbn [fst snd]. split; [reflexivity|].
      eexists. split; [reflexivity | discriminate].
    + apply Hlang.
      apply well_formed_prefixed; [now right|].
      apply well_formed_prefixed; [now left|].
      apply well_formed_meta_tags; [|exact Hbase].
      intros e He. now apply in_map.
Qed.

(** * More on [scrape_article] *)

Lemma scrape_fresh_source_metadata (json_loads : pystr -> option json) (lib : library)
    (w : world) (url key : pystr) (c : cache) :
  (forall soup, extract_comprehensive_metadata lib soup = plain_metadata soup) ->
  scrape_fresh (with_source_metadata json_loads lib) w url key c
  = scrape_fresh lib w url key c.
Proof.
  intros Hplain. unfold scrape_fresh.
  destruct (get_random_headers w); [|reflexivity].
  destruct (fetch w url) as [[[r|]|e] events]; cbn [bind]; try reflexivity.
  f_equal. unfold check_content_type.
  destruct (negb (contains (py "text/html") (lower (value_of (content_type_header r)))));
    [reflexivity|].
  unfold extract_page. destruct (content r) as [soup|e]; cbn [bind]; [|reflexivity].
  change (extract_comprehensive_metadata (with_source_metadata json_loads lib)
            (sanitize soup))
    with (Ok (page_metadata_of
                (PageMetadata.extract_comprehensive_metadata json_loads (sanitize soup)))).
  rewrite <- plain_metadata_is_source, <- Hplain.
  reflexivity.
Qed.

(** X19.  What [scrape_article] shows of the page metadata is decided by the
    [title] tag and the [meta] tags [author], [article:published_time] and
    [description] alone: with the metadata method of the class, whatever
    [json.loads] does and whatever Open Graph, Twitter Card or microdata
    items the page holds, the call returns what it returns with an extractor
    that reads just these four. *)
Theorem scrape_article_metadata_fields (json_loads : pystr -> option json)
    (lib : library) (w : world) (url : pystr) (c : cache) :
  (forall soup, extract_comprehensive_metadata lib soup = plain_metadata soup) ->
  scrape_article (with_source_metadata json_loads lib) w url c
  = scrape_article lib w url c.
Proof.
  intros Hplain. unfold scrape_article.
  change (is_valid_url (with_source_metadata json_loads lib) url)
    with (is_valid_url lib url).
  destruct (negb (is_valid_url lib url)); [reflexivity|].
  destruct (encode url) as [encoded|e]; [|reflexivity].
  change (md5 (with_source_metadata json_loads lib) encoded) with (md5 lib encoded).
  destruct (cache_hit w (md5 lib encoded) c); [reflexivity|].
  now rewrite scrape_fresh_source_metadata.
Qed.

Lemma scrape_article_metadata_fields_witness :
  scrape_article (with_source_metadata (fun _ => None) reference_library)
                 empty_page_world article_url []
  = scrape_article reference_library empty_page_world article_url [].
Proof.
  apply (@scrape_article_metadata_fields (fun _ => None) reference_library
           empty_page_world article_url []).
  intros soup. reflexivity.
Defined.

(** ** Requests and pauses *)

Lemma fetch_footprint (w : world) (url : pystr) :
  exists k, k < max_retries /\ snd (fetch w url) = retry_events url k.
Proof.
  unfold fetch. change (seq 0 max_retries) with [0; 1; 2]. cbn [fetch_loop].
  destruct (attempt_once w 0) as [r0|e0]; [exists 0; split; [cbv; lia | reflexivity]|].
  destruct (is_request_exception e0); [|exists 0; split; [cbv; lia | reflexivity]].
  change (Nat.eqb 0 (max_retries - 1)) with false. cbv iota.
  destruct (attempt_once w 1) as [r1|e1]; [exists 1; split; [cbv; lia | reflexivity]|].
  destruct (is_request_exception e1); [|exists 1; split; [cbv; lia | reflexivity]].
  change (Nat.eqb 1 (max_retries - 1)) with false. cbv iota.
  destruct (attempt_once w 2) as [r2|e2]; [exists 2; split; [cbv; lia | reflexivity]|].
  destruct (is_request_exception e2); exists 2; split; try (cbv; lia); reflexivity.
Qed.

Lemma scrape_article_events (lib : library) (w : world) (url : pystr) (c : cache) :
  snd (scrape_article lib w url c) = []
  \/ snd (scrape_article lib w url c) = snd (fetch w url).
Proof.
  unfold scrape_article.
  destruct (negb (is_valid_url lib url)); [now left|].
  destruct (encode url) as [encoded|e]; [|now left].
  destruct (cache_hit w (md5 lib encoded) c); [now left|].
  unfold scrape_fresh.
  destruct (get_random_headers w); [|now left].
  destruct (fetch w url) as [fetched events]. right. cbn [snd].
  match goal with
  | |- context [bind ?a ?k] => destruct (bind a k) as [[text c']|e]
  end; reflexivity.
Qed.

(** X20.  Whatever the server does, one call of [scrape_article] makes no request
    at all, or one, two or three requests, all of them for the URL it was
    given, with a pause of one second after the first failure and of two
    seconds after the second, and no pause after the last request. *)
Theorem scrape_article_footprint (lib : library) (w : world) (url : pystr) (c : cache) :
  let events := snd (scrape_article lib w url c) in
  events = []
  \/ events = [EvGet url]
  \/ events = [EvGet url; EvSleep 1; EvGet url]
  \/ events = [EvGet url; EvSleep 1; EvGet url; EvSleep 2; EvGet url].
Proof.
  intros events. subst events.
  destruct (scrape_article_events lib w url c) as [->| ->]; [now left|].
  destruct (fetch_footprint w url) as (k & Hk & ->).
  unfold max_retries in Hk.
  destruct k as [|[|[|k]]]; [| | |lia]; right; [left | right; left | right; right];
    reflexivity.
Qed.

(** ** Refreshing an entry of the cache *)

Lemma cache_set_keys_present (key : pystr) (v e : cache_entry) (c : cache) :
  cache_get key c = Some e -> map fst (cache_set key v c) = map fst c.
Proof.
  induction c as [|[k v0] c IH]; cbn [cache_get cache_set map fst]; [discriminate|].
  destruct (pystr_eqb k key); [reflexivity|]. intros H. cbn [map fst]. now rewrite IH.
Qed.



(** * [get_site_info] *)



(** * [clear_cache] *)

Lemma cache_store_empty (key : pystr) (v : cache_entry) :
  cache_store key v [] = [(key, v)].
Proof. reflexivity. Qed.

(** X23.  After [clear_cache] the cache is empty, so the next call for a valid URL
    is never answered from the cache, whatever the cache held and whatever
    the clock shows: it is the fresh fetch, which starts with a request once
    the headers are there, and it leaves at most this one URL in the cache. *)
Theorem scrape_after_clear_cache (lib : library) (w : world) (url : pystr) (c : cache) :
  clear_cache c = [] /\
  length (snd (fst (scrape_article lib w url (clear_cache c)))) <= 1 /\
  (is_valid_url lib url = true ->
   scrape_article lib w url (clear_cache c) =
   match scrape_fresh lib w url (md5 lib url) [] with
   | (Ok (text, c'), events) => (Ok text, c', events)
   | (Raise e, events) => (Ok (handle_exception e), [], events)
   end /\
   (get_random_headers w = Ok tt ->
    hd_error (snd (scrape_article lib w url (clear_cache c))) = Some (EvGet url))).
Proof.
  split; [reflexivity|]. unfold clear_cache. split.
  - destruct (scrape_article_cache lib w url []) as [-> | [text ->]];
      [cbn; lia | rewrite cache_store_empty; cbn; lia].
  - intros Hv.
    assert (Hm : scrape_article lib w url [] =
                 match scrape_fresh lib w url (md5 lib url) [] with
                 | (Ok (text, c'), events) => (Ok text, c', events)
                 | (Raise e, events) => (Ok (handle_exception e), [], events)
                 end) by now apply scrape_article_miss.
    split; [exact Hm|]. intros Hh. rewrite Hm.
    pose proof (@scrape_fresh_requests lib w url (md5 lib url) [] Hh) as Hr.
    now destruct (scrape_fresh lib w url (md5 lib url) []) as [[[text c']|e] events].
Qed.

Lemma scrape_after_clear_cache_witness :
  hd_error (snd (scrape_article reference_library (world_at 60 (Raise Timeout))
                   article_url (clear_cache article_cache)))
  = Some (EvGet article_url).
Proof.
  refine (proj2 (proj2 (proj2
            (@scrape_after_clear_cache reference_library (world_at 60 (Raise Timeout))
               article_url article_cache)) _) _).
  - vm_compute. reflexivity.
  - reflexivity.
Defined.

(** * The scraper dialog *)

Lemma scrape_article_ok (lib : library) (w : world) (url : pystr) (c : cache) :
  exists text, fst (fst (scrape_article lib w url c)) = Ok text.
Proof.
  unfold scrape_article.
  destruct (is_valid_url lib url) eqn:Hv; cbn [negb]; [|now eexists].
  rewrite (is_valid_url_encode _ _ Hv).
  destruct (cache_hit w (md5 lib url) c); [now eexists|].
  destruct (scrape_fresh lib w url (md5 lib url) c) as [[[text c']|e] events];
    now eexists.
Qed.

Lemma ldrop_nil (A : Type) (p : A -> bool) (s : list A) :
  ldrop p s = [] -> Forall (fun c => p c = true) s.
Proof.
  induction s as [|c s IH]; [constructor|]. cbn [ldrop].
  destruct (p c) eqn:Hc; [|discriminate]. intros H. constructor; auto.
Qed.

Lemma strip_nil (s : pystr) : strip s = [] -> Forall (fun c => isspace c = true) s.
Proof.
  unfold strip, rdrop. intros H.
  assert (Hr : ldrop isspace (rev (lstrip s)) = []).
  { destruct (ldrop isspace (rev (lstrip s))); [reflexivity|].
    cbn [rev] in H. now destruct (rev l). }
  apply ldrop_nil in Hr. rewrite Forall_forall in Hr.
  rewrite <- (firstn_skipn (span_len isspace s) s). apply Forall_app. split.
  - clear. induction s as [|c s IH]; [constructor|]. cbn [span_len].
    destruct (isspace c) eqn:Hc; [|constructor]. cbn [firstn]. now constructor.
  - rewrite <- lstrip_skipn. apply Forall_forall. intros c Hc.
    apply Hr. now apply in_rev in Hc.
Qed.

(** X24.  A click on the scrape button with a blank URL field gives a warning and
    nothing else.  Otherwise the stripped text is scraped by a new
    [WebScraper], that is, on an empty cache: once the scraper is built, a
    text is shown, never the error box, and a valid URL is always fetched
    anew, with a request as soon as the headers are there, however recently
    the same URL was scraped. *)
Theorem perform_scraping_fetches (lib : library) (describe : exn -> pystr)
    (w : world) (typed : pystr) :
  match WebScraperDialog.scrape_article typed with
  | WebScraperDialog.Warning _ => Forall (fun c => isspace c = true) typed
  | WebScraperDialog.Scraping url =>
      url = strip typed /\ url <> [] /\
      (exists text,
         fst (WebScraperDialog.perform_scraping lib (Ok tt) describe w url)
         = WebScraperDialog.ArticleText text) /\
      snd (WebScraperDialog.perform_scraping lib (Ok tt) describe w url)
      = snd (scrape_article lib w url []) /\
      (is_valid_url lib url = true ->
       get_random_headers w = Ok tt ->
       hd_error (snd (WebScraperDialog.perform_scraping lib (Ok tt) describe w url))
       = Some (EvGet url))
  end.
Proof.
  unfold WebScraperDialog.scrape_article.
  destruct (strip typed) as [|c0 rest] eqn:Hs; cbn [is_empty].
  - now apply strip_nil.
  - split; [reflexivity|]. split; [discriminate|].
    unfold WebScraperDialog.perform_scraping.
    destruct (scrape_article_ok lib w (c0 :: rest) []) as [text Ht].
    destruct (scrape_article lib w (c0 :: rest) []) as [[r c'] events] eqn:Hsc.
    cbn [fst snd] in Ht. subst r. cbn [fst snd].
    split; [now exists text|]. split; [reflexivity|].
    intros Hv Hh.
    rewrite (@scrape_article_miss lib w (c0 :: rest) [] Hv eq_refl) in Hsc.
    pose proof (@scrape_fresh_requests lib w (c0 :: rest)
                  (md5 lib (c0 :: rest)) [] Hh) as Hr.
    destruct (scrape_fresh lib w (c0 :: rest) (md5 lib (c0 :: rest)) [])
      as [[[t c'']|e] ev]; injection Hsc as _ _ <-; exact Hr.
Qed.

Lemma perform_scraping_fetches_witness :
  hd_error (snd (WebScraperDialog.perform_scraping reference_library (Ok tt)
                   (fun _ => []) not_found_world article_url))
  = Some (EvGet article_url).
Proof.
  refine (proj2 (proj2 (proj2 (proj2
            (@perform_scraping_fetches reference_library (fun _ => [])
               not_found_world article_url)))) _ _).
  - vm_compute. reflexivity.
  - reflexivity.
Defined.

(** ** The test before an analysis *)

Lemma may_analyze_head (c : char) (s : pystr) :
  c <> 69%N -> c <> 73%N -> WebScraperDialog.may_analyze (c :: s) = true.
Proof.
  intros HE HI. unfold WebScraperDialog.may_analyze.
  change (py "Error") with (69%N :: py "rror").
  change (py "Invalid") with (73%N :: py "nvalid").
  cbn [is_empty starts_with negb andb].
  apply N.eqb_neq in HE, HI. rewrite N.eqb_sym in HE, HI. now rewrite HE, HI.
Qed.

Ltac first_char := cbn [app]; apply may_analyze_head; discriminate.

Lemma may_analyze_exception (e : exn) :
  WebScraperDialog.may_analyze (handle_exception e) = true.
Proof.
  destruct e as [| |status|msg|msg]; cbn [handle_exception].
  - unfold timeout_message. first_char.
  - unfold connection_message. first_char.
  - destruct (Z.eqb status 403); [unfold forbidden_message; first_char|].
    destruct (Z.eqb status 404); [unfold not_found_message; first_char|].
    destruct (Z.eqb status 429); [unfold rate_limited_message; first_char|].
    destruct (Z.leb 500 status);
      [unfold server_error_message | unfold http_error_message]; first_char.
  - unfold unexpected_error_message. first_char.
  - unfold unexpected_error_message. first_char.
Qed.

Lemma starts_with_app_long (p a b : pystr) :
  length p <= length a -> starts_with p (a ++ b) = starts_with p a.
Proof.
  revert a. induction p as [|x p IH]; intros a Hlen; [now destruct a|].
  destruct a as [|y a]; cbn [length] in Hlen; [lia|].
  cbn [app starts_with]. rewrite IH by lia. reflexivity.
Qed.

Lemma format_result_start (metadata : page_metadata) (content : pystr)
    (content_metadata : option element_metadata) :
  (exists c s, format_result metadata content content_metadata = c :: s
               /\ (c = 63743%N \/ c = 8218%N))
  \/ (truthy (meta_title metadata) = false /\ truthy (meta_author metadata) = false
      /\ truthy (meta_publish_date metadata) = false
      /\ truthy (meta_description metadata) = false
      /\ exists tail, format_result metadata content content_metadata = content ++ tail).
Proof.
  unfold format_result. cbv zeta.
  destruct (truthy (meta_title metadata)), (truthy (meta_author metadata)),
    (truthy (meta_publish_date metadata)), (truthy (meta_description metadata));
    cbn [app];
    try (left; destruct content_metadata; cbn [app join];
         do 2 eexists; (split; [reflexivity|]); solve [now left | now right]).
  right. repeat (split; [reflexivity|]).
  destruct content_metadata; cbn [app join]; eexists;
    [reflexivity | symmetry; apply app_nil_r].
Qed.

Lemma may_analyze_long (content tail : pystr) :
  150 <= length content ->
  WebScraperDialog.may_analyze (content ++ tail) = false ->
  starts_with (py "Error") content = true \/ starts_with (py "Invalid") content = true.
Proof.
  intros Hlen. unfold WebScraperDialog.may_analyze.
  rewrite !starts_with_app_long by (cbn; lia).
  destruct content as [|c content]; [cbn [length] in Hlen; lia|].
  cbn [app is_empty negb andb].
  destruct (starts_with (py "Error") (c :: content)); [now left|].
  destruct (starts_with (py "Invalid") (c :: content)); [now right | discriminate].
Qed.

(** X25.  The test that [analyze_sentiment] and [analyze_spam] make before they
    hand the text on (not empty, not starting with [Error] or [Invalid])
    lets every failure message of [scrape_article] through, and every cached
    result: they start with a pictogram.  Of what [scrape_article] returns,
    the test refuses only a page that was extracted, has no title, author,
    date or description, and whose own text starts with one of the two
    words. *)
Theorem may_analyze_scraped (lib : library) (w : world) (url : pystr) (c : cache) :
  WebScraperDialog.may_analyze invalid_url_message = true /\
  (forall e, WebScraperDialog.may_analyze (handle_exception e) = true) /\
  (forall content_type,
     WebScraperDialog.may_analyze (invalid_content_type_message content_type) = true) /\
  WebScraperDialog.may_analyze insufficient_content_message = true /\
  (forall body, WebScraperDialog.may_analyze (cached_marker ++ body) = true) /\
  (forall text,
     fst (fst (scrape_article lib w url c)) = Ok text ->
     WebScraperDialog.may_analyze text = false ->
     exists metadata content content_metadata,
       text = format_result metadata content content_metadata
       /\ 150 <= length content
       /\ truthy (meta_title metadata) = false
       /\ truthy (meta_author metadata) = false
       /\ truthy (meta_publish_date metadata) = false
       /\ truthy (meta_description metadata) = false
       /\ (starts_with (py "Error") content = true
           \/ starts_with (py "Invalid") content = true)).
Proof.
  assert (H1 : WebScraperDialog.may_analyze invalid_url_message = true)
    by (unfold invalid_url_message; first_char).
  assert (H3 : forall ct,
             WebScraperDialog.may_analyze (invalid_content_type_message ct) = true)
    by (intros ct; unfold invalid_content_type_message; first_char).
  assert (H4 : WebScraperDialog.may_analyze insufficient_content_message = true)
    by (unfold insufficient_content_message; first_char).
  assert (H5 : forall body, WebScraperDialog.may_analyze (cached_marker ++ body) = true)
    by (intros body; unfold cached_marker; first_char).
  split; [exact H1|]. split; [exact may_analyze_exception|]. split; [exact H3|].
  split; [exact H4|]. split; [exact H5|].
  intros text Htext Hno.
  apply (f_equal (fun r => match r with Ok t => t | Raise _ => [] end)) in Htext.
  unfold scrape_article in Htext.
  destruct (is_valid_url lib url) eqn:Hv; cbn [negb fst] in Htext.
  2: { cbv beta iota in Htext. subst text. congruence. }
  rewrite (is_valid_url_encode _ _ Hv) in Htext.
  destruct (cache_hit w (md5 lib url) c) as [body|]; cbn [fst] in Htext.
  { cbv beta iota in Htext. subst text. rewrite H5 in Hno. discriminate. }
  destruct (scrape_fresh lib w url (md5 lib url) c) as [[[t c']|e] events] eqn:Hf;
    cbn [fst] in Htext; cbv beta iota in Htext; subst text.
  2: { rewrite may_analyze_exception in Hno. discriminate. }
  apply scrape_fresh_ok in Hf
      as [[_ [[ct ->]| ->]]|[_ (md & content & cm & _ & _ & _ & Hlen & ->)]].
  - rewrite H3 in Hno. discriminate.
  - congruence.
  - exists md, content, cm. split; [reflexivity|]. split; [exact Hlen|].
    destruct (format_result_start md content cm)
      as [(c0 & s & Heq & Hc0)|(Ht & Ha & Hp & Hd & tail & Heq)].
    + rewrite Heq, may_analyze_head in Hno; [discriminate | |];
        destruct Hc0 as [-> | ->]; discriminate.
    + repeat (split; [assumption|]).
      rewrite Heq in Hno. exact (may_analyze_long content tail Hlen Hno).
Qed.

Lemma may_analyze_scraped_witness :
  exists (metadata : page_metadata) (content : pystr)
         (content_metadata : option element_metadata),
    fst (fst (scrape_article reference_library error_page_world article_url []))
    = Ok (format_result metadata content content_metadata)
    /\ (starts_with (py "Error") content = true
        \/ starts_with (py "Invalid") content = true).
Proof.
  destruct (proj2 (proj2 (proj2 (proj2 (proj2
              (@may_analyze_scraped reference_library error_page_world article_url [])))))
              match fst (fst (scrape_article reference_library error_page_world
                                article_url [])) with
              | Ok text => text
              | Raise _ => []
              end)
    as (md & content & cm & Heq & _ & _ & _ & _ & _ & H).
  - vm_compute. reflexivity.
  - vm_compute. reflexivity.
  - exists md, content, cm. split; [|exact H]. rewrite <- Heq.
    vm_compute. reflexivity.
Defined.

(** * Scores *)

Lemma fold_bonus_bounds (A : Type) (hit : A -> bool) (l : list A) :
  forall s : Z,
    (s <= fold_left (fun score x => if hit x then score + 5 else score) l s
     <= s + 5 * Z.of_nat (length l))%Z.
Proof.
  induction l as [|x l IH]; intros s; cbn [fold_left length]; [lia|].
  destruct (hit x).
  - specialize (IH (s + 5)%Z). lia.
  - specialize (IH s). lia.
Qed.

Lemma fold_penalty_bounds (A : Type) (hit : A -> bool) (l : list A) :
  forall s : Z,
    (s - 10 * Z.of_nat (length l)
     <= fold_left (fun score x => if hit x then score - 10 else score) l s <= s)%Z.
Proof.
  induction l as [|x l IH]; intros s; cbn [fold_left length]; [lia|].
  destruct (hit x).
  - specialize (IH (s - 10)%Z). lia.
  - specialize (IH s). lia.
Qed.

Lemma score_content_quality_range (element : node) :
  (0 <= score_content_quality element <= 90)%Z.
Proof.
  unfold score_content_quality. cbv zeta.
  set (attrs := lower (str_of_list (get_class element) ++ py " " ++ get_id element)).
  set (base := (if Nat.ltb 2000 (length (get_text element)) then (0 + 30)%Z
                else if Nat.ltb 1000 (length (get_text element)) then (0 + 20)%Z
                else if Nat.ltb 500 (length (get_text element)) then (0 + 10)%Z
                else 0%Z)).
  assert (Hbase : (0 <= base <= 30)%Z).
  { subst base. repeat match goal with
                       | |- context [if ?b then _ else _] => destruct b
                       end; lia. }
  set (s1 := (base + Z.min (Z.of_nat (length (find_all [py "p"] element)) * 2) 20
              + Z.min (Z.of_nat (length (find_all header_tags element))) 10)%Z).
  assert (Hs1 : (0 <= s1 <= 60)%Z) by (subst s1; lia).
  pose proof (fold_bonus_bounds (fun indicator => contains indicator attrs)
                positive_indicators s1) as Hpos.
  cbv beta in Hpos.
  set (s2 := fold_left (fun score indicator =>
                          if contains indicator attrs then (score + 5)%Z else score)
                       positive_indicators s1) in *.
  pose proof (fold_penalty_bounds (fun indicator => contains indicator attrs)
                negative_indicators s2) as Hneg.
  cbv beta in Hneg.
  change (length positive_indicators) with 6 in Hpos.
  lia.
Qed.

(** X8.  The content quality score of an element lies between 0 and 90. *)
Theorem score_content_quality_bounds (element : node) :
  (0 <= score_content_quality element <= 90)%Z.
Proof. apply score_content_quality_range. Qed.

(** * The choice of the semantic strategy *)

Lemma fold_left_pointwise (A B : Type) (f g : A -> B -> A) (l : list B) :
  (forall a b, f a b = g a b) -> forall a, fold_left f l a = fold_left g l a.
Proof.
  intros H. induction l as [|b l IH]; intros a; [reflexivity|].
  cbn [fold_left]. now rewrite H, IH.
Qed.

Lemma fold_left_over_flat_map (A B C : Type) (f : A -> C -> A) (g : B -> list C)
    (l : list B) :
  forall a,
    fold_left f (flat_map g l) a = fold_left (fun a x => fold_left f (g x) a) l a.
Proof.
  induction l as [|x l IH]; intros a; [reflexivity|].
  cbn [flat_map fold_left]. now rewrite fold_left_app, IH.
Qed.

Lemma fold_left_over_map (A B C : Type) (f : A -> C -> A) (g : B -> C) (l : list B) :
  forall a, fold_left f (map g l) a = fold_left (fun a x => f a (g x)) l a.
Proof.
  induction l as [|x l IH]; intros a; [reflexivity|].
  cbn [map fold_left]. now rewrite IH.
Qed.

Lemma semantic_best_matches (soup : node) :
  semantic_best soup
  = fold_left
      (fun (state : option node * Z) (scored : node * Z) =>
         if Z.ltb (snd state) (snd scored) then (Some (fst scored), snd scored)
         else state)
      (semantic_matches soup) (None, 0%Z).
Proof.
  unfold semantic_best, semantic_matches.
  rewrite fold_left_over_flat_map.
  apply fold_left_pointwise. intros state [sel base_score].
  rewrite fold_left_over_map. cbn [fst snd].
  apply fold_left_pointwise. intros [best_element best_score] element.
  reflexivity.
Qed.

Lemma first_best_fold (A : Type) (scored : list (A * Z)) :
  (forall x s, In (x, s) scored -> (0 < s)%Z) ->
  let state :=
    fold_left
      (fun (state : option A * Z) (scored : A * Z) =>
         if Z.ltb (snd state) (snd scored) then (Some (fst scored), snd scored)
         else state)
      scored (None, 0%Z) in
  (scored = [] /\ state = (None, 0%Z))
  \/ (exists i x s, first_best scored i x s /\ state = (Some x, s)).
Proof.
  induction scored as [|[y t] scored IH] using rev_ind; intros Hpos state.
  - left. now split.
  - right. subst state. rewrite fold_left_app. cbn [fold_left].
    assert (Ht : (0 < t)%Z) by (apply (Hpos y); apply in_or_app; right; now left).
    destruct IH as [[-> ->]|(i & x & s & [Hn Hmax] & ->)].
    + intros x s Hin. apply (Hpos x). apply in_or_app. now left.
    + cbn [snd fst app]. apply Z.ltb_lt in Ht. rewrite Ht.
      exists 0, y, t. split; [|reflexivity]. split; [reflexivity|].
      intros j y' t' Hj. destruct j as [|j]; cbn in Hj.
      * inversion Hj; subst. split; [lia | lia].
      * now destruct j.
    + assert (Hi : i < length scored) by (apply nth_error_Some; congruence).
      cbn [snd fst]. destruct (Z.ltb_spec s t) as [Hlt|Hge].
      * exists (length scored), y, t. split; [|reflexivity]. split.
        { rewrite nth_error_app2 by lia. now rewrite Nat.sub_diag. }
        intros j y' t' Hj. apply nth_error_snoc in Hj as [[Hjl Hj]|[Hjl Heq]].
        -- destruct (Hmax j y' t' Hj) as [Hle _]. split; [lia | intros _; lia].
        -- inversion Heq; subst. split; [lia | lia].
      * exists i, x, s. split; [|reflexivity]. split.
        { now rewrite nth_error_app1. }
        intros j y' t' Hj. apply nth_error_snoc in Hj as [[Hjl Hj]|[Hjl Heq]].
        -- now apply (Hmax j y' t').
        -- inversion Heq; subst. split; [lia | lia].
Qed.

Lemma semantic_matches_scores (soup : node) (element : node) (score : Z) :
  In (element, score) (semantic_matches soup) ->
  (65 <= score <= 190)%Z /\
  exists sel base_score,
    In (sel, base_score) semantic_selectors /\ In element (select sel soup)
    /\ score = (base_score + score_content_quality element)%Z.
Proof.
  unfold semantic_matches. intros Hin.
  apply in_flat_map in Hin as ([sel base_score] & Hsel & Hin).
  apply in_map_iff in Hin as (el & Heq & Hel). cbn [fst snd] in *.
  inversion Heq; subst. split.
  - pose proof (score_content_quality_range element).
    unfold semantic_selectors in Hsel. cbn [In] in Hsel.
    repeat (destruct Hsel as [Hsel|Hsel]; [inversion Hsel; subst; lia|]).
    destruct Hsel.
  - now exists sel, base_score.
Qed.

(** X4.  [_extract_semantic_content] returns the element that scores highest among
    all the elements its selectors match, base score plus content quality,
    and among equals the one its loops meet first; that score lies between
    65 and 190.  When no selector matches anything it returns the empty
    candidate with score 0. *)
Theorem semantic_content_choice (soup : node) :
  (semantic_matches soup = [] ->
   extract_semantic_content soup = (Ok no_candidate, soup)) /\
  (semantic_matches soup <> [] ->
   exists i element score,
     first_best (semantic_matches soup) i element score /\
     (65 <= score <= 190)%Z /\
     (exists sel base_score,
        In (sel, base_score) semantic_selectors /\ In element (select sel soup)
        /\ score = (base_score + score_content_quality element)%Z) /\
     extract_semantic_content soup
     = (Ok (candidate_of element (inject_Z score)), soup)).
Proof.
  unfold extract_semantic_content. rewrite semantic_best_matches.
  assert (Hpos : forall x s, In (x, s) (semantic_matches soup) -> (0 < s)%Z).
  { intros x s Hin. apply semantic_matches_scores in Hin as [H _]. lia. }
  destruct (first_best_fold (semantic_matches soup) Hpos)
    as [[Hnil ->]|(i & x & s & Hbest & ->)].
  - split; [reflexivity | contradiction].
  - split.
    + intros Hnil. destruct Hbest as [Hn _]. rewrite Hnil in Hn.
      destruct i; discriminate.
    + intros _. exists i, x, s. split; [exact Hbest|].
      destruct Hbest as [Hn _]. apply nth_error_In in Hn.
      apply semantic_matches_scores in Hn as [Hr Hsel]. now repeat split.
Qed.

Lemma semantic_content_choice_witness :
  exists i element score,
    first_best (semantic_matches error_page) i element score /\
    extract_semantic_content error_page
    = (Ok (candidate_of element (inject_Z score)), error_page).
Proof.
  destruct (proj2 (semantic_content_choice error_page))
    as (i & element & score & Hbest & _ & _ & Heq).
  - vm_compute. discriminate.
  - now exists i, element, score.
Defined.

(** * The scores of the other strategies *)

Lemma Qnat_nonneg (n : nat) : (0 <= Qnat n)%Q.
Proof.
  unfold Qnat. change 0%Q with (inject_Z 0). rewrite <- Zle_Qle. lia.
Qed.

Lemma Qnat_le (n m : nat) : n <= m -> (Qnat n <= Qnat m)%Q.
Proof. intros H. unfold Qnat. rewrite <- Zle_Qle. lia. Qed.

Lemma Qnat_pos (n : nat) : 0 < n -> (0 < Qnat n)%Q.
Proof.
  intros H. unfold Qnat. change 0%Q with (inject_Z 0). rewrite <- Zlt_Qlt. lia.
Qed.

Lemma py_min_le_r (a b : Q) : (py_min a b <= b)%Q.
Proof.
  unfold py_min. destruct (Qlt_bool b a) eqn:H; [apply Qle_refl|].
  now apply Qlt_bool_false in H.
Qed.

Lemma py_min_nonneg (a b : Q) : (0 <= a)%Q -> (0 <= b)%Q -> (0 <= py_min a b)%Q.
Proof. intros Ha Hb. unfold py_min. now destruct (Qlt_bool b a). Qed.

Lemma py_max_bounds (b hi : Q) : (0 <= hi)%Q -> (b <= hi)%Q ->
  (0 <= py_max 0 b <= hi)%Q.
Proof.
  intros Hhi Hb. unfold py_max. destruct (Qlt_bool 0 b) eqn:H.
  - apply Qlt_bool_iff in H. split; [now apply Qlt_le_weak | exact Hb].
  - split; [apply Qle_refl | exact Hhi].
Qed.

Lemma Qdiv_nonneg (a b : Q) : (0 <= a)%Q -> (0 <= b)%Q -> (0 <= a / b)%Q.
Proof.
  intros Ha Hb. unfold Qdiv. apply Qmult_le_0_compat; [exact Ha|].
  now apply Qinv_le_0_compat.
Qed.

Lemma Qdiv_le_one (n m : nat) : n <= m -> 0 < m -> (Qnat n / Qnat m <= 1)%Q.
Proof.
  intros Hle Hpos. apply Qle_shift_div_r; [now apply Qnat_pos|].
  rewrite Qmult_1_l. now apply Qnat_le.
Qed.

Lemma py_int_bounds (x : Q) (hi : Z) :
  (0 < x)%Q -> (x <= inject_Z hi)%Q -> (0 <= py_int x <= hi)%Z.
Proof.
  intros Hpos Hhi. unfold py_int.
  assert (Hle : Qle_bool 0 x = true) by (apply Qle_bool_iff; now apply Qlt_le_weak).
  rewrite Hle. split.
  - pose proof (Qlt_floor x) as Hf.
    assert (H : (inject_Z 0 < inject_Z (Qfloor x + 1))%Q)
      by (eapply Qlt_trans; [exact Hpos | exact Hf]).
    rewrite <- Zlt_Qlt in H. lia.
  - pose proof (Qfloor_le x) as Hf.
    assert (H : (inject_Z (Qfloor x) <= inject_Z hi)%Q)
      by (eapply Qle_trans; [exact Hf | exact Hhi]).
    now rewrite <- Zle_Qle in H.
Qed.

(** ** Length heuristics *)

Lemma length_score_of_le (element : node) : (length_score_of element <= 80)%Q.
Proof.
  unfold length_score_of. cbv zeta.
  pose proof (py_min_le_r (Qnat (length (get_text element)) / 100) 50) as H1.
  pose proof (py_min_le_r (Qnat (length (find_all [py "p"] element) * 2)) 30) as H2.
  assert (H3 : (0 <= (if Nat.ltb 0 (length (get_text element))
                      then Qnat (list_sum (map (fun link => length (get_text link))
                                               (find_all [py "a"] element)))
                           / Qnat (length (get_text element))
                      else 1))%Q).
  { destruct (Nat.ltb 0 (length (get_text element))); [|discriminate].
    apply Qdiv_nonneg; apply Qnat_nonneg. }
  lra.
Qed.

Lemma length_fold_invariant (all : list nat) (candidates : list nat) :
  (forall u, In u candidates -> In u all) ->
  forall state,
    (0 <= snd state)%Q ->
    (snd (fst state) = None \/
     exists u, snd (fst state) = Some u /\ In u all /\ (0 < snd state <= 80)%Q) ->
    let final := fold_left length_step candidates state in
    (0 <= snd final)%Q /\
    ((snd (fst final) = None /\ snd final = snd state /\ snd (fst state) = None)
     \/ exists u, snd (fst final) = Some u /\ In u all /\ (0 < snd final <= 80)%Q).
Proof.
  induction candidates as [|u candidates IH]; intros Hall state Hnn Hst final.
  - subst final. cbn [fold_left]. split; [exact Hnn|].
    destruct Hst as [Hnone|Hsome]; [left; now repeat split | now right].
  - subst final. cbn [fold_left].
    assert (Hall' : forall u', In u' candidates -> In u' all)
      by (intros u' Hu'; apply Hall; now right).
    destruct state as [[soup best] score]. cbn [fst snd] in *.
    set (soup' := decompose_all (find_all unwanted_children (resolve u soup)) soup).
    assert (Hstep : length_step (soup, best, score) u
                    = if Qlt_bool score (length_score_of (resolve u soup'))
                      then (soup', Some u, length_score_of (resolve u soup'))
                      else (soup', best, score)) by reflexivity.
    rewrite Hstep. clear Hstep.
    pose proof (length_score_of_le (resolve u soup')) as Hle.
    destruct (Qlt_bool score (length_score_of (resolve u soup'))) eqn:Hlt.
    + apply Qlt_bool_iff in Hlt.
      assert (Hpos : (0 < length_score_of (resolve u soup'))%Q)
        by (eapply Qle_lt_trans; eassumption).
      assert (Hnn1 : (0 <= snd (soup', Some u, length_score_of (resolve u soup')))%Q)
        by (cbn [snd]; now apply Qlt_le_weak).
      assert (Hst1 : snd (fst (soup', Some u, length_score_of (resolve u soup'))) = None
                     \/ exists u0,
                          snd (fst (soup', Some u, length_score_of (resolve u soup')))
                          = Some u0 /\ In u0 all
                          /\ (0 < snd (soup', Some u, length_score_of (resolve u soup'))
                              <= 80)%Q).
      { right. exists u. cbn [fst snd].
        split; [reflexivity|]. split; [apply Hall; now left|].
        split; [exact Hpos | exact Hle]. }
      destruct (IH Hall' _ Hnn1 Hst1) as [Hnn' [(Hnone & _ & Habs)|Hsome]].
      * cbn [fst snd] in Habs. discriminate.
      * split; [exact Hnn' | now right].
    + assert (Hst1 : snd (fst (soup', best, score)) = None
                     \/ exists u0, snd (fst (soup', best, score)) = Some u0
                                   /\ In u0 all
                                   /\ (0 < snd (soup', best, score) <= 80)%Q)
        by exact Hst.
      destruct (IH Hall' (soup', best, score) Hnn Hst1)
        as [Hnn' [(Hnone & Heq & Hb)|Hsome]].
      * split; [exact Hnn'|]. left. cbn [fst snd] in *. now repeat split.
      * split; [exact Hnn' | now right].
Qed.



(** ** Readability *)

Lemma count_char_in (x : char) (s : pystr) : count_char x s <> 0 -> In x s.
Proof.
  unfold count_char. intros H.
  destruct (filter (is_char x) s) as [|c l] eqn:Hf; [now destruct H|].
  assert (Hc : In c (filter (is_char x) s)) by (rewrite Hf; now left).
  apply filter_In in Hc as [Hin Hx]. apply N.eqb_eq in Hx. now subst.
Qed.

Lemma sentences_mark (text : pystr) :
  count_char DOT text + count_char BANG text + count_char QMARK text <> 0 ->
  exists c, In c text /\ is_sentence_mark c = true.
Proof.
  intros H.
  destruct (Nat.eq_dec (count_char DOT text) 0) as [Hd|Hd];
    [|exists DOT; split; [now apply count_char_in | reflexivity]].
  destruct (Nat.eq_dec (count_char BANG text) 0) as [Hb|Hb];
    [|exists BANG; split; [now apply count_char_in | reflexivity]].
  exists QMARK. split; [apply count_char_in; lia | reflexivity].
Qed.

Lemma readability_step_invariant (all : list node) (state : option node * Q)
    (element : node) :
  In element all ->
  (0 <= snd state)%Q ->
  (fst state = None \/
   exists el, fst state = Some el /\ In el all
              /\ 100 <= length (get_text el)
              /\ (exists c, In c (get_text el) /\ is_sentence_mark c = true)
              /\ (0 < snd state <= 55)%Q) ->
  let next := readability_step state element in
  (0 <= snd next)%Q /\
  ((fst next = None /\ next = state)
   \/ exists el, fst next = Some el /\ In el all
                 /\ 100 <= length (get_text el)
                 /\ (exists c, In c (get_text el) /\ is_sentence_mark c = true)
                 /\ (0 < snd next <= 55)%Q).
Proof.
  intros Hin Hnn Hst next. subst next.
  assert (Hkeep : (0 <= snd state)%Q /\
                  ((fst state = None /\ state = state)
                   \/ exists el, fst state = Some el /\ In el all
                                 /\ 100 <= length (get_text el)
                                 /\ (exists c, In c (get_text el)
                                               /\ is_sentence_mark c = true)
                                 /\ (0 < snd state <= 55)%Q)).
  { split; [exact Hnn|]. destruct Hst as [H|H]; [left; now split | now right]. }
  destruct state as [best score]. unfold readability_step.
  destruct (Nat.ltb_spec (length (get_text element)) 100) as [Hshort|Hlong];
    [exact Hkeep|].
  cbv zeta.
  destruct (Nat.eqb_spec (count_char DOT (get_text element)
                          + count_char BANG (get_text element)
                          + count_char QMARK (get_text element)) 0) as [Hs|Hs];
    [exact Hkeep|].
  destruct (Nat.eqb (length (split_ws (get_text element))) 0); cbn [orb];
    [exact Hkeep|].
  set (avg := (Qnat (length (split_ws (get_text element)))
               / Qnat (count_char DOT (get_text element)
                       + count_char BANG (get_text element)
                       + count_char QMARK (get_text element)))%Q).
  pose proof (Qabs_nonneg (avg - (35 # 2))) as Habs.
  assert (H1 : (0 <= py_max 0 (20 - Qabs (avg - (35 # 2))) <= 20)%Q)
    by (apply py_max_bounds; lra).
  pose proof (py_min_le_r (Qnat (length (find_all [py "p"] element))) 20) as H2.
  pose proof (py_min_le_r (Qnat (length (find_all header_tags element) * 3)) 15) as H3.
  match goal with
  | |- context [Qlt_bool score ?t] => destruct (Qlt_bool score t) eqn:Hlt
  end; [|exact Hkeep].
  apply Qlt_bool_iff in Hlt. cbn [fst snd] in *.
  split; [lra|]. right. exists element.
  split; [reflexivity|]. split; [exact Hin|]. split; [exact Hlong|].
  split; [now apply sentences_mark|]. lra.
Qed.

Lemma readability_fold_invariant (all candidates : list node) :
  (forall el, In el candidates -> In el all) ->
  forall state,
    (0 <= snd state)%Q ->
    (fst state = None \/
     exists el, fst state = Some el /\ In el all
                /\ 100 <= length (get_text el)
                /\ (exists c, In c (get_text el) /\ is_sentence_mark c = true)
                /\ (0 < snd state <= 55)%Q) ->
    let final := fold_left readability_step candidates state in
    (fst final = None /\ final = state)
    \/ exists el, fst final = Some el /\ In el all
                  /\ 100 <= length (get_text el)
                  /\ (exists c, In c (get_text el) /\ is_sentence_mark c = true)
                  /\ (0 < snd final <= 55)%Q.
Proof.
  induction candidates as [|element candidates IH]; intros Hall state Hnn Hst final.
  - subst final. cbn [fold_left]. destruct Hst as [H|H]; [left; now split | now right].
  - subst final. cbn [fold_left].
    destruct (@readability_step_invariant all state element
                (Hall element (or_introl eq_refl)) Hnn Hst) as [Hnn' Hst'].
    assert (Hall' : forall el, In el candidates -> In el all)
      by (intros el Hel; apply Hall; now right).
    destruct Hst' as [[Hnone Heq]|Hsome].
    + rewrite Heq. apply IH; assumption.
    + destruct (IH Hall' (readability_step state element) Hnn' (or_intror Hsome))
        as [[Hnone Heq]|H]; [|now right].
      right. rewrite Heq. exact Hsome.
Qed.


(** ** Text density *)

Lemma density_step_invariant (lib : library) (all : list node)
    (state : option node * Q) (element : node) :
  In element all ->
  (0 <= snd state)%Q ->
  (fst state = None \/
   exists el, fst state = Some el /\ In el all
              /\ 200 < length (get_text el) /\ markup_length lib el <> 0
              /\ (0 < snd state)%Q
              /\ (snd state
                  <= Qnat (length (get_text el)) / Qnat (markup_length lib el)
                     * (132 # 100))%Q) ->
  let next := density_step lib state element in
  (0 <= snd next)%Q /\
  ((fst next = None /\ next = state)
   \/ exists el, fst next = Some el /\ In el all
                 /\ 200 < length (get_text el) /\ markup_length lib el <> 0
                 /\ (0 < snd next)%Q
                 /\ (snd next
                     <= Qnat (length (get_text el)) / Qnat (markup_length lib el)
                        * (132 # 100))%Q).
Proof.
  intros Hin Hnn Hst next. subst next.
  assert (Hkeep : (0 <= snd state)%Q /\
                  ((fst state = None /\ state = state)
                   \/ exists el, fst state = Some el /\ In el all
                        /\ 200 < length (get_text el) /\ markup_length lib el <> 0
                        /\ (0 < snd state)%Q
                        /\ (snd state
                            <= Qnat (length (get_text el)) / Qnat (markup_length lib el)
                               * (132 # 100))%Q)).
  { split; [exact Hnn|]. destruct Hst as [H|H]; [left; now split | now right]. }
  destruct state as [best best_density]. unfold density_step.
  destruct (Nat.eqb_spec (markup_length lib element) 0) as [Hz|Hnz]; [exact Hkeep|].
  cbv zeta.
  set (base := (Qnat (length (get_text element)) / Qnat (markup_length lib element))%Q).
  assert (Hbase : (0 <= base)%Q) by (apply Qdiv_nonneg; apply Qnat_nonneg).
  set (d1 := if name_in [py "article"; py "section"] element
             then (base * (12 # 10))%Q else base).
  assert (Hd1 : (0 <= d1 <= base * (12 # 10))%Q)
    by (subst d1; destruct (name_in [py "article"; py "section"] element); lra).
  set (d2 := if existsb (fun term =>
                           contains term (lower (join (py " ") (get_class element))))
                        content_terms
             then (d1 * (11 # 10))%Q else d1).
  assert (Hd2 : (0 <= d2 <= base * (132 # 100))%Q).
  { subst d2. destruct (existsb _ content_terms); lra. }
  destruct (Qlt_bool best_density d2) eqn:Hlt; cbn [andb]; [|exact Hkeep].
  destruct (Nat.ltb_spec 200 (length (get_text element))) as [Hlong|Hshort];
    [|exact Hkeep].
  apply Qlt_bool_iff in Hlt. cbn [fst snd] in *.
  split; [lra|]. right. exists element.
  split; [reflexivity|]. split; [exact Hin|]. split; [exact Hlong|].
  split; [exact Hnz|]. split; [lra|]. subst base. lra.
Qed.

Lemma density_fold_invariant (lib : library) (all candidates : list node) :
  (forall el, In el candidates -> In el all) ->
  forall state,
    (0 <= snd state)%Q ->
    (fst state = None \/
     exists el, fst state = Some el /\ In el all
                /\ 200 < length (get_text el) /\ markup_length lib el <> 0
                /\ (0 < snd state)%Q
                /\ (snd state
                    <= Qnat (length (get_text el)) / Qnat (markup_length lib el)
                       * (132 # 100))%Q) ->
    let final := fold_left (density_step lib) candidates state in
    (fst final = None /\ final = state)
    \/ exists el, fst final = Some el /\ In el all
                  /\ 200 < length (get_text el) /\ markup_length lib el <> 0
                  /\ (0 < snd final)%Q
                  /\ (snd final
                      <= Qnat (length (get_text el)) / Qnat (markup_length lib el)
                         * (132 # 100))%Q.
Proof.
  induction candidates as [|element candidates IH]; intros Hall state Hnn Hst final.
  - subst final. cbn [fold_left]. destruct Hst as [H|H]; [left; now split | now right].
  - subst final. cbn [fold_left].
    destruct (@density_step_invariant lib all state element
                (Hall element (or_introl eq_refl)) Hnn Hst) as [Hnn' Hst'].
    assert (Hall' : forall el, In el candidates -> In el all)
      by (intros el Hel; apply Hall; now right).
    destruct Hst' as [[Hnone Heq]|Hsome].
    + rewrite Heq. apply IH; assumption.
    + destruct (IH Hall' (density_step lib state element) Hnn' (or_intror Hsome))
        as [[Hnone Heq]|H]; [|now right].
      right. rewrite Heq. exact Hsome.
Qed.



(** * URL validation *)

Lemma starts_with_split (sub s : pystr) :
  starts_with sub s = true -> exists b, s = sub ++ b.
Proof.
  revert s. induction sub as [|x sub IH]; intros s H; [now exists s|].
  destruct s as [|y s]; [discriminate|]. cbn [starts_with] in H.
  apply andb_true_iff in H as [Hxy H]. apply N.eqb_eq in Hxy. subst y.
  destruct (IH s H) as [b ->]. now exists b.
Qed.

Lemma contains_split (sub s : pystr) :
  contains sub s = true -> exists a b, s = a ++ sub ++ b.
Proof.
  induction s as [|c s IH]; cbn [contains]; intros H.
  - rewrite orb_false_r in H. apply starts_with_split in H as [b Hb].
    exists [], b. exact Hb.
  - apply orb_true_iff in H as [H|H].
    + apply starts_with_split in H as [b Hb]. exists [], b. exact Hb.
    + destruct (IH H) as (a & b & ->). now exists (c :: a), b.
Qed.

Lemma contains_map_split (f : char -> char) (sub s : pystr) :
  contains sub (map f s) = true <-> exists a v b, s = a ++ v ++ b /\ map f v = sub.
Proof.
  split.
  - intros H. apply contains_split in H as (a' & b' & H).
    apply map_eq_app in H as (a & r & -> & Ha & Hr).
    apply map_eq_app in Hr as (v & b & -> & Hv & Hb).
    now exists a, v, b.
  - intros (a & v & b & -> & Hv). rewrite !map_app, Hv. apply contains_app.
Qed.

Lemma sre_fold_ascii (c : char) :
  N.ltb 127 (sre_fold c) = false <->
  (c <= 127)%N \/ c = 304%N \/ c = 305%N \/ c = 383%N \/ c = 8490%N.
Proof.
  unfold sre_fold. rewrite N.ltb_ge.
  destruct (N.leb 65 c && N.leb c 90)%bool eqn:Hup.
  - apply andb_true_iff in Hup as [H1 H2]. apply N.leb_le in H1, H2. split; lia.
  - repeat match goal with
           | |- context [N.eqb c ?k] => destruct (N.eqb_spec c k); [subst; split; lia|]
           end.
    split; lia.
Qed.

Lemma lower_sre_fold (v lit : pystr) :
  Forall (fun c => (97 <= c <= 122)%N \/ c = 58%N) lit ->
  lower v = lit -> map sre_fold v = lit.
Proof.
  intros Hlit <-. unfold lower in *. induction v as [|c v IH]; [reflexivity|].
  cbn [map] in *. inversion Hlit as [|? ? Hc Hv]; subst. f_equal; [|now apply IH].
  unfold lower_char, sre_fold in *.
  destruct (N.leb 65 c && N.leb c 90)%bool eqn:Hup; [reflexivity|].
  repeat match goal with
         | |- context [N.eqb c ?k] => destruct (N.eqb_spec c k); [lia|]
         end.
  reflexivity.
Qed.

Lemma literal_letters (lit : pystr) :
  In lit [py "javascript:"; py "data:"; py "file:"] ->
  Forall (fun c => (97 <= c <= 122)%N \/ c = 58%N) lit.
Proof.
  intros [<-|[<-|[<-|[]]]]; vm_compute;
    repeat (constructor; [first [left; split; discriminate | right; reflexivity]|]);
    constructor.
Qed.

(** X1.  [is_valid_url] accepts a URL exactly when [urlparse] finds the scheme
    [http] or [https] and a host that is not empty, every character is ASCII
    or one of the four letters that [re.IGNORECASE] folds to ASCII (U+0130,
    U+0131, U+017F, U+212A), and no part of the URL reads [javascript:],
    [data:] or [file:] under that folding.  So a URL that holds one of these
    three words anywhere, in any mix of upper and lower case, in its path or
    its query as well, is refused. *)
Theorem is_valid_url_characterisation (lib : library) (url : pystr) :
  (is_valid_url lib url = true <->
   exists scheme netloc,
     urlparse lib url = Some (scheme, netloc) /\
     (scheme = py "http" \/ scheme = py "https") /\
     netloc <> [] /\
     (forall c, In c url ->
        (c <= 127)%N \/ c = 304%N \/ c = 305%N \/ c = 383%N \/ c = 8490%N) /\
     (forall a v b, url = a ++ v ++ b ->
        map sre_fold v <> py "javascript:" /\ map sre_fold v <> py "data:"
        /\ map sre_fold v <> py "file:")) /\
  (forall a v b,
     lower v = py "javascript:" \/ lower v = py "data:" \/ lower v = py "file:" ->
     is_valid_url lib (a ++ v ++ b) = false).
Proof.
  split.
  - unfold is_valid_url. split.
    + destruct (urlparse lib url) as [[scheme netloc]|]; [|discriminate].
      destruct (existsb (pystr_eqb scheme) [py "http"; py "https"]
                && negb (is_empty netloc)) eqn:Hs; cbn [negb]; [|discriminate].
      destruct (existsb (fun p => re_search_ignorecase p url) suspicious_patterns)
        eqn:Hp; [discriminate|]. intros _.
      exists scheme, netloc. split; [reflexivity|].
      apply andb_true_iff in Hs as [Hsch Hnet].
      split.
      { cbn [existsb] in Hsch. rewrite orb_false_r in Hsch.
        apply orb_true_iff in Hsch as [H|H]; apply pystr_eqb_eq in H; auto. }
      split; [destruct netloc; [discriminate | discriminate]|].
      unfold suspicious_patterns in Hp. cbn [existsb re_search_ignorecase] in Hp.
      rewrite orb_false_r in Hp.
      apply orb_false_iff in Hp as [Hna Hp].
      apply orb_false_iff in Hp as [Hjs Hp].
      apply orb_false_iff in Hp as [Hdata Hfile].
      split.
      * intros c Hc. apply sre_fold_ascii.
        destruct (N.ltb 127 (sre_fold c)) eqn:Hf; [|reflexivity].
        assert (Hex : existsb (fun c => N.ltb 127 (sre_fold c)) url = true)
          by (apply existsb_exists; now exists c).
        congruence.
      * intros a v b Hurl.
        repeat split; intros Hv;
          match goal with
          | H : contains ?lit (map sre_fold url) = false |- _ =>
              assert (Hc : contains lit (map sre_fold url) = true)
                by (apply contains_map_split; now exists a, v, b);
              congruence
          end.
    + intros (scheme & netloc & -> & Hsch & Hnet & Hascii & Hlit).
      assert (Hs : existsb (pystr_eqb scheme) [py "http"; py "https"]
                   && negb (is_empty netloc) = true).
      { apply andb_true_iff. split.
        - cbn [existsb]. destruct Hsch as [-> | ->].
          + now rewrite pystr_eqb_refl.
          + rewrite pystr_eqb_refl. now rewrite orb_true_r.
        - now destruct netloc. }
      rewrite Hs. cbn [negb].
      assert (Hp : existsb (fun p => re_search_ignorecase p url) suspicious_patterns
                   = false); [|now rewrite Hp].
      unfold suspicious_patterns. cbn [existsb re_search_ignorecase].
      assert (Hna : existsb (fun c => N.ltb 127 (sre_fold c)) url = false).
      { destruct (existsb (fun c => N.ltb 127 (sre_fold c)) url) eqn:He; [|reflexivity].
        apply existsb_exists in He as (c & Hc & Hf).
        apply Hascii, sre_fold_ascii in Hc. congruence. }
      assert (Hno : forall lit,
                 In lit [py "javascript:"; py "data:"; py "file:"] ->
                 contains lit (map sre_fold url) = false).
      { intros lit Hin.
        destruct (contains lit (map sre_fold url)) eqn:Hc; [|reflexivity].
        apply contains_map_split in Hc as (a & v & b & Hurl & Hv).
        destruct (Hlit a v b Hurl) as (H1 & H2 & H3).
        destruct Hin as [<-|[<-|[<-|[]]]]; contradiction. }
      rewrite Hna, !Hno; [reflexivity | | |]; cbn; tauto.
  - intros a v b Hv.
    assert (Hfold : contains (py "javascript:") (map sre_fold (a ++ v ++ b)) = true
                    \/ contains (py "data:") (map sre_fold (a ++ v ++ b)) = true
                    \/ contains (py "file:") (map sre_fold (a ++ v ++ b)) = true).
    { destruct Hv as [Hv|[Hv|Hv]]; [left | right; left | right; right];
        apply contains_map_split; exists a, v, b; (split; [reflexivity|]);
        (apply lower_sre_fold; [apply literal_letters; cbn; tauto | exact Hv]). }
    destruct (urlparse lib (a ++ v ++ b)) as [[scheme netloc]|] eqn:Hparse.
    + apply (@is_valid_url_rejects lib (a ++ v ++ b) scheme netloc Hparse).
      right. right. destruct Hfold as [H|[H|H]]; tauto.
    + unfold is_valid_url. now rewrite Hparse.
Qed.

Lemma is_valid_url_characterisation_witness :
  is_valid_url reference_library
    (py "https://example.com/search?q=" ++ py "Metadata:" ++ py "x") = false.
Proof.
  change (py "Metadata:") with (py "Meta" ++ py "data:").
  rewrite <- (app_assoc (py "Meta")), (app_assoc _ (py "Meta")).
  apply (proj2 (is_valid_url_characterisation reference_library
                  (py "https://example.com/search?q=" ++ py "Meta"
                   ++ py "data:" ++ py "x"))
               (py "https://example.com/search?q=" ++ py "Meta") (py "data:") (py "x")).
  right. left. reflexivity.
Defined.

(** * Blank text *)

Lemma ldrop_all (A : Type) (p : A -> bool) (s : list A) :
  Forall (fun c => p c = true) s -> ldrop p s = [].
Proof.
  induction 1 as [|c s Hc _ IH]; [reflexivity|]. cbn [ldrop]. now rewrite Hc.
Qed.

(** X14.  A text of whitespace only, however long and of whichever whitespace
    characters, is cleaned to the empty string. *)
Theorem enhanced_text_cleaning_blank (text : pystr) :
  Forall (fun c => isspace c = true) text ->
  enhanced_text_cleaning text = [].
Proof.
  intros Hblank.
  assert (Hout : Forall (fun c => isspace c = true) (enhanced_text_cleaning text)).
  { eapply Forall_impl; [|apply known_cleaning].
    rewrite Forall_forall in Hblank.
    intros c [Hin|[[-> _]|[-> _]]]; [now apply Hblank | reflexivity | reflexivity]. }
  destruct (enhanced_text_cleaning_lines text) as (ls & Hc & Heq).
  assert (Hs : strip (enhanced_text_cleaning text) = enhanced_text_cleaning text).
  { rewrite Heq. now apply stripped_strip_eq. }
  rewrite <- Hs. unfold strip. now rewrite (@ldrop_all _ isspace _ Hout).
Qed.

Lemma enhanced_text_cleaning_blank_witness :
  enhanced_text_cleaning [SP; TAB; LF; CR; SP; SP; LF; LF; TAB; SP] = [].
Proof.
  apply enhanced_text_cleaning_blank. repeat constructor.
Defined.

(** * The strategies against each other *)

Lemma strategy_outcomes_four (lib : library) (soup : node) :
  exists t1 t2 t3,
    strategy_outcomes (extraction_strategies lib) soup
    = [ fst (extract_semantic_content soup);
        fst (extract_by_length_heuristics t1);
        fst (extract_by_text_density lib t2);
        fst (extract_readability_content t3) ].
Proof.
  unfold extraction_strategies. cbn [strategy_outcomes].
  destruct (extract_semantic_content soup) as [o0 t1].
  destruct (extract_by_length_heuristics t1) as [o1 t2] eqn:H1.
  destruct (extract_by_text_density lib t2) as [o2 t3] eqn:H2.
  destruct (extract_readability_content t3) as [o3 t4] eqn:H3.
  exists t1, t2, t3. now rewrite H1, H2, H3.
Qed.

Lemma semantic_score_floor (soup : node) (c : candidate) :
  fst (extract_semantic_content soup) = Ok c ->
  content_of c <> [] ->
  (65 <= score_of c)%Q /\
  (select [by_tag "article"] soup <> [] -> (100 <= score_of c)%Q).
Proof.
  unfold extract_semantic_content. rewrite semantic_best_matches.
  assert (Hpos : forall x s, In (x, s) (semantic_matches soup) -> (0 < s)%Z).
  { intros x s Hin. apply semantic_matches_scores in Hin as [H _]. lia. }
  destruct (first_best_fold (semantic_matches soup) Hpos)
    as [[_ ->]|(i & x & s & [Hn Hmax] & ->)]; cbn [fst]; intros Hc Hne.
  - injection Hc as <-. now contradiction Hne.
  - injection Hc as <-. unfold score_of, candidate_of. cbn [snd]. split.
    + apply nth_error_In, semantic_matches_scores in Hn as [Hr _].
      change 65%Q with (inject_Z 65). rewrite <- Zle_Qle. lia.
    + intros Hart. destruct (select [by_tag "article"] soup) as [|el els] eqn:Hsel;
        [now contradiction Hart|].
      assert (Hin : In (el, (100 + score_content_quality el)%Z) (semantic_matches soup)).
      { unfold semantic_matches. apply in_flat_map.
        exists ([by_tag "article"], 100%Z). split; [now left|].
        cbn [fst snd]. rewrite Hsel. now left. }
      apply In_nth_error in Hin as [j Hj].
      destruct (Hmax j _ _ Hj) as [Hle _].
      pose proof (score_content_quality_range el).
      change 100%Q with (inject_Z 100). rewrite <- Zle_Qle. lia.
Qed.

Lemma length_score_ceiling (soup : node) (c : candidate) :
  fst (extract_by_length_heuristics soup) = Ok c -> (score_of c <= 80)%Q.
Proof.
  unfold extract_by_length_heuristics.
  set (candidates := map tag_uid (find_all length_candidates soup)).
  destruct (@length_fold_invariant candidates candidates (fun u H => H)
              (soup, None, 0%Q)) as [_ H]; cbn [fst snd];
    [apply Qle_refl | now left |].
  destruct (fold_left length_step candidates (soup, None, 0%Q))
    as [[soup' best] score]. cbn [fst snd] in H.
  destruct H as [(-> & _ & _)|(u & -> & _ & _ & Hs)]; cbn [fst];
    intros Hc; injection Hc as <-; [unfold Qle; cbn; lia | exact Hs].
Qed.

Lemma readability_score_ceiling (soup : node) (c : candidate) :
  fst (extract_readability_content soup) = Ok c -> (score_of c <= 55)%Q.
Proof.
  unfold extract_readability_content.
  destruct (@readability_fold_invariant (find_all length_candidates soup)
              (find_all length_candidates soup) (fun el H => H) (None, 0%Q))
    as [[_ Heq]|(el & Hsome & _ & _ & _ & Hscore)];
    cbn [fst snd]; [apply Qle_refl | now left | |].
  - rewrite Heq. cbn [fst]. intros Hc. injection Hc as <-. unfold Qle; cbn; lia.
  - destruct (fold_left readability_step (find_all length_candidates soup) (None, 0%Q))
      as [best score]. cbn [fst snd] in *. subst best. intros Hc. injection Hc as <-.
    unfold score_of, candidate_of. cbn [snd].
    change 55%Q with (inject_Z 55). rewrite <- Zle_Qle.
    apply (@py_int_bounds score 55); apply Hscore.
Qed.


